(** * GraphObject / GraphTensor: a shallow embedding of [GNN/graph_class_old.py]

    The development follows the Python module top to bottom.

    - numpy arrays are [ndarray]s of rationals ([Qc]): an array holds its
      numbers exactly, and the arrays hold finite numbers only. The arrays
      of a graph ([nodes], [arcs], [targets]) are float32 arrays in the
      code, so that converting them to float32 again keeps them
      ([astype_float]), and the arithmetic on the node indices they hold is
      exact. Where the code converts float64 numbers to float32 (the sample
      weights in [merge] and in [GraphTensor], the weights of the two
      builders in [buildArcNode_float32] and [buildNodeGraph_float32]) the
      conversion rounds, as [float32] does;
    - scipy COO matrices are records of three parallel arrays and a shape;
    - Python exceptions are values of [exn], carried by [result];
    - numpy arrays and [GraphObject] instances live in a [heap] of cells, so
      that [.copy()], [astype] and in-place [+=] keep their aliasing
      behaviour; methods are computations in the monad [M]. *)

From stdpp Require Import base numbers list sets strings sorting.
From Stdlib Require Import QArith Qcanon Qround Qpower Qabs Lqa Ascii.

Local Open Scope string_scope.
Local Open Scope Z_scope.
Local Open Scope Qc_scope.
Local Open Scope list_scope.
Local Open Scope nat_scope.

(* ===================================================================== *)
(** * Python exceptions and results *)
(* ===================================================================== *)

Inductive exn : Type :=
| ValueError (msg : string)
| TypeError (msg : string)
| IndexError (msg : string)
| KeyError (key : string)
| ZeroDivisionError (msg : string)
| AttributeError (msg : string)
| FileNotFoundError (path : string).

Inductive result (A : Type) : Type :=
| Ok (a : A)
| Raise (e : exn).

Arguments Ok {A} a.
Arguments Raise {A} e.

Definition rbind {A B : Type} (r : result A) (k : A → result B) : result B :=
  match r with
  | Ok a => k a
  | Raise e => Raise e
  end.

Notation "'try!' x ← r ; k" := (rbind r (λ x, k))
  (at level 20, x name, r at level 100, k at level 200,
   format "'[v' 'try!'  x  ←  r ;  '/' k ']'").

(* ===================================================================== *)
(** * Floating-point numbers *)
(* ===================================================================== *)

(** Converting a number to a binary floating-point format rounds it to the
    nearest number of the format, ties going to the even significand
    (IEEE 754, the rounding of numpy and TensorFlow). A format is given by
    the number [p] of bits of its significands and by the exponent [emin]
    of its least positive number. *)

(** The exponent of a positive rational [x]: [2^e ≤ x < 2^(e+1)]. *)
Definition ilog2 (x : Q) : Z :=
  let e0 := (Z.log2 (Qnum x) - Z.log2 (Z.pos (Qden x)))%Z in
  if Qle_bool (Qpower 2%Q e0) x then e0 else (e0 - 1)%Z.

(** The nearest integer, ties to even. *)
Definition rne (x : Q) : Z :=
  let f := Qfloor x in
  match Qcompare (x - inject_Z f)%Q (1 # 2)%Q with
  | Lt => f
  | Gt => (f + 1)%Z
  | Eq => if Z.even f then f else (f + 1)%Z
  end.

(** The nearest multiple of the unit in the last place of [x], which is
    [2^(e - p + 1)] for the exponent [e] of [x], and [2^emin] for the
    numbers below the normal range (gradual underflow). *)
Definition round_Q (p emin : Z) (x : Q) : Q :=
  if Qeq_bool x 0%Q then 0%Q
  else let q := Z.max (ilog2 (Qabs x) - p + 1) emin in
       (inject_Z (rne (x / Qpower 2%Q q)%Q) * Qpower 2%Q q)%Q.

Definition round_to (p emin : Z) (x : Qc) : Qc := Q2Qc (round_Q p emin x).

(** [np.float32(x)] and [np.float64(x)], for a number within the range of
    the format. *)
Definition float32 : Qc → Qc := round_to 24 (-149).

Definition float64 : Qc → Qc := round_to 53 (-1074).

(** The numbers of a format: a significand of fewer than [p] bits and an
    exponent of at least [emin]. *)
Definition representable (p emin : Z) (x : Q) : Prop :=
  ∃ m k : Z, (x == inject_Z m * Qpower 2%Q k)%Q ∧ (Z.abs m < 2 ^ p)%Z ∧ (emin ≤ k)%Z.

(* ===================================================================== *)
(** * numpy arrays *)
(* ===================================================================== *)

(** One- and two-dimensional arrays. A two-dimensional array records its
    second dimension, which numpy keeps when there are no rows. *)
Inductive ndarray : Type :=
| Arr1 (v : list Qc)
| Arr2 (ncols : nat) (rows : list (list Qc)).

(** [a.shape[0]], which is also [len(a)]. *)
Definition shape0 (a : ndarray) : nat :=
  match a with
  | Arr1 v => length v
  | Arr2 _ rows => length rows
  end.

(** [a.shape[1]]: a one-dimensional array has no second dimension. *)
Definition shape1 (a : ndarray) : result nat :=
  match a with
  | Arr1 _ => Raise (IndexError "tuple index out of range")
  | Arr2 c _ => Ok c
  end.

(** Every row of a two-dimensional array has the declared width. *)
Definition well_shaped (a : ndarray) : Prop :=
  match a with
  | Arr1 _ => True
  | Arr2 c rows => Forall (λ r, length r = c) rows
  end.

Definition Qc_of_nat (n : nat) : Qc := Qc_of_Z (Z.of_nat n).

(** C-style conversion of a float to an integer index: truncation. *)
Definition Qc_trunc (q : Qc) : Z := Z.quot (Qnum q) (Z.pos (Qden q)).

(** Truth value of an array element. *)
Definition truthy (x : Qc) : bool := negb (bool_decide (x = 0%Qc)).

Definition Qc_of_bool (b : bool) : Qc := if b then 1%Qc else 0%Qc.

Definition map_array (f : Qc → Qc) (a : ndarray) : ndarray :=
  match a with
  | Arr1 v => Arr1 (f <$> v)
  | Arr2 c rows => Arr2 c ((λ r : list Qc, f <$> r) <$> rows)
  end.

(** [a.astype(float)]: a fresh array with the same entries. *)
Definition astype_float (a : ndarray) : ndarray := map_array (λ x, x) a.

(** [a.astype(bool)]: every entry becomes 0 or 1. *)
Definition astype_bool (a : ndarray) : ndarray :=
  map_array (λ x, Qc_of_bool (truthy x)) a.

(** [np.ones(n)] *)
Definition np_ones (n : nat) : ndarray := Arr1 (replicate n 1%Qc).

(** [np.arange(0, n)] *)
Definition np_arange (n : nat) : list Z := Z.of_nat <$> seq 0 n.

(** The [sample_weights] argument: a Python number or an array. *)
Inductive weights_arg : Type :=
| WScalar (q : Qc)
| WArray (a : ndarray).

Definition broadcast_error : exn :=
  ValueError "operands could not be broadcast together".

(** One row [r] times the vector [o], with numpy's broadcasting of a
    dimension of length one. *)
Definition mul_row (r o : list Qc) : result (list Qc) :=
  if decide (length r = length o) then Ok (zip_with Qcmult r o)
  else match r, o with
       | [x], _ => Ok (Qcmult x <$> o)
       | _, [y] => Ok ((λ x, Qcmult x y) <$> r)
       | _, _ => Raise broadcast_error
       end.

(** [sample_weights * np.ones(n)] *)
Definition mul_ones (w : weights_arg) (n : nat) : result ndarray :=
  let o := replicate n 1%Qc in
  match w with
  | WScalar q => Ok (Arr1 (Qcmult q <$> o))
  | WArray (Arr1 v) => try! r ← mul_row v o; Ok (Arr1 r)
  | WArray (Arr2 c rows) =>
      if decide (c = n) then Ok (Arr2 n ((λ r : list Qc, zip_with Qcmult r o) <$> rows))
      else if decide (c = 1) then
        Ok (Arr2 n ((λ r : list Qc, (λ y, Qcmult (hd 0%Qc r) y) <$> o) <$> rows))
      else if decide (n = 1) then
        Ok (Arr2 c ((λ r : list Qc, (λ x, Qcmult x 1%Qc) <$> r) <$> rows))
      else Raise broadcast_error
  end.

(** [a[:, j]] *)
Definition column (j : nat) (a : ndarray) : result (list Qc) :=
  match a with
  | Arr1 _ => Raise (IndexError "too many indices for array")
  | Arr2 c rows =>
      if decide (j < c) then Ok ((λ r : list Qc, nth j r 0%Qc) <$> rows)
      else Raise (IndexError "index is out of bounds for axis 1")
  end.

(** [a[:, :2] += k], as the new contents of the array. On a
    one-dimensional array the indexing fails. The array is a float32 one
    and the sum is taken in float32: it is exact for the node indices and
    node counts of a graph, whole numbers that stay below 2^24. *)
Definition shift_row (k : Qc) (r : list Qc) : list Qc :=
  (Qcplus k <$> take 2 r) ++ drop 2 r.

Definition iadd_first_two (k : Qc) (a : ndarray) : result ndarray :=
  match a with
  | Arr1 _ => Raise (IndexError "too many indices for array")
  | Arr2 c rows => Ok (Arr2 c (shift_row k <$> rows))
  end.

(** [np.concatenate(arrays, axis=0)] *)
Definition concat2 (a b : ndarray) : result ndarray :=
  match a, b with
  | Arr1 v, Arr1 w => Ok (Arr1 (v ++ w))
  | Arr2 c r, Arr2 d s =>
      if decide (c = d) then Ok (Arr2 c (r ++ s))
      else Raise (ValueError "all the input array dimensions except for the concatenation axis must match exactly")
  | _, _ => Raise (ValueError "all the input arrays must have same number of dimensions")
  end.

Fixpoint concat_from (a : ndarray) (l : list ndarray) : result ndarray :=
  match l with
  | [] => Ok a
  | b :: l' => try! ab ← concat2 a b; concat_from ab l'
  end.

Definition np_concatenate (l : list ndarray) : result ndarray :=
  match l with
  | [] => Raise (ValueError "need at least one array to concatenate")
  | a :: l' => concat_from a l'
  end.

(** The builtin [all(a)] over the first axis of an array: the elements of
    a vector, the one-element rows of a column. A wider row has no truth
    value. *)
Definition py_all (a : ndarray) : result bool :=
  match a with
  | Arr1 v => Ok (forallb truthy v)
  | Arr2 c rows =>
      if decide (c = 1) then Ok (forallb (λ r, truthy (hd 0%Qc r)) rows)
      else match rows with
           | [] => Ok true
           | _ => Raise (ValueError "The truth value of an array with more than one element is ambiguous")
           end
  end.

(** [np.any(a != 1)] *)
Definition any_ne_one (a : ndarray) : bool :=
  let ne1 := λ x : Qc, negb (bool_decide (x = 1%Qc)) in
  match a with
  | Arr1 v => existsb ne1 v
  | Arr2 _ rows => existsb (existsb ne1) rows
  end.

(** ** [np.unique(col, return_inverse=True, return_counts=True)] *)

Fixpoint insert_unique (x : Qc) (l : list Qc) : list Qc :=
  match l with
  | [] => [x]
  | y :: l' =>
      if decide (x = y) then l
      else if decide (x < y)%Qc then x :: l
      else y :: insert_unique x l'
  end.

Definition unique_values (col : list Qc) : list Qc := foldr insert_unique [] col.

Fixpoint index_of (x : Qc) (l : list Qc) : nat :=
  match l with
  | [] => 0
  | y :: l' => if decide (x = y) then 0 else S (index_of x l')
  end.

Definition occurrences (x : Qc) (col : list Qc) : nat :=
  length (filter (λ y, y = x) col).

Definition np_unique (col : list Qc) : list Qc * list nat * list nat :=
  let val := unique_values col in
  (val, (λ x, index_of x val) <$> col, (λ v, occurrences v col) <$> val).

(* ===================================================================== *)
(** * scipy COO matrices *)
(* ===================================================================== *)

Record coo : Type := Coo {
  coo_shape : nat * nat;
  coo_row : list Z;
  coo_col : list Z;
  coo_data : list Qc
}.

(** The stored (row, column, value) triplets, in storage order. *)
Definition entries (m : coo) : list (Z * Z * Qc) :=
  zip (zip (coo_row m) (coo_col m)) (coo_data m).

Definition sumQc (l : list Qc) : Qc := foldr Qcplus 0%Qc l.

(** The entry at [(r, c)] of the matrix: stored duplicates add up. *)
Definition coo_get (m : coo) (r c : Z) : Qc :=
  sumQc (snd <$> filter (λ e, e.1.1 = r ∧ e.1.2 = c) (entries m)).

(** The stored entries of row [r], of column [c]. *)
Definition row_entries (m : coo) (r : Z) : list (Z * Z * Qc) :=
  filter (λ e, e.1.1 = r) (entries m).

Definition col_entries (m : coo) (c : Z) : list (Z * Z * Qc) :=
  filter (λ e, e.1.2 = c) (entries m).

Definition col_sum (m : coo) (c : Z) : Qc := sumQc (snd <$> col_entries m c).

(** [coo_matrix((data, (row, col)), shape=shape)], with scipy's
    consistency checks. *)
Definition coo_check (m : coo) : result coo :=
  if negb (bool_decide (length (coo_row m) = length (coo_data m)
                        ∧ length (coo_col m) = length (coo_data m)))
  then Raise (ValueError "row, column, and data array must all be the same length")
  else if bool_decide (Exists (λ r, Z.of_nat (coo_shape m).1 ≤ r)%Z (coo_row m))
  then Raise (ValueError "row index exceeds matrix dimensions")
  else if bool_decide (Exists (λ c, Z.of_nat (coo_shape m).2 ≤ c)%Z (coo_col m))
  then Raise (ValueError "column index exceeds matrix dimensions")
  else if bool_decide (Exists (λ r, r < 0)%Z (coo_row m))
  then Raise (ValueError "negative row index found")
  else if bool_decide (Exists (λ c, c < 0)%Z (coo_col m))
  then Raise (ValueError "negative column index found")
  else Ok m.

Definition coo_matrix (data : list Qc) (row col : list Z) (shape : nat * nat)
  : result coo :=
  coo_check (Coo shape row col data).

Definition max_index (l : list Z) : Z := foldr Z.max 0%Z l.

(** [coo_matrix((data, ij))]: the shape is inferred from the largest
    indices. *)
Definition coo_matrix_infer (data : list Qc) (row col : list Z) : result coo :=
  match row, col with
  | [], _ | _, [] =>
      Raise (ValueError "cannot infer dimensions from zero sized index arrays")
  | _, _ =>
      coo_check (Coo (Z.to_nat (max_index row + 1), Z.to_nat (max_index col + 1))
                     row col data)
  end.

(** [coo_matrix(dense)]: the nonzero entries in row-major order. A vector
    is one row. *)
Definition nonzero_of_row (i : nat) (r : list Qc) : list (Z * Z * Qc) :=
  omap (λ jx, if truthy jx.2 then Some (Z.of_nat i, Z.of_nat jx.1, jx.2) else None)
       (imap (λ j x, (j, x)) r).

Definition coo_of_entries (shape : nat * nat) (es : list (Z * Z * Qc)) : coo :=
  Coo shape ((λ e, e.1.1) <$> es) ((λ e, e.1.2) <$> es) (snd <$> es).

Definition coo_matrix_dense (a : ndarray) : coo :=
  match a with
  | Arr1 v => coo_of_entries (1, length v) (nonzero_of_row 0 v)
  | Arr2 c rows =>
      coo_of_entries (length rows, c) (mjoin (imap nonzero_of_row rows))
  end.

(** [coo_matrix([])] *)
Definition coo_matrix_empty : coo := coo_matrix_dense (Arr1 []).

(** [block_diag(mats)]: the blocks along the diagonal, each block's
    entries moved by the rows and columns of the blocks before it. *)
Fixpoint block_diag_from (r0 c0 : nat) (mats : list coo) : coo :=
  match mats with
  | [] => Coo (r0, c0) [] [] []
  | m :: mats' =>
      let rest := block_diag_from (r0 + (coo_shape m).1) (c0 + (coo_shape m).2) mats' in
      Coo (coo_shape rest)
          (((λ r, r + Z.of_nat r0)%Z <$> coo_row m) ++ coo_row rest)
          (((λ c, c + Z.of_nat c0)%Z <$> coo_col m) ++ coo_col rest)
          (coo_data m ++ coo_data rest)
  end.

Definition block_diag (mats : list coo) : coo := block_diag_from 0 0 mats.

(* ===================================================================== *)
(** * GraphObject: the matrix builders *)
(* ===================================================================== *)

Definition recognized (mode : string) : bool :=
  bool_decide (mode ∈ ["average"; "normalized"; "sum"]).

(** [GraphObject.buildArcNode], on the attributes of [self] that it reads. *)
Definition buildArcNode (arcs nodes : ndarray) (aggregation_mode : string)
  : result coo :=
  try! col ← column 1 arcs;
  let row := np_arange (length col) in
  let values_vector := replicate (length col) 1%Qc in
  try! values_vector ←
    (if decide (aggregation_mode = "normalized") then
       if decide (length col = 0)
       then Raise (ZeroDivisionError "division by zero")
       else Ok ((λ x, x * (1 / Qc_of_nat (length col)))%Qc <$> values_vector)
     else if decide (aggregation_mode = "average") then
       let '(val, col_index, destination_node_counts) := np_unique col in
       Ok (zip_with (λ x k, x / Qc_of_nat (nth k destination_node_counts 0%nat))%Qc
                    values_vector col_index)
     else Ok values_vector);
  coo_matrix values_vector row (Qc_trunc <$> col) (shape0 arcs, shape0 nodes).

(** [GraphObject.buildAdjacency], on the attributes of [self] that it reads.
    Unpacking the integer slice of the first two columns with [zip] gives
    the two index tuples only when there is at least one arc and the slice
    has two columns; scipy rejects anything else as an invalid input
    format. *)
Definition buildAdjacency (arcs nodes : ndarray) (ArcNode : coo) : result coo :=
  let values := coo_data ArcNode in
  match arcs with
  | Arr1 _ => Raise (IndexError "too many indices for array")
  | Arr2 c rows =>
      if bool_decide (2 ≤ c ∧ rows ≠ []) then
        coo_matrix values
          ((λ r : list Qc, Qc_trunc (nth 0 r 0%Qc)) <$> rows)
          ((λ r : list Qc, Qc_trunc (nth 1 r 0%Qc)) <$> rows)
          (shape0 nodes, shape0 nodes)
      else Raise (TypeError "invalid input format")
  end.

(** [GraphObject.buildNodeGraph], on the attribute of [self] that it reads. *)
Definition buildNodeGraph (nodes : ndarray) (problem_based : string) : coo :=
  let nodegraph := coo_matrix_empty in
  if decide (problem_based = "g") then
    let data := Arr2 1 (replicate (shape0 nodes)
                          [(1 * 1 / Qc_of_nat (shape0 nodes))%Qc]) in
    coo_matrix_dense data
  else nodegraph.

(** ** The builders with the arithmetic of the code

    [buildArcNode] and [buildNodeGraph] above compute the weights as the
    real numbers 1/A, 1/k and 1/N. The code computes them in floating
    point and stores the matrices with [dtype=self.dtype], which is
    'float32' (the default of [tf.keras.backend.floatx()]). The two methods
    again, with every floating-point operation of the code rounding its
    result. *)

(** [GraphObject.buildArcNode]: [np.ones] is a float64 array;
    [float(1 / len(col))] is the float64 quotient of two integers;
    the element-wise product and quotient are float64 operations (the
    counts are integers, converted to float64); [coo_matrix] converts the
    values to float32. *)
Definition buildArcNode_float32 (arcs nodes : ndarray) (aggregation_mode : string)
  : result coo :=
  try! col ← column 1 arcs;
  let row := np_arange (length col) in
  let values_vector := replicate (length col) 1%Qc in
  try! values_vector ←
    (if decide (aggregation_mode = "normalized") then
       if decide (length col = 0)
       then Raise (ZeroDivisionError "division by zero")
       else Ok ((λ x, float64 (x * float64 (1 / Qc_of_nat (length col))))%Qc
                  <$> values_vector)
     else if decide (aggregation_mode = "average") then
       let '(val, col_index, destination_node_counts) := np_unique col in
       Ok (zip_with
             (λ x k, float64 (x / float64 (Qc_of_nat (nth k destination_node_counts 0%nat)))%Qc)
             values_vector col_index)
     else Ok values_vector);
  coo_matrix (float32 <$> values_vector) row (Qc_trunc <$> col)
             (shape0 arcs, shape0 nodes).

(** [GraphObject.buildNodeGraph]: [np.ones(..., dtype=np.float32) * 1 / N]
    is float32 arithmetic, the integer [N] being converted to float32;
    [coo_matrix] converts the values to float32 once more. *)
Definition buildNodeGraph_float32 (nodes : ndarray) (problem_based : string) : coo :=
  let nodegraph := coo_matrix_empty in
  if decide (problem_based = "g") then
    let data := Arr2 1 (replicate (shape0 nodes)
                          [float32 (float32 (1 * 1) / float32 (Qc_of_nat (shape0 nodes)))%Qc]) in
    coo_matrix_dense (map_array float32 data)
  else nodegraph.

(* ===================================================================== *)
(** * The store: arrays and objects with identity *)
(* ===================================================================== *)

(** A place in the store. *)
Abbreviation loc := nat.

(** The attributes of a [GraphObject]. Arrays are references into the
    store; sparse matrices are never updated in place by this module and are
    kept by value. *)
Record GraphObject : Type := mkGraphObject {
  nodes : loc;
  arcs : loc;
  targets : loc;
  sample_weights : loc;
  DIM_NODE_LABEL : nat;
  DIM_ARC_LABEL : Z;
  DIM_TARGET : nat;
  set_mask : loc;
  output_mask : loc;
  aggregation_mode : string;
  ArcNode : coo;
  Adjacency : coo;
  NodeGraph : coo
}.

Inductive cell : Type :=
| CArray (a : ndarray)
| CGraph (g : GraphObject).

(** A file holds an array ([.npy]) or lines of numbers ([.txt]). *)
Inductive file : Type :=
| FNpy (a : ndarray)
| FTxt (lines : list (list Qc)).

(** A directory: file names and contents, in the order [os.listdir]
    reports them. *)
Definition directory : Type := list (string * file).

Record state : Type := mkState {
  heap : list cell;
  disk : list (string * directory)
}.

(** Computations that read and update the store and may raise; the store
    is kept when an exception propagates. *)
Definition M (A : Type) : Type := state → result A * state.

Definition ret {A : Type} (a : A) : M A := λ σ, (Ok a, σ).

Definition raise {A : Type} (e : exn) : M A := λ σ, (Raise e, σ).

Definition bind {A B : Type} (m : M A) (k : A → M B) : M B :=
  λ σ, match m σ with
       | (Ok a, σ') => k a σ'
       | (Raise e, σ') => (Raise e, σ')
       end.

Definition lift {A : Type} (r : result A) : M A := λ σ, (r, σ).

Notation "'do!' x ← m ; k" := (bind m (λ x, k))
  (at level 20, x name, m at level 100, k at level 200,
   format "'[v' 'do!'  x  ←  m ;  '/' k ']'").

Notation "m ;; k" := (bind m (λ _, k))
  (at level 100, k at level 200, right associativity).

Definition alloc (c : cell) : M loc :=
  λ σ, (Ok (length (heap σ)), mkState (heap σ ++ [c]) (disk σ)).

Definition read_array (l : loc) : M ndarray :=
  λ σ, match heap σ !! l with
       | Some (CArray a) => (Ok a, σ)
       | _ => (Raise (AttributeError "not an array"), σ)
       end.

Definition read_graph (l : loc) : M GraphObject :=
  λ σ, match heap σ !! l with
       | Some (CGraph g) => (Ok g, σ)
       | _ => (Raise (AttributeError "not a GraphObject"), σ)
       end.

Definition write (l : loc) (c : cell) : M unit :=
  λ σ, (Ok tt, mkState (<[l := c]> (heap σ)) (disk σ)).

Fixpoint mapM {A B : Type} (f : A → M B) (l : list A) : M (list B) :=
  match l with
  | [] => ret []
  | x :: l' => do! y ← f x; do! ys ← mapM f l'; ret (y :: ys)
  end.

(* ===================================================================== *)
(** * GraphObject: constructor, getters, setAggregation *)
(* ===================================================================== *)

(** A matrix argument: a dense array or a sparse matrix. *)
Inductive matrix_arg : Type :=
| MDense (a : ndarray)
| MSparse (m : coo).

(** [coo_matrix(arg, dtype=self.dtype)] *)
Definition coo_of_arg (arg : matrix_arg) : coo :=
  match arg with
  | MDense a => coo_matrix_dense a
  | MSparse m => m
  end.

(** The arguments of [GraphObject.__init__]. Array arguments are only read
    by the constructor (every one goes through [astype] or a product), so
    they are passed by value. *)
Record init_args : Type := mkArgs {
  arg_nodes : ndarray;
  arg_arcs : ndarray;
  arg_targets : ndarray;
  arg_problem_based : string;
  arg_set_mask : option ndarray;
  arg_output_mask : option ndarray;
  arg_sample_weights : weights_arg;
  arg_NodeGraph : option matrix_arg;
  arg_ArcNode : option matrix_arg;
  arg_aggregation_mode : string
}.

Definition unknown_mode : exn := ValueError "ERROR: Unknown aggregation mode".

Definition mask_mismatch : exn :=
  ValueError "Error - len(<set_mask>) != len(<output_mask>)".

(** [lenMask[problem_based]] *)
Definition lenMask (nodes arcs : ndarray) (problem_based : string) : result nat :=
  if decide (problem_based = "n") then Ok (shape0 nodes)
  else if decide (problem_based = "a") then Ok (shape0 arcs)
  else if decide (problem_based = "g") then Ok (shape0 nodes)
  else Raise (KeyError problem_based).

(** [GraphObject.__init__]. The attributes are computed in the order of the
    source; the object is stored once all of them are there, since nothing
    can observe a half-built instance. *)
Definition GraphObject_init (args : init_args) : M loc :=
  let nodes := astype_float (arg_nodes args) in
  let arcs := astype_float (arg_arcs args) in
  let targets := astype_float (arg_targets args) in
  do! l_nodes ← alloc (CArray nodes);
  do! l_arcs ← alloc (CArray arcs);
  do! l_targets ← alloc (CArray targets);
  do! sample_weights ← lift (mul_ones (arg_sample_weights args) (shape0 targets));
  do! l_sample_weights ← alloc (CArray sample_weights);
  do! dim_node_label ← lift (shape1 (arg_nodes args));
  do! arcs_width ← lift (shape1 (arg_arcs args));
  do! dim_target ← lift (shape1 (arg_targets args));
  do! set_mask ←
    match arg_set_mask args with
    | None =>
        do! n ← lift (lenMask (arg_nodes args) (arg_arcs args) (arg_problem_based args));
        ret (np_ones n)
    | Some m => ret (astype_bool m)
    end;
  do! l_set_mask ← alloc (CArray set_mask);
  let output_mask :=
    match arg_output_mask args with
    | None => np_ones (shape0 set_mask)
    | Some m => astype_bool m
    end in
  do! l_output_mask ← alloc (CArray output_mask);
  if negb (bool_decide (shape0 set_mask = shape0 output_mask)) then raise mask_mismatch
  else if negb (recognized (arg_aggregation_mode args)) then raise unknown_mode
  else
    do! arcnode ←
      match arg_ArcNode args with
      | None => lift (buildArcNode arcs nodes (arg_aggregation_mode args))
      | Some m => ret (coo_of_arg m)
      end;
    do! adjacency ← lift (buildAdjacency arcs nodes arcnode);
    let nodegraph :=
      match arg_NodeGraph args with
      | None => buildNodeGraph nodes (arg_problem_based args)
      | Some m => coo_of_arg m
      end in
    alloc (CGraph {|
      nodes := l_nodes; arcs := l_arcs; targets := l_targets;
      sample_weights := l_sample_weights;
      DIM_NODE_LABEL := dim_node_label;
      DIM_ARC_LABEL := (Z.of_nat arcs_width - 2)%Z;
      DIM_TARGET := dim_target;
      set_mask := l_set_mask; output_mask := l_output_mask;
      aggregation_mode := arg_aggregation_mode args;
      ArcNode := arcnode; Adjacency := adjacency; NodeGraph := nodegraph |}).

(** The array getters: [self.<attr>.copy()], a fresh array. *)
Definition get_copy (attr : GraphObject → loc) (self : loc) : M loc :=
  do! g ← read_graph self;
  do! a ← read_array (attr g);
  alloc (CArray a).

Definition getArcs : loc → M loc := get_copy arcs.
Definition getNodes : loc → M loc := get_copy nodes.
Definition getTargets : loc → M loc := get_copy targets.
Definition getSetMask : loc → M loc := get_copy set_mask.
Definition getOutputMask : loc → M loc := get_copy output_mask.
Definition getSampleWeights : loc → M loc := get_copy sample_weights.

(** The matrix getters return a copy of a matrix kept by value. *)
Definition getAdjacency (self : loc) : M coo :=
  do! g ← read_graph self; ret (Adjacency g).
Definition getArcNode (self : loc) : M coo :=
  do! g ← read_graph self; ret (ArcNode g).
Definition getNodeGraph (self : loc) : M coo :=
  do! g ← read_graph self; ret (NodeGraph g).

Definition set_aggregation_mode (mode : string) (g : GraphObject) : GraphObject :=
  mkGraphObject (nodes g) (arcs g) (targets g) (sample_weights g)
    (DIM_NODE_LABEL g) (DIM_ARC_LABEL g) (DIM_TARGET g) (set_mask g)
    (output_mask g) mode (ArcNode g) (Adjacency g) (NodeGraph g).

Definition set_ArcNode (m : coo) (g : GraphObject) : GraphObject :=
  mkGraphObject (nodes g) (arcs g) (targets g) (sample_weights g)
    (DIM_NODE_LABEL g) (DIM_ARC_LABEL g) (DIM_TARGET g) (set_mask g)
    (output_mask g) (aggregation_mode g) m (Adjacency g) (NodeGraph g).

Definition set_Adjacency (m : coo) (g : GraphObject) : GraphObject :=
  mkGraphObject (nodes g) (arcs g) (targets g) (sample_weights g)
    (DIM_NODE_LABEL g) (DIM_ARC_LABEL g) (DIM_TARGET g) (set_mask g)
    (output_mask g) (aggregation_mode g) (ArcNode g) m (NodeGraph g).

(** [self.<attr> = value] *)
Definition setattr (self : loc) (f : GraphObject → GraphObject) : M unit :=
  do! g ← read_graph self;
  write self (CGraph (f g)).

(** [self.buildArcNode()] and [self.buildAdjacency()] on a stored object. *)
Definition self_buildArcNode (self : loc) : M coo :=
  do! g ← read_graph self;
  do! a ← read_array (arcs g);
  do! n ← read_array (nodes g);
  lift (buildArcNode a n (aggregation_mode g)).

Definition self_buildAdjacency (self : loc) : M coo :=
  do! g ← read_graph self;
  do! a ← read_array (arcs g);
  do! n ← read_array (nodes g);
  lift (buildAdjacency a n (ArcNode g)).

(** [GraphObject.setAggregation] *)
Definition setAggregation (self : loc) (aggregation_mode : string) : M unit :=
  if negb (recognized aggregation_mode) then raise unknown_mode
  else
    setattr self (set_aggregation_mode aggregation_mode);;
    do! arcnode ← self_buildArcNode self;
    setattr self (set_ArcNode arcnode);;
    do! adjacency ← self_buildAdjacency self;
    setattr self (set_Adjacency adjacency).

(** [GraphObject.copy]: the getters' copies go to the constructor, with the
    default [problem_based] and no [ArcNode]. *)
Definition copy (self : loc) : M loc :=
  do! l_arcs ← getArcs self;
  do! l_nodes ← getNodes self;
  do! l_targets ← getTargets self;
  do! l_set_mask ← getSetMask self;
  do! l_output_mask ← getOutputMask self;
  do! l_sample_weights ← getSampleWeights self;
  do! nodegraph ← getNodeGraph self;
  do! g ← read_graph self;
  do! a_arcs ← read_array l_arcs;
  do! a_nodes ← read_array l_nodes;
  do! a_targets ← read_array l_targets;
  do! a_set_mask ← read_array l_set_mask;
  do! a_output_mask ← read_array l_output_mask;
  do! a_sample_weights ← read_array l_sample_weights;
  GraphObject_init {|
    arg_nodes := a_nodes; arg_arcs := a_arcs; arg_targets := a_targets;
    arg_problem_based := "n";
    arg_set_mask := Some a_set_mask; arg_output_mask := Some a_output_mask;
    arg_sample_weights := WArray a_sample_weights;
    arg_NodeGraph := Some (MSparse nodegraph); arg_ArcNode := None;
    arg_aggregation_mode := aggregation_mode g |}.

(* ===================================================================== *)
(** * GraphObject.merge *)
(* ===================================================================== *)

(** What a Python list handed to [merge] may hold. *)
Inductive pyobj : Type :=
| PGraph (l : loc)
| PStr (s : string)
| POther.

Definition is_graph_or_str (x : pyobj) : bool :=
  match x with
  | PGraph _ | PStr _ => true
  | POther => false
  end.

(** One tuple of [get_data]: the getters' copies, and the node count. *)
Record graph_data : Type := mkData {
  d_nodes : loc;
  d_nodes_len : nat;
  d_arcs : loc;
  d_targets : loc;
  d_set_mask : loc;
  d_output_mask : loc;
  d_sample_weights : loc;
  d_nodegraph : coo
}.

Definition get_data (x : pyobj) : M graph_data :=
  match x with
  | PGraph i =>
      do! c_nodes ← getNodes i;
      do! g ← read_graph i;
      do! a_nodes ← read_array (nodes g);
      do! c_arcs ← getArcs i;
      do! c_targets ← getTargets i;
      do! c_set_mask ← getSetMask i;
      do! c_output_mask ← getOutputMask i;
      do! c_sample_weights ← getSampleWeights i;
      do! nodegraph ← getNodeGraph i;
      ret (mkData c_nodes (shape0 a_nodes) c_arcs c_targets c_set_mask
                  c_output_mask c_sample_weights nodegraph)
  | _ => raise (AttributeError "object has no attribute 'getNodes'")
  end.

(** [for i, elem in enumerate(arcs): elem[:, :2] += sum(nodes_lens[:i])],
    from position [i] on: each array is updated where it is stored. *)
Fixpoint shift_arcs (i : nat) (nodes_lens : list nat) (arcs : list loc) : M unit :=
  match arcs with
  | [] => ret tt
  | elem :: rest =>
      do! a ← read_array elem;
      do! a' ← lift (iadd_first_two (Qc_of_nat (sum_list (take i nodes_lens))) a);
      write elem (CArray a');;
      shift_arcs (S i) nodes_lens rest
  end.

(** [np.concatenate] of the arrays stored at the given places. *)
Definition concatenate_at (ls : list loc) : M ndarray :=
  do! arrays ← mapM read_array ls;
  lift (np_concatenate arrays).

(** [np.concatenate(arrays, axis=0, dtype='float32')] of float64 arrays:
    the numbers are converted to float32. *)
Definition concatenate_float32_at (ls : list loc) : M ndarray :=
  do! a ← concatenate_at ls;
  ret (map_array float32 a).

(** [GraphObject.merge], with its default [dtype='float32']. Of the six
    arrays that are concatenated, the sample weights are float64 (the
    constructor stores their product with [np.ones]) and the conversion
    rounds them; the nodes, arcs and targets are float32 arrays, and the
    masks hold 0 and 1: the conversion keeps them. *)
Definition merge (glist : list pyobj) (problem_based aggregation_mode : string)
  : M loc :=
  if negb (forallb is_graph_or_str glist) then
    raise (TypeError "type of param <glist> must be list of str 'path-like' or GraphObjects")
  else
    do! data ← mapM get_data glist;
    match data with
    | [] => raise (ValueError "not enough values to unpack (expected 8, got 0)")
    | _ =>
        let nodes_lens := d_nodes_len <$> data in
        shift_arcs 0 nodes_lens (d_arcs <$> data);;
        do! arcs ← concatenate_at (d_arcs <$> data);
        do! nodes ← concatenate_at (d_nodes <$> data);
        do! targets ← concatenate_at (d_targets <$> data);
        do! set_mask ← concatenate_at (d_set_mask <$> data);
        do! output_mask ← concatenate_at (d_output_mask <$> data);
        do! sample_weights ← concatenate_float32_at (d_sample_weights <$> data);
        let nodegraph := block_diag (d_nodegraph <$> data) in
        GraphObject_init {|
          arg_nodes := nodes; arg_arcs := arcs; arg_targets := targets;
          arg_problem_based := problem_based;
          arg_set_mask := Some set_mask; arg_output_mask := Some output_mask;
          arg_sample_weights := WArray sample_weights;
          arg_NodeGraph := Some (MSparse nodegraph); arg_ArcNode := None;
          arg_aggregation_mode := aggregation_mode |}
    end.

(** The contents of a stored graph, read through its references. *)
Record graph_contents : Type := mkContents {
  c_nodes : ndarray;
  c_arcs : ndarray;
  c_targets : ndarray;
  c_set_mask : ndarray;
  c_output_mask : ndarray;
  c_sample_weights : ndarray;
  c_aggregation_mode : string;
  c_ArcNode : coo;
  c_Adjacency : coo;
  c_NodeGraph : coo
}.

Definition array_at (h : list cell) (l : loc) : option ndarray :=
  match h !! l with
  | Some (CArray a) => Some a
  | _ => None
  end.

Definition graph_at (h : list cell) (l : loc) : option GraphObject :=
  match h !! l with
  | Some (CGraph g) => Some g
  | _ => None
  end.

Definition contents (h : list cell) (l : loc) : option graph_contents :=
  g ← graph_at h l;
  n ← array_at h (nodes g);
  a ← array_at h (arcs g);
  t ← array_at h (targets g);
  sm ← array_at h (set_mask g);
  om ← array_at h (output_mask g);
  sw ← array_at h (sample_weights g);
  Some (mkContents n a t sm om sw (aggregation_mode g)
                   (ArcNode g) (Adjacency g) (NodeGraph g)).

(* ===================================================================== *)
(** * Persistence: one directory per graph *)
(* ===================================================================== *)

Fixpoint last_char (s : string) : option Ascii.ascii :=
  match s with
  | EmptyString => None
  | String c EmptyString => Some c
  | String _ s' => last_char s'
  end.

(** [if graph_folder_path[-1] != '/': graph_folder_path += '/'] *)
Definition folder_path (graph_folder_path : string) : result string :=
  match last_char graph_folder_path with
  | None => Raise (IndexError "string index out of range")
  | Some c =>
      if Ascii.eqb c "/"%char then Ok graph_folder_path
      else Ok (graph_folder_path +:+ "/")
  end.

(** [i.rsplit('.')[0]]: the file name up to its first dot. *)
Fixpoint before_dot (s : string) : string :=
  match s with
  | EmptyString => EmptyString
  | String c s' => if Ascii.eqb c "."%char then EmptyString else String c (before_dot s')
  end.

Definition set_disk (d : list (string * directory)) : M unit :=
  λ σ, (Ok tt, mkState (heap σ) d).

Definition get_disk : M (list (string * directory)) :=
  λ σ, (Ok (disk σ), σ).

(** [if os.path.exists(p): shutil.rmtree(p)] then [os.makedirs(p)]:
    whatever is stored at or below [p] goes, and [p] is an empty
    directory. *)
Definition reset_folder (p : string) : M unit :=
  do! d ← get_disk;
  set_disk ((p, []) :: filter (λ e, String.prefix p e.1 = false) d).

Definition lookup_dir (p : string) (d : list (string * directory)) : option directory :=
  (λ x : nat * (string * directory), x.2.2) <$> list_find (λ e, e.1 = p) d.

Definition write_file (p name : string) (f : file) : M unit :=
  do! d ← get_disk;
  match lookup_dir p d with
  | None => raise (FileNotFoundError p)
  | Some _ =>
      set_disk ((λ e : string * directory,
                   if decide (e.1 = p) then (e.1, e.2 ++ [(name, f)]) else e) <$> d)
  end.

(** [os.listdir(p)] together with the files' contents. *)
Definition listdir (p : string) : M directory :=
  do! d ← get_disk;
  match lookup_dir p d with
  | None => raise (FileNotFoundError p)
  | Some files => ret files
  end.

(** [np.stack([m.data, m.row, m.col])] *)
Definition stack_coo (m : coo) : result ndarray :=
  if bool_decide (length (coo_row m) = length (coo_data m)
                  ∧ length (coo_col m) = length (coo_data m))
  then Ok (Arr2 (length (coo_data m))
             [coo_data m; Qc_of_Z <$> coo_row m; Qc_of_Z <$> coo_col m])
  else Raise (ValueError "all input arrays must have the same shape").

(** The two codecs. [np.save] stores the array; [np.savetxt] writes one line
    per row (per element of a vector), each number through the format
    string. The format is represented by [fmt], the value that the text
    written for a number reads back as. *)
Definition np_save (a : ndarray) : file := FNpy a.

Definition np_load (f : file) : result ndarray :=
  match f with
  | FNpy a => Ok a
  | FTxt _ => Raise (ValueError "Cannot load file containing pickled data")
  end.

Definition np_savetxt (fmt : Qc → Qc) (a : ndarray) : file :=
  match a with
  | Arr1 v => FTxt ((λ x, [fmt x]) <$> v)
  | Arr2 _ rows => FTxt ((λ r : list Qc, fmt <$> r) <$> rows)
  end.

(** [np.loadtxt(f, ndmin=2)]: empty lines are skipped, the rows must agree
    in length, and the result is two-dimensional whatever was written. *)
Definition np_loadtxt (f : file) : result ndarray :=
  match f with
  | FNpy _ => Raise (ValueError "could not convert string to float")
  | FTxt lines =>
      match filter (λ l, l ≠ []) lines with
      | [] => Ok (Arr2 1 [])
      | l0 :: ls =>
          if bool_decide (Forall (λ l, length l = length l0) ls)
          then Ok (Arr2 (length l0) (l0 :: ls))
          else Raise (ValueError "the number of columns changed")
      end
  end.

(** The body shared by [save_graph] and [save_txt]: [put] is the codec and
    [ext] the file extension. *)
Definition save_with (put : ndarray → file) (ext : string)
    (graph_folder_path : string) (g : loc) : M unit :=
  do! p ← lift (folder_path graph_folder_path);
  reset_folder p;;
  do! go ← read_graph g;
  do! a_arcs ← read_array (arcs go);
  write_file p ("arcs" +:+ ext) (put a_arcs);;
  do! a_nodes ← read_array (nodes go);
  write_file p ("nodes" +:+ ext) (put a_nodes);;
  do! a_targets ← read_array (targets go);
  write_file p ("targets" +:+ ext) (put a_targets);;
  do! a_set_mask ← read_array (set_mask go);
  do! all_set ← lift (py_all a_set_mask);
  (if negb all_set then write_file p ("set_mask" +:+ ext) (put a_set_mask)
   else ret tt);;
  do! a_output_mask ← read_array (output_mask go);
  do! all_out ← lift (py_all a_output_mask);
  (if negb all_out then write_file p ("output_mask" +:+ ext) (put a_output_mask)
   else ret tt);;
  do! a_sample_weights ← read_array (sample_weights go);
  (if any_ne_one a_sample_weights
   then write_file p ("sample_weights" +:+ ext) (put a_sample_weights)
   else ret tt);;
  if bool_decide ((coo_shape (NodeGraph go)).1 ≠ 0 ∧ (coo_shape (NodeGraph go)).2 ≠ 0)
     && bool_decide (1 < shape0 a_targets)
  then
    do! nodegraph ← lift (stack_coo (NodeGraph go));
    write_file p ("NodeGraph" +:+ ext) (put nodegraph)
  else ret tt.

(** [GraphObject.save_graph] and [GraphObject.save], [GraphObject.save_txt]
    and [GraphObject.savetxt]. *)
Definition save_graph : string → loc → M unit := save_with np_save ".npy".

Definition save (self : loc) (graph_folder_path : string) : M unit :=
  save_graph graph_folder_path self.

Definition save_txt (graph_folder_path : string) (g : loc) (fmt : Qc → Qc)
  : M unit :=
  save_with (np_savetxt fmt) ".txt" graph_folder_path g.

Definition savetxt (self : loc) (graph_folder_path : string) (fmt : Qc → Qc)
  : M unit :=
  save_txt graph_folder_path self fmt.

(** A keyword dictionary: the last binding of a key is the one in force. *)
Definition dict_get {A : Type} (k : string) (d : list (string * A)) : option A :=
  foldl (λ acc kv, if decide (kv.1 = k) then Some kv.2 else acc) None d.

Definition init_keywords : list string :=
  ["nodes"; "arcs"; "targets"; "problem_based"; "set_mask"; "output_mask";
   "sample_weights"; "NodeGraph"; "ArcNode"; "aggregation_mode"].

(** [coo_matrix((a[0,:], a[1:,:].astype(int)))] *)
Definition coo_of_stacked (a : ndarray) : result coo :=
  match a with
  | Arr1 _ => Raise (IndexError "too many indices for array")
  | Arr2 _ [] => Raise (IndexError "index 0 is out of bounds for axis 0 with size 0")
  | Arr2 _ [data; row; col] => coo_matrix_infer data (Qc_trunc <$> row) (Qc_trunc <$> col)
  | Arr2 _ _ => Raise (TypeError "invalid input format")
  end.

Definition required {A : Type} (k : string) (d : list (string * A)) : result A :=
  match dict_get k d with
  | Some a => Ok a
  | None => Raise (TypeError "__init__() missing required positional argument")
  end.

(** The body shared by [load] and [load_txt]: [get] is the codec. The two
    string parameters are bound last, so a file of that name is shadowed. *)
Definition load_with (get : file → result ndarray)
    (graph_folder_path problem_based aggregation_mode : string) : M loc :=
  do! p ← lift (folder_path graph_folder_path);
  do! files ← listdir p;
  let keys := (λ i : string * file, before_dot i.1) <$> files in
  do! vals ← lift (foldr (λ i acc, try! v ← get i.2; try! vs ← acc; Ok (v :: vs))
                         (Ok []) files);
  let params := filter (λ kv, kv.1 ≠ "problem_based" ∧ kv.1 ≠ "aggregation_mode")
                       (zip keys vals) in
  do! nodegraph ←
    match dict_get "NodeGraph" params with
    | Some a => do! m ← lift (coo_of_stacked a); ret (Some (MSparse m))
    | None => ret None
    end;
  if negb (forallb (λ kv, bool_decide (kv.1 ∈ init_keywords)) params) then
    raise (TypeError "__init__() got an unexpected keyword argument")
  else
    do! a_nodes ← lift (required "nodes" params);
    do! a_arcs ← lift (required "arcs" params);
    do! a_targets ← lift (required "targets" params);
    GraphObject_init {|
      arg_nodes := a_nodes; arg_arcs := a_arcs; arg_targets := a_targets;
      arg_problem_based := problem_based;
      arg_set_mask := dict_get "set_mask" params;
      arg_output_mask := dict_get "output_mask" params;
      arg_sample_weights :=
        match dict_get "sample_weights" params with
        | Some a => WArray a
        | None => WScalar 1%Qc
        end;
      arg_NodeGraph := nodegraph;
      arg_ArcNode := MDense <$> dict_get "ArcNode" params;
      arg_aggregation_mode := aggregation_mode |}.

(** [GraphObject.load] and [GraphObject.load_txt] *)
Definition load : string → string → string → M loc := load_with np_load.

Definition load_txt : string → string → string → M loc := load_with np_loadtxt.

(* ===================================================================== *)
(** * GraphTensor *)
(* ===================================================================== *)

(** [tf.SparseTensor]: an index per stored value, and a dense shape. *)
Record SparseTensor : Type := mkSparseTensor {
  indices : list (Z * Z);
  values : list Qc;
  dense_shape : nat * nat
}.

(** Row-major order on indices. *)
Definition index_le (a b : Z * Z) : Prop :=
  (a.1 < b.1)%Z ∨ (a.1 = b.1 ∧ (a.2 ≤ b.2)%Z).

Definition entry_le (e f : Z * Z * Qc) : Prop := index_le e.1 f.1.

#[global] Instance index_le_dec : RelDecision index_le.
Proof. intros a b. unfold index_le. apply _. Defined.

#[global] Instance entry_le_dec : RelDecision entry_le.
Proof. intros a b. unfold entry_le. apply _. Defined.

(** The [indices] argument of [tf.SparseTensor]: an array of two columns,
    or a Python list of pairs. The list converts to a tensor of rank 2
    unless it is empty, when the tensor has rank 1. *)
Inductive indices_arg : Type :=
| IArray (rows : list (Z * Z))
| IList (pairs : list (Z * Z)).

Definition tf_indices (idx : indices_arg) : result (list (Z * Z)) :=
  match idx with
  | IArray rows => Ok rows
  | IList [] => Raise (ValueError "Shape (0,) must have rank 2")
  | IList pairs => Ok pairs
  end.

(** [tf.SparseTensor(indices, values, dense_shape)]: indices of rank 2, one
    per value. *)
Definition tf_SparseTensor (idx : indices_arg) (vals : list Qc)
    (shape : nat * nat) : result SparseTensor :=
  try! idx ← tf_indices idx;
  if decide (length idx = length vals) then Ok (mkSparseTensor idx vals shape)
  else Raise (ValueError "Shapes of indices and values are incompatible").

(** [tf.sparse.reorder]: the entries in row-major order of their indices.
    Entries under one index are kept here in the order in which they are
    stored; TensorFlow leaves their order open, and no statement below
    depends on it. *)
Definition tf_sparse_reorder (t : SparseTensor) : SparseTensor :=
  let es := merge_sort entry_le (zip (indices t) (values t)) in
  mkSparseTensor (fst <$> es) (snd <$> es) (dense_shape t).

(** [GraphTensor.COO2SparseTensor]; the final cast keeps the entries. *)
Definition COO2SparseTensor (coo_matrix : coo) : result SparseTensor :=
  let indices :=
    if negb (bool_decide ((coo_shape coo_matrix).1 ≠ 0 ∧ (coo_shape coo_matrix).2 ≠ 0))
    then IArray []
    else IList (zip (coo_row coo_matrix) (coo_col coo_matrix)) in
  try! sparse_tensor ←
    tf_SparseTensor indices (coo_data coo_matrix) (coo_shape coo_matrix);
  let sparse_tensor := tf_sparse_reorder sparse_tensor in
  Ok sparse_tensor.

Record GraphTensor : Type := mkGraphTensor {
  t_DIM_NODE_LABEL : nat;
  t_DIM_ARC_LABEL : Z;
  t_DIM_TARGET : nat;
  t_nodes : ndarray;
  t_arcs : ndarray;
  t_targets : ndarray;
  t_sample_weights : ndarray;
  t_set_mask : ndarray;
  t_output_mask : ndarray;
  t_aggregation_mode : string;
  t_Adjacency : SparseTensor;
  t_ArcNode : SparseTensor;
  t_NodeGraph : SparseTensor
}.

(** [GraphTensor.__init__]: tensors are immutable values. The nodes, arcs
    and targets of a graph are float32 arrays, kept by [tf.constant]; its
    sample weights are float64, and [tf.constant(..., dtype='float32')]
    rounds them. *)
Definition GraphTensor_init (nodes arcs targets set_mask output_mask
    sample_weights : ndarray) (Adjacency ArcNode NodeGraph : SparseTensor)
    (aggregation_mode : string) : result GraphTensor :=
  try! dim_node_label ← shape1 nodes;
  try! arcs_width ← shape1 arcs;
  try! dim_target ← shape1 targets;
  Ok {| t_DIM_NODE_LABEL := dim_node_label;
        t_DIM_ARC_LABEL := (Z.of_nat arcs_width - 2)%Z;
        t_DIM_TARGET := dim_target;
        t_nodes := astype_float nodes;
        t_arcs := astype_float arcs;
        t_targets := astype_float targets;
        t_sample_weights := map_array float32 sample_weights;
        t_set_mask := astype_bool set_mask;
        t_output_mask := astype_bool output_mask;
        t_aggregation_mode := aggregation_mode;
        t_Adjacency := Adjacency;
        t_ArcNode := ArcNode;
        t_NodeGraph := NodeGraph |}.

(** [GraphTensor.fromGraphObject] *)
Definition fromGraphObject (g : loc) : M GraphTensor :=
  do! go ← read_graph g;
  do! a_nodes ← read_array (nodes go);
  do! a_arcs ← read_array (arcs go);
  do! a_targets ← read_array (targets go);
  do! a_set_mask ← read_array (set_mask go);
  do! a_output_mask ← read_array (output_mask go);
  do! a_sample_weights ← read_array (sample_weights go);
  do! nodegraph ← lift (COO2SparseTensor (NodeGraph go));
  do! adjacency ← lift (COO2SparseTensor (Adjacency go));
  do! arcnode ← lift (COO2SparseTensor (ArcNode go));
  lift (GraphTensor_init a_nodes a_arcs a_targets a_set_mask a_output_mask
          a_sample_weights adjacency arcnode nodegraph (aggregation_mode go)).

(* ===================================================================== *)
(** * Vocabulary of the statements *)
(* ===================================================================== *)

(** The destination entries of the arcs, as [buildArcNode] reads them. *)
Definition destinations (arcs : ndarray) : list Qc :=
  match column 1 arcs with
  | Ok col => col
  | Raise _ => []
  end.

(** Every index of the list names one of [n] nodes. *)
Definition indices_below (n : nat) (col : list Qc) : Prop :=
  Forall (λ d, (0 ≤ Qc_trunc d < Z.of_nat n)%Z) col.

(** The entry holds a whole number. *)
Definition integral (d : Qc) : Prop := d = Qc_of_Z (Qc_trunc d).

(** The number of arcs that end in node [j]. *)
Definition in_degree (arcs : ndarray) (j : Z) : nat :=
  length (filter (λ d, Qc_trunc d = j) (destinations arcs)).

(** The incidence weight of an arc with destination entry [d]. *)
Definition arc_weight (mode : string) (col : list Qc) (d : Qc) : Qc :=
  if decide (mode = "normalized") then (1 * (1 / Qc_of_nat (length col)))%Qc
  else if decide (mode = "average") then (1 / Qc_of_nat (occurrences d col))%Qc
  else 1%Qc.

(** The graph of the worked example: three nodes, arcs 0→1, 1→2, 0→2. *)
Definition arcs_example : ndarray :=
  Arr2 3 [[Qc_of_Z 0; Qc_of_Z 1; Qc_of_Z 5];
          [Qc_of_Z 1; Qc_of_Z 2; Qc_of_Z 5];
          [Qc_of_Z 0; Qc_of_Z 2; Qc_of_Z 5]].

Definition nodes_example : ndarray :=
  Arr2 1 [[Qc_of_Z 1]; [Qc_of_Z 2]; [Qc_of_Z 3]].

(** [m] keeps the first [n] cells of any store that has them, and what it
    returns satisfies [Q]. With [n] the size of the store at a call, these
    are the cells that existed before the call. *)
Definition framed {A : Type} (n : nat) (m : M A) (Q : A → Prop) : Prop :=
  ∀ σ, n ≤ length (heap σ) →
    take n (heap (m σ).2) = take n (heap σ)
    ∧ n ≤ length (heap (m σ).2)
    ∧ ∀ a, (m σ).1 = Ok a → Q a.

(** The places of one tuple of [get_data] are all beyond the first [n]. *)
Definition data_fresh (n : nat) (d : graph_data) : Prop :=
  n ≤ d_nodes d ∧ n ≤ d_arcs d ∧ n ≤ d_targets d ∧ n ≤ d_set_mask d
  ∧ n ≤ d_output_mask d ∧ n ≤ d_sample_weights d.

Definition is_matrix (a : ndarray) : Prop :=
  match a with
  | Arr2 _ _ => True
  | Arr1 _ => False
  end.

Definition is_vector (a : ndarray) : Prop :=
  match a with
  | Arr1 _ => True
  | Arr2 _ _ => False
  end.

(** A mask as the constructor stores it: every entry is 0 or 1. *)
Definition is_bool_array (a : ndarray) : Prop := astype_bool a = a.

(** What [GraphObject.__init__] computes, apart from where it stores it:
    the contents of the new graph and its three dimensions, or the
    exception. *)
Definition init_contents (args : init_args) : result (graph_contents * (nat * Z * nat)) :=
  let nodes := astype_float (arg_nodes args) in
  let arcs := astype_float (arg_arcs args) in
  let targets := astype_float (arg_targets args) in
  try! sample_weights ← mul_ones (arg_sample_weights args) (shape0 targets);
  try! dim_node_label ← shape1 (arg_nodes args);
  try! arcs_width ← shape1 (arg_arcs args);
  try! dim_target ← shape1 (arg_targets args);
  try! set_mask ←
    match arg_set_mask args with
    | None =>
        try! n ← lenMask (arg_nodes args) (arg_arcs args) (arg_problem_based args);
        Ok (np_ones n)
    | Some m => Ok (astype_bool m)
    end;
  let output_mask :=
    match arg_output_mask args with
    | None => np_ones (shape0 set_mask)
    | Some m => astype_bool m
    end in
  if negb (bool_decide (shape0 set_mask = shape0 output_mask)) then Raise mask_mismatch
  else if negb (recognized (arg_aggregation_mode args)) then Raise unknown_mode
  else
    try! arcnode ←
      match arg_ArcNode args with
      | None => buildArcNode arcs nodes (arg_aggregation_mode args)
      | Some m => Ok (coo_of_arg m)
      end;
    try! adjacency ← buildAdjacency arcs nodes arcnode;
    let nodegraph :=
      match arg_NodeGraph args with
      | None => buildNodeGraph nodes (arg_problem_based args)
      | Some m => coo_of_arg m
      end in
    Ok (mkContents nodes arcs targets set_mask output_mask sample_weights
          (arg_aggregation_mode args) arcnode adjacency nodegraph,
        (dim_node_label, (Z.of_nat arcs_width - 2)%Z, dim_target)).

(** The cells a successful constructor call adds to a store of size [l0]:
    six arrays and the object that refers to them. *)
Definition init_cells (l0 : nat) (c : graph_contents) (dims : nat * Z * nat) : list cell :=
  [CArray (c_nodes c); CArray (c_arcs c); CArray (c_targets c);
   CArray (c_sample_weights c); CArray (c_set_mask c); CArray (c_output_mask c);
   CGraph {|
     nodes := l0; arcs := l0 + 1; targets := l0 + 2; sample_weights := l0 + 3;
     DIM_NODE_LABEL := dims.1.1; DIM_ARC_LABEL := dims.1.2; DIM_TARGET := dims.2;
     set_mask := l0 + 4; output_mask := l0 + 5;
     aggregation_mode := c_aggregation_mode c;
     ArcNode := c_ArcNode c; Adjacency := c_Adjacency c;
     NodeGraph := c_NodeGraph c |}].

(** The length of the set mask that the constructor will use. *)
Definition set_mask_length (args : init_args) : result nat :=
  match arg_set_mask args with
  | None => lenMask (arg_nodes args) (arg_arcs args) (arg_problem_based args)
  | Some m => Ok (shape0 m)
  end.

(** The rows of a matrix, the elements of a vector. *)
Definition rows_of (a : ndarray) : list (list Qc) :=
  match a with
  | Arr2 _ rows => rows
  | Arr1 _ => []
  end.

Definition elements_of (a : ndarray) : list Qc :=
  match a with
  | Arr1 v => v
  | Arr2 _ _ => []
  end.

(** An arc whose two endpoint entries are whole numbers that name nodes. *)
Definition endpoints_valid (n : nat) (r : list Qc) : Prop :=
  integral (nth 0 r 0%Qc) ∧ integral (nth 1 r 0%Qc)
  ∧ (0 ≤ Qc_trunc (nth 0 r 0%Qc) < Z.of_nat n)%Z
  ∧ (0 ≤ Qc_trunc (nth 1 r 0%Qc) < Z.of_nat n)%Z.

(** A graph as the data model describes it: matrices of nodes, arcs (with
    their two endpoint columns, and at least one arc, as the constructor
    requires) and targets; two boolean mask vectors of one length; one
    sample weight per target row. *)
Record well_formed (G : graph_contents) : Prop := mkWellFormed {
  wf_nodes : is_matrix (c_nodes G);
  wf_arcs : is_matrix (c_arcs G);
  wf_arcs_width : ∃ c, shape1 (c_arcs G) = Ok c ∧ 2 ≤ c;
  wf_arcs_shaped : well_shaped (c_arcs G);
  wf_arcs_nonempty : rows_of (c_arcs G) ≠ [];
  wf_endpoints : Forall (endpoints_valid (shape0 (c_nodes G))) (rows_of (c_arcs G));
  wf_targets : is_matrix (c_targets G);
  wf_set_mask : is_vector (c_set_mask G) ∧ is_bool_array (c_set_mask G);
  wf_output_mask : is_vector (c_output_mask G) ∧ is_bool_array (c_output_mask G);
  wf_masks : shape0 (c_set_mask G) = shape0 (c_output_mask G);
  wf_sample_weights :
    is_vector (c_sample_weights G)
    ∧ shape0 (c_sample_weights G) = shape0 (c_targets G)
}.

(** Two graphs whose label and target widths agree. *)
Definition compatible (G1 G2 : graph_contents) : Prop :=
  shape1 (c_nodes G1) = shape1 (c_nodes G2)
  ∧ shape1 (c_arcs G1) = shape1 (c_arcs G2)
  ∧ shape1 (c_targets G1) = shape1 (c_targets G2).

(** The six copies of one tuple of [get_data], at the end of the store. *)
Definition copies (G : graph_contents) : list cell :=
  [CArray (c_nodes G); CArray (c_arcs G); CArray (c_targets G);
   CArray (c_set_mask G); CArray (c_output_mask G); CArray (c_sample_weights G)].

Definition targets_example : ndarray :=
  Arr2 1 [[Qc_of_Z 1]; [Qc_of_Z 0]; [Qc_of_Z 1]].

Definition ones_example : ndarray := Arr1 [1%Qc; 1%Qc; 1%Qc].

(** The worked example as a node-based graph under 'sum'. *)
Definition graph_example : graph_contents := {|
  c_nodes := nodes_example;
  c_arcs := arcs_example;
  c_targets := targets_example;
  c_set_mask := ones_example;
  c_output_mask := ones_example;
  c_sample_weights := ones_example;
  c_aggregation_mode := "sum";
  c_ArcNode := Coo (3, 3) [0; 1; 2]%Z [1; 2; 2]%Z [1%Qc; 1%Qc; 1%Qc];
  c_Adjacency := Coo (3, 3) [0; 1; 0]%Z [1; 2; 2]%Z [1%Qc; 1%Qc; 1%Qc];
  c_NodeGraph := coo_matrix_empty
|}.

(** A store that holds the example graph twice, at places 6 and 13. *)
Definition store_example : state :=
  mkState (init_cells 0 graph_example (1, 1%Z, 1)
           ++ init_cells 7 graph_example (1, 1%Z, 1)) [].

(** Decidable equality, to compare computed values. *)
#[global] Instance exn_eq_dec : EqDecision exn.
Proof. solve_decision. Defined.

#[global] Instance result_eq_dec {A : Type} `{EqDecision A} : EqDecision (result A).
Proof. solve_decision. Defined.

#[global] Instance ndarray_eq_dec : EqDecision ndarray.
Proof. solve_decision. Defined.

#[global] Instance coo_eq_dec : EqDecision coo.
Proof. solve_decision. Defined.

#[global] Instance graph_contents_eq_dec : EqDecision graph_contents.
Proof. solve_decision. Defined.

(** The three arrays of a stored matrix agree in length, and its column
    indices are within its shape. *)
Definition coo_valid_cols (m : coo) : Prop :=
  length (coo_row m) = length (coo_data m)
  ∧ length (coo_col m) = length (coo_data m)
  ∧ Forall (λ c, (0 ≤ c < Z.of_nat (coo_shape m).2)%Z) (coo_col m).

(** The weight of a node in a sub-graph of [n] nodes: the float32 number
    nearest to [1/n]. *)
Definition pooling_weight (n : nat) : Qc := float32 (1 / Qc_of_nat n)%Qc.

(** [m] pools the nodes of sub-graphs of the given sizes, the nodes being
    numbered one sub-graph after the other: it has one row per node and one
    column per sub-graph, and the entries that column k stores are one for
    each node of sub-graph k, in the row of that node, each the weight
    of a node among those of sub-graph k. *)
Definition pools (m : coo) (sizes : list nat) : Prop :=
  coo_shape m = (sum_list sizes, length sizes)
  ∧ coo_valid_cols m
  ∧ ∀ k n, sizes !! k = Some n →
      col_entries m (Z.of_nat k)
      = (λ i, (Z.of_nat (sum_list (take k sizes) + i), Z.of_nat k, pooling_weight n))
          <$> seq 0 n.

(** An entry of a block, moved to the block's place on the diagonal. *)
Definition shift_entry (r0 c0 : nat) (e : Z * Z * Qc) : Z * Z * Qc :=
  ((e.1.1 + Z.of_nat r0)%Z, (e.1.2 + Z.of_nat c0)%Z, e.2).


(** [t] holds the stored entries of [m]: the pairs of an index and a value
    of [t] are the entries of [m], each as often as [m] stores it, in
    row-major order of the indices, under the shape of [m]. *)
Definition reordered (m : coo) (t : SparseTensor) : Prop :=
  Sorted index_le (indices t)
  ∧ length (indices t) = length (values t)
  ∧ zip (indices t) (values t) ≡ₚ entries m
  ∧ dense_shape t = coo_shape m.

(** A matrix that passed scipy's checks and, unless one of its dimensions
    is zero, stores at least one entry. *)
Definition convertible (m : coo) : Prop :=
  coo_check m = Ok m
  ∧ ((coo_shape m).1 ≠ 0 → (coo_shape m).2 ≠ 0 → coo_data m ≠ []).


(** The contents of the graph that a computation returns, if it does. *)
Definition contents_after (m : M loc) (σ : state) : option graph_contents :=
  match m σ with
  | (Ok l, σ') => contents (heap σ') l
  | (Raise _, _) => None
  end.

(** The example graph with sample weights 2, 3, 4, alone in a store with an
    empty disk. *)
Definition weighted_example : graph_contents := {|
  c_nodes := nodes_example;
  c_arcs := arcs_example;
  c_targets := targets_example;
  c_set_mask := ones_example;
  c_output_mask := ones_example;
  c_sample_weights := Arr1 [Qc_of_Z 2; Qc_of_Z 3; Qc_of_Z 4];
  c_aggregation_mode := "sum";
  c_ArcNode := Coo (3, 3) [0; 1; 2]%Z [1; 2; 2]%Z [1%Qc; 1%Qc; 1%Qc];
  c_Adjacency := Coo (3, 3) [0; 1; 0]%Z [1; 2; 2]%Z [1%Qc; 1%Qc; 1%Qc];
  c_NodeGraph := coo_matrix_empty
|}.

Definition store_weighted : state :=
  mkState (init_cells 0 weighted_example (1, 1%Z, 1)) [].

(** A file that is written only when its array is not the default. *)
Definition optional_file (b : bool) (name : string) (f : file) : directory :=
  if b then [(name, f)] else [].

(** The NodeGraph file is written for a matrix without an empty dimension
    in a graph of more than one target row. *)
Definition nodegraph_saved (G : graph_contents) : bool :=
  bool_decide ((coo_shape (c_NodeGraph G)).1 ≠ 0 ∧ (coo_shape (c_NodeGraph G)).2 ≠ 0)
  && bool_decide (1 < shape0 (c_targets G)).

Definition stacked (m : coo) : ndarray :=
  Arr2 (length (coo_data m)) [coo_data m; Qc_of_Z <$> coo_row m; Qc_of_Z <$> coo_col m].

(** The directory that saving a graph with vector masks and weights
    leaves. *)
Definition saved_directory (put : ndarray → file) (ext : string)
    (G : graph_contents) : directory :=
  [("arcs" +:+ ext, put (c_arcs G)); ("nodes" +:+ ext, put (c_nodes G));
   ("targets" +:+ ext, put (c_targets G))]
  ++ optional_file (negb (forallb truthy (elements_of (c_set_mask G))))
       ("set_mask" +:+ ext) (put (c_set_mask G))
  ++ optional_file (negb (forallb truthy (elements_of (c_output_mask G))))
       ("output_mask" +:+ ext) (put (c_output_mask G))
  ++ optional_file (any_ne_one (c_sample_weights G))
       ("sample_weights" +:+ ext) (put (c_sample_weights G))
  ++ optional_file (nodegraph_saved G)
       ("NodeGraph" +:+ ext) (put (stacked (c_NodeGraph G))).

(** A NodeGraph matrix that can be written and read back: its arrays agree
    in length, its indices are not negative, and it stores an entry. *)
Definition storable (m : coo) : Prop :=
  length (coo_row m) = length (coo_data m)
  ∧ length (coo_col m) = length (coo_data m)
  ∧ Forall (λ r, (0 ≤ r)%Z) (coo_row m)
  ∧ Forall (λ c, (0 ≤ c)%Z) (coo_col m)
  ∧ coo_data m ≠ [].

(** The matrix that [load] rebuilds from a stacked NodeGraph file: the
    stored triplets under the shape inferred from the largest indices. *)
Definition reloaded (m : coo) : coo :=
  Coo (Z.to_nat (max_index (coo_row m) + 1), Z.to_nat (max_index (coo_col m) + 1))
      (coo_row m) (coo_col m) (coo_data m).

(** The constructor arguments that [load] assembles from a saved
    directory. *)
Definition loaded_args (G : graph_contents) (problem_based aggregation_mode : string)
  : init_args := {|
  arg_nodes := c_nodes G; arg_arcs := c_arcs G; arg_targets := c_targets G;
  arg_problem_based := problem_based;
  arg_set_mask :=
    if negb (forallb truthy (elements_of (c_set_mask G)))
    then Some (c_set_mask G) else None;
  arg_output_mask :=
    if negb (forallb truthy (elements_of (c_output_mask G)))
    then Some (c_output_mask G) else None;
  arg_sample_weights :=
    if any_ne_one (c_sample_weights G) then WArray (c_sample_weights G)
    else WScalar 1%Qc;
  arg_NodeGraph :=
    if nodegraph_saved G then Some (MSparse (reloaded (c_NodeGraph G))) else None;
  arg_ArcNode := None;
  arg_aggregation_mode := aggregation_mode |}.

(* ===================================================================== *)
(** * Vocabulary of the further properties *)
(* ===================================================================== *)

(** The source and destination index of an arc, as [buildAdjacency] reads
    them. *)
Definition arc_source (r : list Qc) : Z := Qc_trunc (nth 0 r 0%Qc).

Definition arc_destination (r : list Qc) : Z := Qc_trunc (nth 1 r 0%Qc).

(** The number of arcs from node [s] to node [d]. *)
Definition arcs_between (arcs : ndarray) (s d : Z) : nat :=
  length (filter (λ r, arc_source r = s ∧ arc_destination r = d) (rows_of arcs)).

(** An arc whose two endpoint indices name nodes. *)
Definition endpoints_in_range (n : nat) (r : list Qc) : Prop :=
  (0 ≤ arc_source r < Z.of_nat n)%Z ∧ (0 ≤ arc_destination r < Z.of_nat n)%Z.

(** The same constructor call for another problem type. *)
Definition with_problem_based (pb : string) (args : init_args) : init_args :=
  mkArgs (arg_nodes args) (arg_arcs args) (arg_targets args) pb
         (arg_set_mask args) (arg_output_mask args) (arg_sample_weights args)
         (arg_NodeGraph args) (arg_ArcNode args) (arg_aggregation_mode args).

(** The constructor call that builds the worked example, all defaults. *)
Definition args_example : init_args :=
  mkArgs nodes_example arcs_example targets_example "n"
         None None (WScalar 1%Qc) None None "sum".

(** The mask that the constructor stores for a mask argument, [n] being the
    default length. *)
Definition mask_of (n : nat) (m : option ndarray) : ndarray :=
  match m with
  | None => np_ones n
  | Some m => astype_bool m
  end.

(** Whatever [m] raises satisfies [P]. *)
Definition raises_only {A : Type} (P : exn → Prop) (m : M A) : Prop :=
  ∀ σ e σ', m σ = (Raise e, σ') → P e.

Definition is_AttributeError (e : exn) : Prop := ∃ msg, e = AttributeError msg.

(** A graph as the constructor builds it for the problem type [pb] and the
    aggregation mode [mode] when neither an ArcNode nor a NodeGraph matrix
    is passed and the set mask has the default length. *)
Definition built_for (G : graph_contents) (pb mode : string) : Prop :=
  lenMask (c_nodes G) (c_arcs G) pb = Ok (shape0 (c_set_mask G))
  ∧ c_aggregation_mode G = mode
  ∧ buildArcNode (c_arcs G) (c_nodes G) mode = Ok (c_ArcNode G)
  ∧ buildAdjacency (c_arcs G) (c_nodes G) (c_ArcNode G) = Ok (c_Adjacency G)
  ∧ c_NodeGraph G = buildNodeGraph (c_nodes G) pb.

(** The worked example as a graph-based graph: its three nodes are pooled
    into one sub-graph. *)
Definition pooled_example : graph_contents := {|
  c_nodes := nodes_example;
  c_arcs := arcs_example;
  c_targets := targets_example;
  c_set_mask := ones_example;
  c_output_mask := ones_example;
  c_sample_weights := ones_example;
  c_aggregation_mode := "sum";
  c_ArcNode := Coo (3, 3) [0; 1; 2]%Z [1; 2; 2]%Z [1%Qc; 1%Qc; 1%Qc];
  c_Adjacency := Coo (3, 3) [0; 1; 0]%Z [1; 2; 2]%Z [1%Qc; 1%Qc; 1%Qc];
  c_NodeGraph := buildNodeGraph nodes_example "g"
|}.

Definition store_pooled : state :=
  mkState (init_cells 0 pooled_example (1, 1%Z, 1)) [].

(** The keys under which [load] passes the files of a folder to the
    constructor, and a folder of binary files. *)
Definition stems (files : directory) : list string :=
  (λ i : string * file, before_dot i.1) <$> files.

Definition all_binary (files : directory) : Prop :=
  Forall (λ i : string * file, ∃ a, i.2 = FNpy a) files.

(** The text format writes every entry of the array exactly. *)
Definition fixed_by (fmt : Qc → Qc) (a : ndarray) : Prop := map_array fmt a = a.

(** A matrix that a text file holds as it is: it has a row and a column,
    and every row has the declared width. *)
Definition textable (a : ndarray) : Prop :=
  match a with
  | Arr1 _ => False
  | Arr2 c rows => c ≠ 0 ∧ rows ≠ [] ∧ Forall (λ r, length r = c) rows
  end.

(* ===================================================================== *)
(** * GraphObject.fromGraphTensor and GraphTensor.copy *)
(* ===================================================================== *)

(** [t.numpy()] on a sparse tensor: [tf.SparseTensor] has no such method
    (only dense tensors have it). *)
Definition SparseTensor_numpy (t : SparseTensor) : result ndarray :=
  Raise (AttributeError "'SparseTensor' object has no attribute 'numpy'").

(** [GraphObject.fromGraphTensor]: the dense tensors go back to arrays;
    the NodeGraph tensor is asked for only in a graph-based problem. *)
Definition fromGraphTensor (g : GraphTensor) (problem_based : string) : M loc :=
  do! nodegraph ←
    (if decide (problem_based = "g")
     then do! a ← lift (SparseTensor_numpy (t_NodeGraph g)); ret (Some (MDense a))
     else ret None);
  GraphObject_init {|
    arg_nodes := t_nodes g; arg_arcs := t_arcs g; arg_targets := t_targets g;
    arg_problem_based := problem_based;
    arg_set_mask := Some (t_set_mask g);
    arg_output_mask := Some (t_output_mask g);
    arg_sample_weights := WArray (t_sample_weights g);
    arg_NodeGraph := nodegraph; arg_ArcNode := None;
    arg_aggregation_mode := t_aggregation_mode g |}.

(** [GraphTensor.copy] *)
Definition GraphTensor_copy (self : GraphTensor) : result GraphTensor :=
  GraphTensor_init (t_nodes self) (t_arcs self) (t_targets self)
    (t_set_mask self) (t_output_mask self) (t_sample_weights self)
    (t_Adjacency self) (t_ArcNode self) (t_NodeGraph self)
    (t_aggregation_mode self).

(* ===================================================================== *)
(** * Vocabulary of the merge of any number of graphs *)
(* ===================================================================== *)

(** [a[:, :2] += k] on a matrix, as a total function. *)
Definition shift_array (k : Qc) (a : ndarray) : ndarray :=
  match a with
  | Arr2 c rows => Arr2 c (shift_row k <$> rows)
  | Arr1 v => Arr1 v
  end.




Definition shifted_copies (offset : nat) (G : graph_contents) : list cell :=
  [CArray (c_nodes G); CArray (shift_array (Qc_of_nat offset) (c_arcs G));
   CArray (c_targets G); CArray (c_set_mask G); CArray (c_output_mask G);
   CArray (c_sample_weights G)].







(* ===================================================================== *)
(** * Vocabulary of the statements on merged arcs and rounded weights *)
(* ===================================================================== *)



(** The largest float32 number, and the numbers that a conversion to
    float32 keeps finite. *)
Definition float32_max : Qc := Qc_of_Z ((2 ^ 24 - 1) * 2 ^ 104).

Definition in_float32_range (x : Qc) : Prop :=
  (- float32_max ≤ x ∧ x ≤ float32_max)%Qc.

(** The worked example with the sample weight 2^24 + 1, which is a float64
    number and no float32 number, on its first target. *)
Definition heavy_example : graph_contents := {|
  c_nodes := nodes_example;
  c_arcs := arcs_example;
  c_targets := targets_example;
  c_set_mask := ones_example;
  c_output_mask := ones_example;
  c_sample_weights := Arr1 [Qc_of_Z 16777217; 1%Qc; 1%Qc];
  c_aggregation_mode := "sum";
  c_ArcNode := Coo (3, 3) [0; 1; 2]%Z [1; 2; 2]%Z [1%Qc; 1%Qc; 1%Qc];
  c_Adjacency := Coo (3, 3) [0; 1; 0]%Z [1; 2; 2]%Z [1%Qc; 1%Qc; 1%Qc];
  c_NodeGraph := coo_matrix_empty
|}.

(** A store that holds that graph at place 6 and the worked example at
    place 13. *)
Definition store_heavy : state :=
  mkState (init_cells 0 heavy_example (1, 1%Z, 1)
           ++ init_cells 7 graph_example (1, 1%Z, 1)) [].

(** The worked example as a graph-based graph with one target for the
    graph, and with the NodeGraph matrix as the code stores it, in
    float32. *)
Definition pooled_float32_example : graph_contents := {|
  c_nodes := nodes_example;
  c_arcs := arcs_example;
  c_targets := Arr2 1 [[Qc_of_Z 1]];
  c_set_mask := ones_example;
  c_output_mask := ones_example;
  c_sample_weights := Arr1 [1%Qc];
  c_aggregation_mode := "sum";
  c_ArcNode := Coo (3, 3) [0; 1; 2]%Z [1; 2; 2]%Z [1%Qc; 1%Qc; 1%Qc];
  c_Adjacency := Coo (3, 3) [0; 1; 0]%Z [1; 2; 2]%Z [1%Qc; 1%Qc; 1%Qc];
  c_NodeGraph := buildNodeGraph_float32 nodes_example "g"
|}.

(** A store that holds that graph twice, at places 6 and 13. *)
Definition store_pooled_float32 : state :=
  mkState (init_cells 0 pooled_float32_example (1, 1%Z, 1)
           ++ init_cells 7 pooled_float32_example (1, 1%Z, 1)) [].

(* ===================================================================== *)
(** * Floating-point numbers: the rounding *)
(* ===================================================================== *)

Section rounding.
Local Open Scope Z_scope.
Local Open Scope Q_scope.

Lemma pow2_pos (k : Z) : 0 < 2 ^ k.
Proof. by apply Qpower_0_lt. Qed.

Lemma pow2_add (a b : Z) : 2 ^ (a + b) == 2 ^ a * 2 ^ b.
Proof. by apply Qpower_plus. Qed.

Lemma pow2_succ (a : Z) : 2 ^ (a + 1) == 2 * 2 ^ a.
Proof. rewrite pow2_add. change (2 ^ 1) with (2 * 1). ring. Qed.

Lemma pow2_le (a b : Z) : (a ≤ b)%Z → 2 ^ a <= 2 ^ b.
Proof. intros. by apply Qpower_le_compat_l. Qed.

Lemma pow2_Z (k : Z) : (0 ≤ k)%Z → inject_Z (2 ^ k) == 2 ^ k.
Proof. intros. by rewrite Zpower_Qpower. Qed.

Lemma ilog2_spec (x : Q) : 0 < x → 2 ^ ilog2 x <= x ∧ x < 2 ^ (ilog2 x + 1).
Proof.
  intros Hx. destruct x as [n d]. unfold ilog2. cbn [Qnum Qden].
  assert (0 < n)%Z as Hn by (unfold Qlt in Hx; cbn in Hx; lia).
  set (a := Z.log2 n). set (b := Z.log2 (Z.pos d)).
  destruct (Z.log2_spec n Hn) as [Ha1 Ha2]. fold a in Ha1, Ha2.
  destruct (Z.log2_spec (Z.pos d) eq_refl) as [Hb1 Hb2]. fold b in Hb1, Hb2.
  assert (0 ≤ a)%Z as Ha0 by apply Z.log2_nonneg.
  assert (0 ≤ b)%Z as Hb0 by apply Z.log2_nonneg.
  assert ((n # d) * inject_Z (Z.pos d) == inject_Z n) as Hnd.
  { unfold Qeq, Qmult, inject_Z. cbn. lia. }
  assert (0 < inject_Z (Z.pos d)) as Hd by (unfold Qlt; cbn; lia).
  assert (2 ^ a <= inject_Z n) as Qa1 by (rewrite <- pow2_Z by done; by rewrite <- Zle_Qle).
  assert (inject_Z n < 2 ^ (a + 1)) as Qa2.
  { rewrite <- pow2_Z by lia. rewrite <- Zlt_Qlt. by rewrite <- Z.add_1_r in Ha2. }
  assert (2 ^ b <= inject_Z (Z.pos d)) as Qb1 by (rewrite <- pow2_Z by done; by rewrite <- Zle_Qle).
  assert (inject_Z (Z.pos d) < 2 ^ (b + 1)) as Qb2.
  { rewrite <- pow2_Z by lia. rewrite <- Zlt_Qlt. by rewrite <- Z.add_1_r in Hb2. }
  pose proof (pow2_pos (a - b)) as P0. pose proof (pow2_pos b) as Pb.
  assert (2 ^ a == 2 ^ (a - b) * 2 ^ b) as Eab.
  { rewrite <- pow2_add. by replace (a - b + b)%Z with a by lia. }
  rewrite pow2_succ in Qa2, Qb2.
  assert (n # d < 2 ^ (a - b + 1)) as Hup.
  { rewrite pow2_succ. apply Qnot_le_lt. intros Hle.
    assert (2 * 2 ^ (a - b) * inject_Z (Z.pos d) <= (n # d) * inject_Z (Z.pos d))
      by (apply Qmult_le_compat_r; [done|lra]).
    assert (2 ^ (a - b) * 2 ^ b <= 2 ^ (a - b) * inject_Z (Z.pos d))
      by (apply Qmult_le_l; done).
    lra. }
  assert (2 ^ (a - b - 1) < n # d) as Hlow.
  { assert (2 ^ (a - b) == 2 * 2 ^ (a - b - 1)) as E1.
    { rewrite <- pow2_succ. by replace (a - b - 1 + 1)%Z with (a - b)%Z by lia. }
    apply Qnot_le_lt. intros Hle.
    assert ((n # d) * inject_Z (Z.pos d) <= 2 ^ (a - b - 1) * inject_Z (Z.pos d))
      by (apply Qmult_le_compat_r; [done|lra]).
    pose proof (pow2_pos (a - b - 1)).
    assert (2 ^ (a - b - 1) * inject_Z (Z.pos d) < 2 ^ (a - b - 1) * (2 * 2 ^ b))
      by (apply Qmult_lt_l; done).
    rewrite E1 in Eab. lra. }
  destruct (Qle_bool (2 ^ (a - b)) (n # d)) eqn:Hc.
  - apply Qle_bool_iff in Hc. done.
  - split; [by apply Qlt_le_weak|].
    replace (a - b - 1 + 1)%Z with (a - b)%Z by lia.
    apply Qnot_le_lt. intros Hle. apply Qle_bool_iff in Hle. congruence.
Qed.

Lemma ilog2_unique (x : Q) (e : Z) :
  2 ^ e <= x → x < 2 ^ (e + 1) → ilog2 x = e.
Proof.
  intros H1 H2.
  assert (0 < x) as Hx by (pose proof (pow2_pos e); lra).
  destruct (ilog2_spec x Hx) as [S1 S2].
  destruct (Z.lt_trichotomy (ilog2 x) e) as [Hlt|[->|Hgt]]; [|done|].
  - pose proof (pow2_le (ilog2 x + 1) e ltac:(lia)). lra.
  - pose proof (pow2_le (e + 1) (ilog2 x) ltac:(lia)). lra.
Qed.

Lemma ilog2_comp (x y : Q) : x == y → 0 < x → ilog2 x = ilog2 y.
Proof.
  intros E Hx. destruct (ilog2_spec x Hx) as [S1 S2]. symmetry.
  apply ilog2_unique; by rewrite <- E.
Qed.

Lemma rne_cases (x : Q) :
  let f := Qfloor x in
  (rne x = f ∧ x - inject_Z f <= 1 # 2)
  ∨ (rne x = (f + 1)%Z ∧ 1 # 2 <= x - inject_Z f).
Proof.
  intros f. unfold rne. fold f.
  destruct (Qcompare (x - inject_Z f) (1 # 2)) eqn:Hc.
  - apply Qeq_alt in Hc. destruct (Z.even f); [left|right]; split; try done; lra.
  - apply Qlt_alt in Hc. left. split; [done|lra].
  - apply Qgt_alt in Hc. right. split; [done|lra].
Qed.

Lemma rne_comp (x y : Q) : x == y → rne x = rne y.
Proof.
  intros E. unfold rne. rewrite (Qfloor_comp x y E).
  assert (x - inject_Z (Qfloor y) == y - inject_Z (Qfloor y)) as E' by (by rewrite E).
  by rewrite (Qcompare_comp _ _ E' _ _ (Qeq_refl (1 # 2))).
Qed.

Lemma floor_bounds (x : Q) :
  inject_Z (Qfloor x) <= x ∧ x < inject_Z (Qfloor x) + 1.
Proof.
  split; [apply Qfloor_le|]. pose proof (Qlt_floor x) as H.
  rewrite inject_Z_plus in H. exact H.
Qed.

Lemma rne_Z (z : Z) : rne (inject_Z z) = z.
Proof.
  unfold rne. rewrite Qfloor_Z.
  assert (inject_Z z - inject_Z z == 0) as E by ring.
  by rewrite (Qcompare_comp _ _ E _ _ (Qeq_refl (1 # 2))).
Qed.

Lemma rne_ge (x : Q) (a : Z) : inject_Z a <= x → (a ≤ rne x)%Z.
Proof.
  intros H. apply Qfloor_resp_le in H. rewrite Qfloor_Z in H.
  destruct (rne_cases x) as [[-> _]|[-> _]]; lia.
Qed.

Lemma rne_le (x : Q) (b : Z) : x <= inject_Z b → (rne x ≤ b)%Z.
Proof.
  intros H. pose proof (Qfloor_resp_le _ _ H) as Hf. rewrite Qfloor_Z in Hf.
  destruct (rne_cases x) as [[-> _]|[-> Hr]]; [done|].
  destruct (decide (Qfloor x = b)) as [E|]; [|lia].
  rewrite E in Hr. lra.
Qed.

Lemma rne_err (x : Q) : Qabs (inject_Z (rne x) - x) <= 1 # 2.
Proof.
  destruct (floor_bounds x) as [F1 F2].
  apply Qabs_Qle_condition.
  destruct (rne_cases x) as [[-> Hr]|[-> Hr]]; rewrite ?inject_Z_plus;
    change (inject_Z 1) with 1; split; lra.
Qed.

Lemma round_Q_0 (p emin : Z) (x : Q) : x == 0 → round_Q p emin x = 0.
Proof. intros E. unfold round_Q. apply Qeq_bool_iff in E. by rewrite E. Qed.

Lemma round_Q_ne_0 (p emin : Z) (x : Q) :
  ¬ x == 0 →
  round_Q p emin x
  = inject_Z (rne (x / 2 ^ Z.max (ilog2 (Qabs x) - p + 1) emin))
    * 2 ^ Z.max (ilog2 (Qabs x) - p + 1) emin.
Proof.
  intros E. unfold round_Q.
  destruct (Qeq_bool x 0) eqn:Hb; [|done]. by apply Qeq_bool_iff in Hb.
Qed.

Lemma Qabs_pos_lt (x : Q) : ¬ x == 0 → 0 < Qabs x.
Proof.
  intros E. pose proof (Qabs_nonneg x). apply Qnot_le_lt. intros H'.
  apply E. apply Qabs_Qle_condition in H'. lra.
Qed.

Lemma round_Q_comp (p emin : Z) (x y : Q) : x == y → round_Q p emin x == round_Q p emin y.
Proof.
  intros E. destruct (Qeq_dec x 0) as [E0|E0].
  - rewrite !round_Q_0; [done| by rewrite <- E|done].
  - rewrite !round_Q_ne_0; [|by rewrite <- E|done].
    assert (ilog2 (Qabs x) = ilog2 (Qabs y)) as ->.
    { apply ilog2_comp; [by rewrite E|by apply Qabs_pos_lt]. }
    set (q := Z.max _ _).
    assert (x / 2 ^ q == y / 2 ^ q) as E' by (by rewrite E).
    by rewrite (rne_comp _ _ E').
Qed.

Lemma Qabs_inject_Z (m : Z) : Qabs (inject_Z m) == inject_Z (Z.abs m).
Proof. symmetry. apply (Zabs_Qabs m 1). Qed.

Lemma ilog2_scaled (m k : Z) :
  m ≠ 0%Z → ilog2 (Qabs (inject_Z m * 2 ^ k)) = (Z.log2 (Z.abs m) + k)%Z.
Proof.
  intros Hm. pose proof (pow2_pos k) as Pk.
  assert (Qabs (inject_Z m * 2 ^ k) == inject_Z (Z.abs m) * 2 ^ k) as E.
  { rewrite Qabs_Qmult, (Qabs_pos (2 ^ k)) by lra. by rewrite Qabs_inject_Z. }
  assert (0 < Z.abs m)%Z as Hpos by lia.
  destruct (Z.log2_spec _ Hpos) as [L1 L2].
  pose proof (Z.log2_nonneg (Z.abs m)) as L0.
  apply ilog2_unique; rewrite E.
  - rewrite pow2_add. apply Qmult_le_compat_r; [|lra].
    rewrite <- pow2_Z by done. by rewrite <- Zle_Qle.
  - replace (Z.log2 (Z.abs m) + k + 1)%Z with (Z.log2 (Z.abs m) + 1 + k)%Z by lia.
    rewrite pow2_add. apply Qmult_lt_compat_r; [done|].
    rewrite <- pow2_Z by lia. rewrite <- Zlt_Qlt. by rewrite <- Z.add_1_r in L2.
Qed.

Lemma round_Q_fixed (p emin : Z) (x : Q) :
  representable p emin x → round_Q p emin x == x.
Proof.
  intros (m & k & E & Hm & Hk).
  destruct (decide (m = 0%Z)) as [->|Hm0].
  { rewrite round_Q_0; rewrite E; ring. }
  rewrite (round_Q_comp _ _ _ _ E).
  pose proof (pow2_pos k) as Pk.
  assert (¬ inject_Z m * 2 ^ k == 0) as Hne.
  { intros H0. apply Qmult_integral in H0 as [H0|H0]; [|lra].
    apply Hm0. rewrite <- (Qfloor_Z m), <- (Qfloor_Z 0). by apply Qfloor_comp. }
  rewrite round_Q_ne_0 by done. rewrite ilog2_scaled by done.
  set (q := Z.max _ _).
  assert (Z.log2 (Z.abs m) < p)%Z as HL.
  { apply Z.log2_lt_pow2; lia. }
  assert (q ≤ k)%Z as Hq by lia.
  assert (2 ^ k == 2 ^ (k - q) * 2 ^ q) as Ek.
  { rewrite <- pow2_add. by replace (k - q + q)%Z with k by lia. }
  pose proof (pow2_pos q) as Pq.
  assert (inject_Z m * 2 ^ k / 2 ^ q == inject_Z (m * 2 ^ (k - q))) as Ediv.
  { rewrite inject_Z_mult, pow2_Z by lia. rewrite Ek. field. lra. }
  rewrite (rne_comp _ _ Ediv), rne_Z.
  rewrite E, inject_Z_mult, pow2_Z by lia. rewrite Ek. ring.
Qed.

Lemma scaled_bound (p emin : Z) (x : Q) :
  (0 < p)%Z → ¬ x == 0 →
  let q := Z.max (ilog2 (Qabs x) - p + 1) emin in
  Qabs (x / 2 ^ q) < 2 ^ p.
Proof.
  intros Hp Hx q. pose proof (pow2_pos q) as Pq.
  destruct (ilog2_spec (Qabs x) (Qabs_pos_lt x Hx)) as [S1 S2].
  assert (Qabs (x / 2 ^ q) == Qabs x / 2 ^ q) as ->.
  { unfold Qdiv. rewrite Qabs_Qmult. rewrite (Qabs_pos (/ 2 ^ q)); [done|].
    apply Qlt_le_weak, Qinv_lt_0_compat. done. }
  apply Qlt_shift_div_r; [done|]. rewrite <- pow2_add.
  eapply Qlt_le_trans; [exact S2|]. apply pow2_le. lia.
Qed.

Lemma round_Q_representable (p emin : Z) (x : Q) :
  (0 < p)%Z → representable p emin (round_Q p emin x).
Proof.
  intros Hp. destruct (Qeq_dec x 0) as [E0|E0].
  { rewrite round_Q_0 by done. exists 0%Z, emin. split; [ring|]. split; [|done].
    cbn. by apply Z.pow_pos_nonneg; lia. }
  rewrite round_Q_ne_0 by done. set (q := Z.max _ _).
  pose proof (scaled_bound p emin x Hp E0) as Hb. fold q in Hb.
  apply Qabs_Qlt_condition in Hb as [Hb1 Hb2].
  rewrite <- (pow2_Z p) in Hb1, Hb2 by lia.
  assert (- 2 ^ p ≤ rne (x / 2 ^ q))%Z as M1.
  { apply rne_ge. rewrite inject_Z_opp. lra. }
  assert (rne (x / 2 ^ q) ≤ 2 ^ p)%Z as M2 by (apply rne_le; lra).
  set (m := rne (x / 2 ^ q)) in *.
  assert (0 < 2 ^ (p - 1))%Z as Hpp by (apply Z.pow_pos_nonneg; lia).
  assert (2 ^ p = 2 * 2 ^ (p - 1))%Z as Epp.
  { rewrite <- Z.pow_succ_r by lia. f_equal. lia. }
  destruct (decide (Z.abs m < 2 ^ p)%Z) as [Hlt|Hge].
  - exists m, q. split; [done|]. split; [done|lia].
  - assert (∃ h, m = 2 * h ∧ Z.abs h = 2 ^ (p - 1))%Z as (h & -> & Hh).
    { destruct (decide (m = 2 ^ p)%Z) as [->|].
      - exists (2 ^ (p - 1))%Z. lia.
      - exists (- 2 ^ (p - 1))%Z. lia. }
    exists h, (q + 1)%Z. split; [|split; [|lia]].
    + rewrite pow2_succ, inject_Z_mult. change (inject_Z 2) with 2. ring.
    + lia.
Qed.

Lemma round_Q_idemp (p emin : Z) (x : Q) :
  (0 < p)%Z → round_Q p emin (round_Q p emin x) == round_Q p emin x.
Proof. intros Hp. by apply round_Q_fixed, round_Q_representable. Qed.

Lemma Qabs_div_pow2 (x : Q) (q : Z) : Qabs (x / 2 ^ q) == Qabs x / 2 ^ q.
Proof.
  pose proof (pow2_pos q) as Pq.
  unfold Qdiv. rewrite Qabs_Qmult. rewrite (Qabs_pos (/ 2 ^ q)); [done|].
  by apply Qlt_le_weak, Qinv_lt_0_compat.
Qed.

(** A number of at least the least positive one of the format is not
    rounded to zero. *)
Lemma round_Q_nonzero (p emin : Z) (x : Q) :
  (0 < p)%Z → 2 ^ emin <= Qabs x → ¬ round_Q p emin x == 0.
Proof.
  intros Hp Hx. pose proof (pow2_pos emin) as Pe.
  assert (¬ x == 0) as Hne.
  { intros E. rewrite E in Hx. change (Qabs 0) with 0 in Hx. lra. }
  rewrite round_Q_ne_0 by done. set (q := Z.max _ _).
  pose proof (pow2_pos q) as Pq.
  destruct (ilog2_spec (Qabs x) (Qabs_pos_lt x Hne)) as [S1 _].
  assert (2 ^ q <= Qabs x) as Hq.
  { destruct (Z.max_spec (ilog2 (Qabs x) - p + 1) emin) as [[_ E]|[_ E]];
      fold q in E; rewrite E; [done|].
    eapply Qle_trans; [|exact S1]. apply pow2_le. lia. }
  assert (1 <= Qabs (x / 2 ^ q)) as H1.
  { rewrite Qabs_div_pow2. apply Qle_shift_div_l; [done|lra]. }
  assert (rne (x / 2 ^ q) ≠ 0%Z) as Hm.
  { destruct (Qlt_le_dec (x / 2 ^ q) 0) as [Hneg|Hpos].
    - rewrite Qabs_neg in H1 by lra.
      assert (rne (x / 2 ^ q) ≤ -1)%Z; [|lia].
      apply rne_le. change (inject_Z (-1)) with (-1). lra.
    - rewrite Qabs_pos in H1 by done.
      assert (1 ≤ rne (x / 2 ^ q))%Z; [|lia].
      apply rne_ge. by change (inject_Z 1) with 1. }
  intros E. apply Qmult_integral in E as [E|E]; [|lra].
  apply Hm. rewrite <- (Qfloor_Z (rne _)), <- (Qfloor_Z 0). by apply Qfloor_comp.
Qed.

(** Within the range of normal numbers the relative error of rounding is
    at most [2^-p]. *)
Lemma round_Q_error (p emin : Z) (x : Q) :
  (0 < p)%Z → 2 ^ (emin + p - 1) <= Qabs x →
  Qabs (round_Q p emin x - x) <= 2 ^ (- p) * Qabs x.
Proof.
  intros Hp Hx. pose proof (pow2_pos (emin + p - 1)) as Pe.
  assert (¬ x == 0) as Hne.
  { intros E. rewrite E in Hx. change (Qabs 0) with 0 in Hx. lra. }
  rewrite round_Q_ne_0 by done.
  destruct (ilog2_spec (Qabs x) (Qabs_pos_lt x Hne)) as [S1 S2].
  set (e := ilog2 (Qabs x)) in *.
  assert (emin + p - 1 ≤ e)%Z as He.
  { destruct (decide (emin + p - 1 ≤ e)%Z); [done|].
    pose proof (pow2_le (e + 1) (emin + p - 1) ltac:(lia)). lra. }
  rewrite Z.max_l by lia. set (q := (e - p + 1)%Z).
  pose proof (pow2_pos q) as Pq.
  pose proof (rne_err (x / 2 ^ q)) as Herr.
  assert (inject_Z (rne (x / 2 ^ q)) * 2 ^ q - x
          == (inject_Z (rne (x / 2 ^ q)) - x / 2 ^ q) * 2 ^ q) as ->.
  { field. lra. }
  rewrite Qabs_Qmult, (Qabs_pos (2 ^ q)) by lra.
  assert (2 ^ q == 2 * (2 ^ (- p) * 2 ^ e)) as Eq.
  { rewrite <- pow2_add, <- pow2_succ. by replace (- p + e + 1)%Z with q by lia. }
  pose proof (pow2_pos (- p)) as Pp.
  assert (2 ^ (- p) * 2 ^ e <= 2 ^ (- p) * Qabs x) by (by apply Qmult_le_l).
  assert (Qabs (inject_Z (rne (x / 2 ^ q)) - x / 2 ^ q) * 2 ^ q <= (1 # 2) * 2 ^ q)
    by (apply Qmult_le_compat_r; [done|lra]).
  lra.
Qed.

End rounding.

Lemma round_to_idemp (p emin : Z) (x : Qc) :
  (0 < p)%Z → round_to p emin (round_to p emin x) = round_to p emin x.
Proof.
  intros Hp. unfold round_to. apply Q2Qc_eq_iff. cbn [this Q2Qc].
  rewrite (round_Q_comp _ _ (Qred (round_Q p emin x)) (round_Q p emin x))
    by apply Qred_correct.
  by apply round_Q_idemp.
Qed.

Lemma round_to_fixed (p emin : Z) (x : Qc) :
  representable p emin x → round_to p emin x = x.
Proof.
  intros H. unfold round_to. apply Qc_is_canon. cbn [this Q2Qc].
  rewrite Qred_correct. by apply round_Q_fixed.
Qed.

Lemma representable_Z (p emin z : Z) :
  (0 < p)%Z → (emin ≤ 0)%Z → (Z.abs z ≤ 2 ^ p)%Z →
  representable p emin (Qc_of_Z z).
Proof.
  intros Hp He Hz.
  assert (this (Qc_of_Z z) == inject_Z z)%Q as E by reflexivity.
  assert (2 ^ p = 2 * 2 ^ (p - 1))%Z as Epp.
  { rewrite <- Z.pow_succ_r by lia. f_equal. lia. }
  assert (0 < 2 ^ (p - 1))%Z as Hpp by (apply Z.pow_pos_nonneg; lia).
  destruct (decide (Z.abs z < 2 ^ p)%Z) as [Hlt|Hge].
  - exists z, 0%Z. split; [|done]. rewrite E. change (2 ^ 0)%Q with 1%Q. ring.
  - assert (∃ h, z = 2 * h ∧ Z.abs h = 2 ^ (p - 1))%Z as (h & -> & Hh).
    { destruct (decide (z = 2 ^ p)%Z) as [->|].
      - exists (2 ^ (p - 1))%Z. lia.
      - exists (- 2 ^ (p - 1))%Z. lia. }
    exists h, 1%Z. split; [|split; lia]. rewrite E, inject_Z_mult.
    change (2 ^ 1)%Q with 2%Q. change (inject_Z 2) with 2%Q. ring.
Qed.

Lemma float32_nat (n : nat) :
  (Z.of_nat n ≤ 2 ^ 24)%Z → float32 (Qc_of_nat n) = Qc_of_nat n.
Proof.
  intros Hn. apply round_to_fixed, representable_Z; [done|done|lia].
Qed.

Lemma float64_nat (n : nat) :
  (Z.of_nat n ≤ 2 ^ 53)%Z → float64 (Qc_of_nat n) = Qc_of_nat n.
Proof.
  intros Hn. apply round_to_fixed, representable_Z; [done|done|lia].
Qed.

Lemma float32_idemp (x : Qc) : float32 (float32 x) = float32 x.
Proof. by apply round_to_idemp. Qed.

Lemma float64_idemp (x : Qc) : float64 (float64 x) = float64 x.
Proof. by apply round_to_idemp. Qed.

Lemma this_inv_nat (n : nat) :
  n ≠ 0%nat → (this (1 / Qc_of_nat n) == 1 / inject_Z (Z.of_nat n))%Q.
Proof.
  intros Hn. unfold Qcdiv, Qcinv, Qcmult, Qc_of_nat, Qc_of_Z, Q2Qc. cbn [this].
  rewrite !Qred_correct. reflexivity.
Qed.

(** One over a count is of the normal range of both formats, whatever the
    length of an array can be. *)
Lemma inv_nat_range (n : nat) :
  n ≠ 0%nat → (Z.of_nat n ≤ 2 ^ 63)%Z →
  (2 ^ (-63) <= 1 / inject_Z (Z.of_nat n) ∧ 1 / inject_Z (Z.of_nat n) <= 1)%Q.
Proof.
  intros Hn Hb.
  assert (1 <= inject_Z (Z.of_nat n))%Q as H1.
  { change 1%Q with (inject_Z 1). rewrite <- Zle_Qle. lia. }
  assert (inject_Z (Z.of_nat n) <= 2 ^ 63)%Q as H2.
  { rewrite <- pow2_Z by done. by rewrite <- Zle_Qle. }
  split.
  - apply Qle_shift_div_l; [lra|].
    assert (2 ^ (-63) * 2 ^ 63 == 1)%Q as E by reflexivity.
    pose proof (pow2_pos (-63)).
    assert (2 ^ (-63) * inject_Z (Z.of_nat n) <= 2 ^ (-63) * 2 ^ 63)%Q
      by (by apply Qmult_le_l).
    lra.
  - apply Qle_shift_div_r; lra.
Qed.

(** The float32 image of a float64 number is within [2^-23] of the number
    rounded, relatively, in the range of the weights. *)
Lemma double_rounding_error (x : Q) :
  (2 ^ (-63) <= x)%Q → (x <= 1)%Q →
  (Qabs (round_Q 24 (-149) (round_Q 53 (-1074) x) - x) <= 2 ^ (-23) * x)%Q.
Proof.
  intros H1 H2.
  assert (0 < 2 ^ (-63))%Q as P63 by reflexivity.
  assert (Qabs x == x)%Q as Ex by (apply Qabs_pos; lra).
  pose proof (round_Q_error 53 (-1074) x eq_refl) as E64.
  rewrite Ex in E64.
  assert (2 ^ (-1074 + 53 - 1) <= 2 ^ (-63))%Q as R1 by (by apply pow2_le).
  specialize (E64 ltac:(lra)).
  set (z := round_Q 53 (-1074) x) in *.
  apply Qabs_Qle_condition in E64 as [E64a E64b].
  assert (2 ^ (-53) == 1 # 9007199254740992)%Q as C53 by reflexivity.
  assert (2 ^ (-24) == 1 # 16777216)%Q as C24 by reflexivity.
  assert (2 ^ (-23) == 1 # 8388608)%Q as C23 by reflexivity.
  assert (2 ^ (-63) == 1 # 9223372036854775808)%Q as C63 by reflexivity.
  assert (2 ^ (-149 + 24 - 1) <= 2 ^ (-64))%Q as R2 by (by apply pow2_le).
  assert (2 ^ (-64) == 1 # 18446744073709551616)%Q as C64 by reflexivity.
  rewrite C53 in E64a, E64b.
  assert (0 < z)%Q as Hz by lra.
  assert (Qabs z == z)%Q as Ez by (apply Qabs_pos; lra).
  pose proof (round_Q_error 24 (-149) z eq_refl) as E32.
  rewrite Ez in E32. specialize (E32 ltac:(lra)).
  apply Qabs_Qle_condition in E32 as [E32a E32b].
  rewrite C24 in E32a, E32b. rewrite C23.
  apply Qabs_Qle_condition. split; lra.
Qed.

Lemma this_round_to (p emin : Z) (x : Qc) (y : Q) :
  (this x == y)%Q → (this (round_to p emin x) == round_Q p emin y)%Q.
Proof.
  intros E. unfold round_to, Q2Qc. cbn [this]. rewrite Qred_correct.
  by apply round_Q_comp.
Qed.

Lemma this_Qcmult (x y : Qc) : (this (x * y)%Qc == this x * this y)%Q.
Proof. unfold Qcmult, Q2Qc. cbn [this]. apply Qred_correct. Qed.

Lemma this_Q2Qc (q : Q) : (this (Q2Qc q) == q)%Q.
Proof. unfold Q2Qc. cbn [this]. apply Qred_correct. Qed.

(** The weight that is stored for the quotient 1/n computed in float64: it
    is within [2^-23] of 1/n, relatively. *)
Lemma stored_quotient_close (n : nat) :
  n ≠ 0 → (Z.of_nat n ≤ 2 ^ 63)%Z →
  ((1 / Qc_of_nat n) * Q2Qc (8388607 # 8388608) ≤ float32 (float64 (1 / Qc_of_nat n))
   ∧ float32 (float64 (1 / Qc_of_nat n)) ≤ (1 / Qc_of_nat n) * Q2Qc (8388609 # 8388608))%Qc.
Proof.
  intros Hn Hb. destruct (inv_nat_range n Hn Hb) as [R1 R2].
  pose proof (double_rounding_error _ R1 R2) as He.
  apply Qabs_Qle_condition in He.
  assert (2 ^ (-23) == 1 # 8388608)%Q as C23 by reflexivity. rewrite C23 in He.
  assert (this (float32 (float64 (1 / Qc_of_nat n)))
          == round_Q 24 (-149) (round_Q 53 (-1074) (1 / inject_Z (Z.of_nat n))))%Q as Ew.
  { apply this_round_to, this_round_to, this_inv_nat. done. }
  unfold Qcle. rewrite !this_Qcmult, !this_Q2Qc, Ew, (this_inv_nat n Hn).
  split; lra.
Qed.

(** The float32 number nearest to 1/n: it is not zero, and within [2^-24]
    of 1/n, relatively. *)
Lemma float32_quotient_close (n : nat) :
  n ≠ 0 → (Z.of_nat n ≤ 2 ^ 63)%Z →
  float32 (1 / Qc_of_nat n) ≠ 0%Qc
  ∧ ((1 / Qc_of_nat n) * Q2Qc (16777215 # 16777216) ≤ float32 (1 / Qc_of_nat n)
     ∧ float32 (1 / Qc_of_nat n) ≤ (1 / Qc_of_nat n) * Q2Qc (16777217 # 16777216))%Qc.
Proof.
  intros Hn Hb. destruct (inv_nat_range n Hn Hb) as [R1 R2].
  set (x := (1 / inject_Z (Z.of_nat n))%Q) in *.
  assert (0 < 2 ^ (-63))%Q as P63 by reflexivity.
  assert (Qabs x == x)%Q as Ex by (apply Qabs_pos; lra).
  assert (this (float32 (1 / Qc_of_nat n)) == round_Q 24 (-149) x)%Q as Ew.
  { apply this_round_to, this_inv_nat. done. }
  split.
  - intros E0. apply (round_Q_nonzero 24 (-149) x eq_refl).
    + rewrite Ex. eapply Qle_trans; [|exact R1]. by apply pow2_le.
    + rewrite <- Ew, E0. reflexivity.
  - pose proof (round_Q_error 24 (-149) x eq_refl) as He. rewrite Ex in He.
    assert (2 ^ (-149 + 24 - 1) <= 2 ^ (-63))%Q as R3 by (by apply pow2_le).
    specialize (He ltac:(lra)). apply Qabs_Qle_condition in He.
    assert (2 ^ (-24) == 1 # 16777216)%Q as C24 by reflexivity. rewrite C24 in He.
    unfold Qcle. rewrite !this_Qcmult, !this_Q2Qc, Ew, (this_inv_nat n Hn).
    fold x. split; lra.
Qed.

(* ===================================================================== *)
(** * Rational arithmetic *)
(* ===================================================================== *)

Lemma Qc_of_nat_S (n : nat) : Qc_of_nat (S n) = (1 + Qc_of_nat n)%Qc.
Proof.
  unfold Qc_of_nat. rewrite Nat2Z.inj_succ, <- Z.add_1_l, Z2Qc_inj_add.
  by rewrite Z2Qc_inj_1.
Qed.

Lemma Qc_of_nat_ne_0 (n : nat) : n ≠ 0 → Qc_of_nat n ≠ 0%Qc.
Proof.
  intros Hn H. unfold Qc_of_nat in H. rewrite <- Z2Qc_inj_0 in H.
  apply Z2Qc_inj in H. lia.
Qed.

Lemma Qc_one_ne_0 : (1 ≠ 0)%Qc.
Proof. intros H. by apply (f_equal Qcanon.this) in H. Qed.

Lemma Qc_inv_ne_0 (x : Qc) : x ≠ 0%Qc → (1 / x ≠ 0)%Qc.
Proof.
  intros Hx H. apply Qc_one_ne_0.
  rewrite <- (Qcmult_inv_r x Hx). unfold Qcdiv in H. rewrite Qcmult_1_l in H.
  rewrite H. ring.
Qed.

Lemma sumQc_app (l k : list Qc) : sumQc (l ++ k) = (sumQc l + sumQc k)%Qc.
Proof.
  unfold sumQc. induction l as [|x l IH]; cbn [app foldr].
  - by rewrite Qcplus_0_l.
  - by rewrite IH, Qcplus_assoc.
Qed.

Lemma sumQc_constant (w : Qc) (l : list Qc) :
  Forall (λ x, x = w) l → sumQc l = (Qc_of_nat (length l) * w)%Qc.
Proof.
  induction 1 as [|x l -> _ IH].
  - unfold sumQc. cbn [foldr length].
    change (Qc_of_nat 0) with (Qc_of_Z 0).
    by rewrite Z2Qc_inj_0, Qcmult_0_l.
  - cbn [length]. rewrite Qc_of_nat_S. unfold sumQc in *. cbn [foldr].
    rewrite IH. ring.
Qed.


Lemma trunc_of_Z (z : Z) : Qc_trunc (Qc_of_Z z) = z.
Proof. unfold Qc_trunc. simpl. apply Z.quot_1_r. Qed.

Lemma integral_of_Z (z : Z) : integral (Qc_of_Z z).
Proof. unfold integral. by rewrite trunc_of_Z. Qed.

(* ===================================================================== *)
(** * np.unique *)
(* ===================================================================== *)

Lemma elem_of_insert_unique (x y : Qc) (l : list Qc) :
  y ∈ insert_unique x l ↔ y = x ∨ y ∈ l.
Proof.
  induction l as [|z l IH]; simpl.
  - set_solver.
  - repeat case_decide; subst; set_solver.
Qed.

Lemma elem_of_unique_values (x : Qc) (col : list Qc) :
  x ∈ unique_values col ↔ x ∈ col.
Proof.
  unfold unique_values. induction col as [|y col IH]; simpl; [done|].
  rewrite elem_of_insert_unique, IH. set_solver.
Qed.

Lemma nth_index_of {B : Type} (f : Qc → B) (x : Qc) (l : list Qc) (dflt : B) :
  x ∈ l → nth (index_of x l) (f <$> l) dflt = f x.
Proof.
  induction l as [|y l IH]; [by intros ?%elem_of_nil|].
  intros Hx. simpl. case_decide; subst; [done|].
  apply IH. set_solver.
Qed.


(* ===================================================================== *)
(** * buildArcNode *)
(* ===================================================================== *)

Lemma length_np_arange (n : nat) : length (np_arange n) = n.
Proof. unfold np_arange. by rewrite length_fmap, length_seq. Qed.

Lemma zip_with_replicate_fmap {B C : Type} (g : Qc → B → C) (h : Qc → B)
    (c : Qc) (l : list Qc) :
  zip_with g (replicate (length l) c) (h <$> l) = (λ d, g c (h d)) <$> l.
Proof. induction l as [|x l IH]; csimpl; [done|]. by rewrite IH. Qed.

Lemma fmap_replicate_length {B : Type} (f : Qc → B) (c : Qc) (l : list Qc) :
  f <$> replicate (length l) c = (λ _, f c) <$> l.
Proof. induction l as [|x l IH]; csimpl; [done|]. by rewrite IH. Qed.

(** The weights that [buildArcNode] computes, arc by arc. *)
Lemma buildArcNode_values (mode : string) (col : list Qc) :
  (mode = "normalized" → col ≠ []) →
  (if decide (mode = "normalized") then
     if decide (length col = 0)
     then Raise (ZeroDivisionError "division by zero")
     else Ok ((λ x, x * (1 / Qc_of_nat (length col)))%Qc <$> replicate (length col) 1%Qc)
   else if decide (mode = "average") then
     let '(val, col_index, destination_node_counts) := np_unique col in
     Ok (zip_with (λ x k, x / Qc_of_nat (nth k destination_node_counts 0%nat))%Qc
                  (replicate (length col) 1%Qc) col_index)
   else Ok (replicate (length col) 1%Qc))
  = Ok (arc_weight mode col <$> col).
Proof.
  intros Hne. unfold arc_weight.
  destruct (decide (mode = "normalized")) as [Hn|Hn].
  - destruct (decide (length col = 0)) as [H0|H0].
    + apply length_zero_iff_nil in H0. by destruct (Hne Hn).
    + by rewrite fmap_replicate_length.
  - destruct (decide (mode = "average")) as [Ha|Ha].
    + unfold np_unique. rewrite zip_with_replicate_fmap.
      apply (f_equal Ok), list_fmap_ext. intros i d Hd. cbv beta.
      rewrite (nth_index_of (λ v, occurrences v col)); [done|].
      apply elem_of_unique_values. by eapply list_elem_of_lookup_2.
    + rewrite <- (fmap_replicate_length (λ x, x)).
      by rewrite list_fmap_id.
Qed.


Lemma coo_check_ok (m : coo) :
  length (coo_row m) = length (coo_data m) →
  length (coo_col m) = length (coo_data m) →
  Forall (λ r, 0 ≤ r < Z.of_nat (coo_shape m).1)%Z (coo_row m) →
  Forall (λ c, 0 ≤ c < Z.of_nat (coo_shape m).2)%Z (coo_col m) →
  coo_check m = Ok m.
Proof.
  intros Hr Hc Hrow Hcol. unfold coo_check.
  rewrite bool_decide_eq_true_2 by done. cbn [negb].
  rewrite !bool_decide_eq_false_2; [done|..];
    rewrite <- Forall_Exists_neg;
    (eapply Forall_impl; [eassumption|]); cbv beta; lia.
Qed.

(** What the checks of [coo_matrix] accepted. *)
Lemma coo_check_inv (m m' : coo) :
  coo_check m = Ok m' →
  m' = m ∧ length (coo_row m) = length (coo_data m)
  ∧ length (coo_col m) = length (coo_data m)
  ∧ Forall (λ r, 0 ≤ r < Z.of_nat (coo_shape m).1)%Z (coo_row m)
  ∧ Forall (λ c, 0 ≤ c < Z.of_nat (coo_shape m).2)%Z (coo_col m).
Proof.
  unfold coo_check. repeat case_bool_decide; cbn [negb]; try done.
  intros [= <-]. repeat split; try tauto.
  - apply Forall_forall. intros r Hr. split.
    + destruct (decide (0 ≤ r)%Z); [done|].
      exfalso. apply H2. apply Exists_exists. exists r. split; [done|lia].
    + destruct (decide (r < Z.of_nat (coo_shape m).1)%Z); [done|].
      exfalso. apply H0. apply Exists_exists. exists r. split; [done|lia].
  - apply Forall_forall. intros r Hr. split.
    + destruct (decide (0 ≤ r)%Z); [done|].
      exfalso. apply H3. apply Exists_exists. exists r. split; [done|lia].
    + destruct (decide (r < Z.of_nat (coo_shape m).2)%Z); [done|].
      exfalso. apply H1. apply Exists_exists. exists r. split; [done|lia].
Qed.

Lemma np_arange_below (n : nat) :
  Forall (λ r, 0 ≤ r < Z.of_nat n)%Z (np_arange n).
Proof.
  unfold np_arange. apply Forall_fmap, Forall_forall.
  intros i Hi%elem_of_seq. cbv [compose]. lia.
Qed.

(** [buildArcNode] in closed form. *)
Lemma buildArcNode_eq (arcs nodes : ndarray) (mode : string) (col : list Qc) :
  column 1 arcs = Ok col →
  indices_below (shape0 nodes) col →
  (mode = "normalized" → col ≠ []) →
  buildArcNode arcs nodes mode
  = Ok (Coo (shape0 arcs, shape0 nodes) (np_arange (length col))
            (Qc_trunc <$> col) (arc_weight mode col <$> col)).
Proof.
  intros Hcol Hbelow Hne. unfold buildArcNode. rewrite Hcol. cbn [rbind].
  rewrite (buildArcNode_values mode col Hne). cbn [rbind].
  unfold coo_matrix. apply coo_check_ok; cbn [coo_row coo_col coo_data coo_shape fst snd].
  - by rewrite length_np_arange, length_fmap.
  - by rewrite !length_fmap.
  - assert (shape0 arcs = length col) as ->; [|apply np_arange_below].
    destruct arcs as [|c rows]; [done|]. simpl in Hcol.
    case_decide; [|done]. injection Hcol as <-. by rewrite length_fmap.
  - by apply Forall_fmap.
Qed.

(** The stored triplets of a matrix whose rows are the arc ordinals. *)
Lemma zip_arange_imap {B C : Type} (f : Qc → B) (g : Qc → C) (k : nat) (col : list Qc) :
  zip (zip (Z.of_nat <$> seq k (length col)) (f <$> col)) (g <$> col)
  = imap (λ i d, (Z.of_nat (k + i), f d, g d)) col.
Proof.
  revert k. induction col as [|d col IH]; intros k; [done|].
  rewrite imap_cons. cbn [length seq]. csimpl. rewrite Nat.add_0_r. f_equal.
  rewrite IH. apply imap_ext. intros i x _. cbv [compose].
  by rewrite Nat.add_succ_r.
Qed.

Lemma filter_row_below (f : Qc → Z) (g : Qc → Qc) (k i : nat) (col : list Qc) :
  i < k →
  filter (λ e : Z * Z * Qc, e.1.1 = Z.of_nat i)
         (imap (λ j d, (Z.of_nat (k + j), f d, g d)) col) = [].
Proof.
  revert k. induction col as [|d col IH]; intros k Hik; [done|].
  rewrite imap_cons, filter_cons. cbn [fst]. case_decide; [lia|].
  rewrite <- (IH (S k)) by lia. f_equal. apply imap_ext.
  intros j x _. cbv [compose]. by rewrite Nat.add_succ_r.
Qed.

Lemma filter_row_at (f : Qc → Z) (g : Qc → Qc) (k i : nat) (col : list Qc) :
  k ≤ i →
  filter (λ e : Z * Z * Qc, e.1.1 = Z.of_nat i)
         (imap (λ j d, (Z.of_nat (k + j), f d, g d)) col)
  = match col !! (i - k) with
    | Some d => [(Z.of_nat i, f d, g d)]
    | None => []
    end.
Proof.
  revert k. induction col as [|d col IH]; intros k Hki.
  - by rewrite lookup_nil.
  - rewrite imap_cons, filter_cons. cbn [fst].
    assert (imap ((λ j d, (Z.of_nat (k + j), f d, g d)) ∘ S) col
            = imap (λ j d, (Z.of_nat (S k + j), f d, g d)) col) as ->.
    { apply imap_ext. intros j x _. cbv [compose]. by rewrite Nat.add_succ_r. }
    case_decide as Heq.
    + assert (i = k) as -> by lia.
      rewrite (filter_row_below f g (S k) k) by lia.
      by rewrite Nat.sub_diag, Nat.add_0_r.
    + rewrite IH by lia. replace (i - k) with (S (i - S k)) by lia. done.
Qed.

Lemma row_entries_arange (shape : nat * nat) (f : Qc → Z) (g : Qc → Qc)
    (col : list Qc) (i : nat) :
  row_entries (Coo shape (np_arange (length col)) (f <$> col) (g <$> col)) (Z.of_nat i)
  = match col !! i with
    | Some d => [(Z.of_nat i, f d, g d)]
    | None => []
    end.
Proof.
  unfold row_entries, entries, np_arange. cbn [coo_row coo_col coo_data].
  rewrite zip_arange_imap, filter_row_at by lia. by rewrite Nat.sub_0_r.
Qed.

Lemma coo_get_row_entries (m : coo) (r c : Z) :
  coo_get m r c = sumQc (snd <$> filter (λ e, e.1.2 = c) (row_entries m r)).
Proof.
  unfold coo_get, row_entries. rewrite list_filter_filter.
  do 2 f_equal. apply list_filter_iff. intros e. tauto.
Qed.

Lemma coo_get_single (m : coo) (r c j : Z) (w : Qc) :
  row_entries m r = [(r, c, w)] →
  coo_get m r j = if decide (j = c) then w else 0%Qc.
Proof.
  intros H. rewrite coo_get_row_entries, H, filter_cons, filter_nil. cbn [fst snd].
  destruct (decide (c = j)), (decide (j = c)); try congruence; subst.
  - unfold sumQc. cbn. apply Qcplus_0_r.
  - done.
Qed.

(** Whenever [buildArcNode] returns, the arcs array had a destination
    column, its indices named nodes, and a normalized graph had an arc. *)
Lemma buildArcNode_Ok_inv (arcs nodes : ndarray) (mode : string) (m : coo) :
  buildArcNode arcs nodes mode = Ok m →
  ∃ col, column 1 arcs = Ok col ∧ indices_below (shape0 nodes) col
         ∧ (mode = "normalized" → col ≠ []).
Proof.
  unfold buildArcNode. destruct (column 1 arcs) as [col|e]; [|done].
  cbn [rbind]. intros H. exists col. split; [done|].
  assert (mode = "normalized" → col ≠ []) as Hne.
  { intros -> ->. by rewrite decide_True in H by done. }
  split; [|done].
  rewrite (buildArcNode_values mode col Hne) in H. cbn [rbind] in H.
  apply coo_check_inv in H as (_ & _ & _ & _ & Hc).
  cbn [coo_col coo_shape snd] in Hc. by apply Forall_fmap in Hc.
Qed.


Lemma example_column :
  column 1 arcs_example = Ok [Qc_of_Z 1; Qc_of_Z 2; Qc_of_Z 2].
Proof. reflexivity. Qed.

Lemma example_below :
  indices_below (shape0 nodes_example) [Qc_of_Z 1; Qc_of_Z 2; Qc_of_Z 2].
Proof. repeat constructor; (rewrite trunc_of_Z; simpl; lia). Qed.



Lemma filter_none {A : Type} (P : A → Prop) `{!∀ x, Decision (P x)} (l : list A) :
  Forall (λ x, ¬ P x) l → filter P l = [].
Proof.
  induction 1 as [|x l Hx _ IH]; [done|]. by rewrite filter_cons_False.
Qed.

Lemma row_entries_outside (m : coo) (r : Z) :
  Forall (λ x, x ≠ r) (coo_row m) → row_entries m r = [].
Proof.
  intros H. apply filter_none, Forall_forall. intros [[x c] w] He.
  unfold entries in He. apply elem_of_zip_l, elem_of_zip_l in He.
  rewrite Forall_forall in H. by apply H.
Qed.

(** The values stored in column [j], in terms of the destination entries. *)
Lemma col_values_imap (f : Qc → Z) (g : Qc → Qc) (j : Z) (k : nat) (col : list Qc) :
  snd <$> filter (λ e : Z * Z * Qc, e.1.2 = j)
                 (imap (λ i d, (Z.of_nat (k + i), f d, g d)) col)
  = g <$> filter (λ d, f d = j) col.
Proof.
  revert k. induction col as [|d col IH]; intros k; [done|].
  rewrite imap_cons, !filter_cons. cbn [fst snd].
  assert (imap ((λ i d, (Z.of_nat (k + i), f d, g d)) ∘ S) col
          = imap (λ i d, (Z.of_nat (S k + i), f d, g d)) col) as ->.
  { apply imap_ext. intros i x _. cbv [compose]. by rewrite Nat.add_succ_r. }
  case_decide.
  - rewrite !fmap_cons. cbn [snd]. by rewrite IH.
  - by rewrite IH.
Qed.

Lemma col_sum_arange (shape : nat * nat) (f : Qc → Z) (g : Qc → Qc)
    (col : list Qc) (j : Z) :
  col_sum (Coo shape (np_arange (length col)) (f <$> col) (g <$> col)) j
  = sumQc (g <$> filter (λ d, f d = j) col).
Proof.
  unfold col_sum, col_entries, entries, np_arange. cbn [coo_row coo_col coo_data].
  by rewrite zip_arange_imap, col_values_imap.
Qed.

Lemma destinations_column (arcs : ndarray) (col : list Qc) :
  column 1 arcs = Ok col → destinations arcs = col.
Proof. unfold destinations. by intros ->. Qed.





Lemma float64_1 : float64 1 = 1%Qc.
Proof. apply (bool_decide_unpack _). by vm_compute. Qed.

(** The two embeddings of [buildArcNode] agree on everything but the
    rounding: whenever the first returns a matrix, for an array of at most
    2^53 arcs (whose counts are float64 numbers), the second returns the
    matrix of the same shape and indices whose weights are those of the
    first, rounded to float64 and then to float32. *)
Lemma buildArcNode_float32_rounds (arcs nodes : ndarray) (mode : string) (m : coo) :
  buildArcNode arcs nodes mode = Ok m →
  (Z.of_nat (shape0 arcs) ≤ 2 ^ 53)%Z →
  buildArcNode_float32 arcs nodes mode
  = Ok (Coo (coo_shape m) (coo_row m) (coo_col m)
            ((λ w, float32 (float64 w)) <$> coo_data m)).
Proof.
  intros Hm Hb.
  destruct (buildArcNode_Ok_inv arcs nodes mode m Hm) as (col & Hcol & Hbelow & Hne).
  rewrite (buildArcNode_eq arcs nodes mode col Hcol Hbelow Hne) in Hm.
  injection Hm as <-. cbn [coo_shape coo_row coo_col coo_data].
  assert (shape0 arcs = length col) as HA.
  { destruct arcs as [|c rows]; [done|]. simpl in Hcol.
    case_decide; [|done]. injection Hcol as <-. by rewrite length_fmap. }
  unfold buildArcNode_float32. rewrite Hcol. cbn [rbind].
  assert ((if decide (mode = "normalized") then
             if decide (length col = 0)
             then Raise (ZeroDivisionError "division by zero")
             else Ok ((λ x, float64 (x * float64 (1 / Qc_of_nat (length col))))%Qc
                        <$> replicate (length col) 1%Qc)
           else if decide (mode = "average") then
             let '(val, col_index, destination_node_counts) := np_unique col in
             Ok (zip_with
                   (λ x k, float64 (x / float64 (Qc_of_nat (nth k destination_node_counts 0%nat)))%Qc)
                   (replicate (length col) 1%Qc) col_index)
           else Ok (replicate (length col) 1%Qc))
          = Ok ((λ d, float64 (arc_weight mode col d)) <$> col)) as ->.
  { unfold arc_weight. destruct (decide (mode = "normalized")) as [Hn|Hn].
    - destruct (decide (length col = 0)) as [H0|H0].
      + apply length_zero_iff_nil in H0. by destruct (Hne Hn).
      + rewrite fmap_replicate_length. apply (f_equal Ok), list_fmap_ext.
        intros i d _. cbv beta. by rewrite !Qcmult_1_l, float64_idemp.
    - destruct (decide (mode = "average")) as [Ha|Ha].
      + unfold np_unique. rewrite zip_with_replicate_fmap.
        apply (f_equal Ok), list_fmap_ext. intros i d Hd. cbv beta.
        rewrite (nth_index_of (λ v, occurrences v col));
          [|apply elem_of_unique_values; by eapply list_elem_of_lookup_2].
        rewrite float64_nat; [done|].
        unfold occurrences. pose proof (length_filter (λ y, y = d) col). lia.
      + apply (f_equal Ok). rewrite float64_1.
        rewrite <- (fmap_replicate_length (λ x, x)). by rewrite list_fmap_id. }
  cbn [rbind]. rewrite <- !list_fmap_compose.
  unfold coo_matrix. apply coo_check_ok; cbn [coo_row coo_col coo_data coo_shape fst snd].
  - by rewrite length_np_arange, length_fmap.
  - by rewrite !length_fmap.
  - rewrite HA. apply np_arange_below.
  - by apply Forall_fmap.
Qed.

(** [buildArcNode_float32] under 'normalized', in closed form: every arc
    has the weight that float32 keeps of the float64 quotient 1/A. *)
Lemma buildArcNode_float32_normalized (arcs nodes : ndarray) (col : list Qc) :
  column 1 arcs = Ok col →
  indices_below (shape0 nodes) col →
  col ≠ [] →
  shape0 arcs = length col
  ∧ buildArcNode_float32 arcs nodes "normalized"
    = Ok (Coo (shape0 arcs, shape0 nodes) (np_arange (length col)) (Qc_trunc <$> col)
              ((λ _, float32 (float64 (1 / Qc_of_nat (shape0 arcs)))%Qc) <$> col)).
Proof.
  intros Hcol Hbelow Hne.
  assert (shape0 arcs = length col) as HA.
  { destruct arcs as [|c rows]; [done|]. simpl in Hcol.
    case_decide; [|done]. injection Hcol as <-. by rewrite length_fmap. }
  split; [done|].
  unfold buildArcNode_float32. rewrite Hcol. cbn [rbind].
  rewrite decide_True by done. rewrite decide_False.
  2: { intros H0. by apply length_zero_iff_nil in H0. }
  cbn [rbind]. rewrite <- list_fmap_compose, fmap_replicate_length.
  cbv [compose]. rewrite Qcmult_1_l, float64_idemp, <- HA.
  unfold coo_matrix. apply coo_check_ok; cbn [coo_row coo_col coo_data coo_shape fst snd].
  - by rewrite length_np_arange, length_fmap.
  - by rewrite !length_fmap.
  - rewrite HA. apply np_arange_below.
  - by apply Forall_fmap.
Qed.

(** C3, as the code has it. Under 'normalized' every arc has one
    incidence weight, stored in the row of the arc and the column of its
    destination, and every weight, as every nonzero entry of the matrix, is
    the float32 number that the code keeps of 1/A, A being the number of
    arcs: the quotient is computed in float64 and converted to float32 when
    the matrix is stored. That number is within [2^-23] of 1/A, relatively,
    and it is 1/A only when 1/A is a float32 number. *)
Theorem normalized_weights (arcs nodes : ndarray) (col : list Qc) :
  column 1 arcs = Ok col →
  indices_below (shape0 nodes) col →
  col ≠ [] →
  ∃ m w, buildArcNode_float32 arcs nodes "normalized" = Ok m
     ∧ w = float32 (float64 (1 / Qc_of_nat (shape0 arcs))%Qc)
     ∧ coo_shape m = (shape0 arcs, shape0 nodes)
     ∧ (∀ i d, col !! i = Some d →
          row_entries m (Z.of_nat i) = [(Z.of_nat i, Qc_trunc d, w)])
     ∧ (∀ r c, coo_get m r c ≠ 0%Qc → coo_get m r c = w)
     ∧ ((Z.of_nat (shape0 arcs) ≤ 2 ^ 63)%Z →
        ((1 / Qc_of_nat (shape0 arcs)) * Q2Qc (8388607 # 8388608) ≤ w
         ∧ w ≤ (1 / Qc_of_nat (shape0 arcs)) * Q2Qc (8388609 # 8388608))%Qc)
     ∧ (w = (1 / Qc_of_nat (shape0 arcs))%Qc →
        representable 24 (-149) (1 / Qc_of_nat (shape0 arcs))%Qc).
Proof.
  intros Hcol Hbelow Hne.
  destruct (buildArcNode_float32_normalized arcs nodes col Hcol Hbelow Hne) as [HA Hb].
  set (w := float32 (float64 (1 / Qc_of_nat (shape0 arcs))%Qc)) in *.
  eexists _, w. split; [exact Hb|]. split; [done|]. split; [done|].
  assert (∀ i d, col !! i = Some d →
            row_entries (Coo (shape0 arcs, shape0 nodes) (np_arange (length col))
                           (Qc_trunc <$> col) ((λ _, w) <$> col)) (Z.of_nat i)
            = [(Z.of_nat i, Qc_trunc d, w)]) as Hrow.
  { intros i d Hd. by rewrite row_entries_arange, Hd. }
  split; [exact Hrow|]. split; [|split].
  - intros r c. destruct (decide (0 ≤ r)%Z) as [Hr|Hr].
    + rewrite <- (Z2Nat.id r Hr).
      destruct (col !! Z.to_nat r) as [d|] eqn:Hd.
      * rewrite (coo_get_single _ _ _ _ _ (Hrow _ d Hd)). by case_decide.
      * rewrite coo_get_row_entries, row_entries_arange, Hd. done.
    + rewrite coo_get_row_entries, row_entries_outside; [done|].
      cbn [coo_row]. eapply Forall_impl; [apply np_arange_below|].
      intros x Hx. cbv beta in Hx. lia.
  - intros Hb63. apply stored_quotient_close; [|done].
    rewrite HA. intros H0. by apply length_zero_iff_nil in H0.
  - intros <-. unfold w, float32.
    pose proof (round_Q_representable 24 (-149)
                  (float64 (1 / Qc_of_nat (shape0 arcs))%Qc) eq_refl)
      as (m & k & E & Hm & Hk).
    exists m, k. split; [|done]. rewrite <- E. unfold round_to.
    apply this_Q2Qc.
Qed.

Lemma normalized_weights_witness :
  ∃ m w, buildArcNode_float32 arcs_example nodes_example "normalized" = Ok m
     ∧ w = float32 (float64 (1 / Qc_of_nat (shape0 arcs_example))%Qc)
     ∧ coo_shape m = (shape0 arcs_example, shape0 nodes_example)
     ∧ (∀ i d, [Qc_of_Z 1; Qc_of_Z 2; Qc_of_Z 2] !! i = Some d →
          row_entries m (Z.of_nat i) = [(Z.of_nat i, Qc_trunc d, w)])
     ∧ (∀ r c, coo_get m r c ≠ 0%Qc → coo_get m r c = w)
     ∧ ((Z.of_nat (shape0 arcs_example) ≤ 2 ^ 63)%Z →
        ((1 / Qc_of_nat (shape0 arcs_example)) * Q2Qc (8388607 # 8388608) ≤ w
         ∧ w ≤ (1 / Qc_of_nat (shape0 arcs_example)) * Q2Qc (8388609 # 8388608))%Qc)
     ∧ (w = (1 / Qc_of_nat (shape0 arcs_example))%Qc →
        representable 24 (-149) (1 / Qc_of_nat (shape0 arcs_example))%Qc).
Proof.
  apply (normalized_weights arcs_example nodes_example
           [Qc_of_Z 1; Qc_of_Z 2; Qc_of_Z 2]).
  - reflexivity.
  - exact example_below.
  - discriminate.
Defined.

(** C3 as stated fails: the worked example has three arcs, and the weight
    that [buildArcNode] stores for each of them under 'normalized' is
    11184811/33554432, the float32 number nearest to 1/3, and not 1/3. *)
Lemma normalized_weight_not_exact :
  buildArcNode_float32 arcs_example nodes_example "normalized"
  = Ok (Coo (3, 3) [0; 1; 2]%Z [1; 2; 2]%Z
            (replicate 3 (Q2Qc (11184811 # 33554432))))
  ∧ ∃ m, buildArcNode_float32 arcs_example nodes_example "normalized" = Ok m
       ∧ coo_get m 0 1 ≠ 0%Qc
       ∧ coo_get m 0 1 ≠ (1 / Qc_of_nat (shape0 arcs_example))%Qc.
Proof.
  assert (buildArcNode_float32 arcs_example nodes_example "normalized"
          = Ok (Coo (3, 3) [0; 1; 2]%Z [1; 2; 2]%Z
                    (replicate 3 (Q2Qc (11184811 # 33554432))))) as E.
  { apply (bool_decide_unpack _). by vm_compute. }
  split; [exact E|]. eexists. split; [exact E|].
  split; apply (bool_decide_unpack _); by vm_compute.
Qed.

(* ===================================================================== *)
(** * Framing: what a computation leaves untouched *)
(* ===================================================================== *)

Section framing.
Context {A B : Type}.
Implicit Types (n : nat) (σ : state).

Lemma framed_ret n (a : A) (Q : A → Prop) : Q a → framed n (ret a) Q.
Proof. intros HQ σ Hn. cbn. repeat split; [done|]. by intros ? [= <-]. Qed.

Lemma framed_raise n (e : exn) (Q : A → Prop) : framed n (raise e) Q.
Proof. intros σ Hn. cbn. by repeat split. Qed.

Lemma framed_lift n (r : result A) : framed n (lift r) (λ _, True).
Proof. intros σ Hn. cbn. by repeat split. Qed.

Lemma framed_weaken n (m : M A) (Q R : A → Prop) :
  (∀ a, Q a → R a) → framed n m Q → framed n m R.
Proof.
  intros HQR Hm σ Hn. destruct (Hm σ Hn) as (? & ? & HQ).
  repeat split; [done..|]. intros a Ha. by apply HQR, HQ.
Qed.

Lemma framed_bind n (m : M A) (k : A → M B) (Q : A → Prop) (R : B → Prop) :
  framed n m Q → (∀ a, Q a → framed n (k a) R) → framed n (bind m k) R.
Proof.
  intros Hm Hk σ Hn. destruct (Hm σ Hn) as (Ht & Hl & HQ).
  unfold bind. destruct (m σ) as [[a|e] σ1]; cbn in *.
  - destruct (Hk a (HQ a eq_refl) σ1 Hl) as (Ht' & Hl' & HR).
    rewrite Ht'. by repeat split.
  - by repeat split.
Qed.
End framing.

Lemma framed_alloc (n : nat) (c : cell) : framed n (alloc c) (λ l, n ≤ l).
Proof.
  intros σ Hn. cbn. rewrite take_app_le, length_app by done.
  repeat split; [lia|]. intros a [= <-]. done.
Qed.

Lemma framed_read_array (n : nat) (l : loc) : framed n (read_array l) (λ _, True).
Proof.
  intros σ Hn. unfold read_array.
  destruct (heap σ !! l) as [[a|g]|]; cbn; by repeat split.
Qed.

Lemma framed_read_graph (n : nat) (l : loc) : framed n (read_graph l) (λ _, True).
Proof.
  intros σ Hn. unfold read_graph.
  destruct (heap σ !! l) as [[a|g]|]; cbn; by repeat split.
Qed.

Lemma framed_write (n : nat) (l : loc) (c : cell) :
  n ≤ l → framed n (write l c) (λ _, True).
Proof.
  intros Hl σ Hn. cbn. rewrite take_insert_ge, length_insert by done.
  by repeat split.
Qed.

Lemma framed_mapM {A B : Type} (n : nat) (f : A → M B) (Q : B → Prop) (l : list A) :
  (∀ x, framed n (f x) Q) → framed n (mapM f l) (Forall Q).
Proof.
  intros Hf. induction l as [|x l IH]; cbn [mapM].
  - by apply framed_ret.
  - eapply framed_bind; [apply Hf|]. intros y Hy.
    eapply framed_bind; [apply IH|]. intros ys Hys.
    apply framed_ret. by constructor.
Qed.

(** A getter's copy is a new cell. *)
Lemma framed_get_copy (n : nat) (attr : GraphObject → loc) (self : loc) :
  framed n (get_copy attr self) (λ l, n ≤ l).
Proof.
  unfold get_copy.
  eapply framed_bind; [apply framed_read_graph|]. intros g _.
  eapply framed_bind; [apply framed_read_array|]. intros a _.
  apply framed_alloc.
Qed.

Lemma framed_getNodeGraph (n : nat) (self : loc) :
  framed n (getNodeGraph self) (λ _, True).
Proof.
  unfold getNodeGraph.
  eapply framed_bind; [apply framed_read_graph|]. intros g _.
  by apply framed_ret.
Qed.

Lemma framed_get_data (n : nat) (x : pyobj) :
  framed n (get_data x) (data_fresh n).
Proof.
  destruct x as [i|s|]; cbn [get_data]; try apply framed_raise.
  eapply framed_bind; [apply framed_get_copy|]. intros l1 H1.
  eapply framed_bind; [apply framed_read_graph|]. intros g _.
  eapply framed_bind; [apply framed_read_array|]. intros a _.
  eapply framed_bind; [apply framed_get_copy|]. intros l2 H2.
  eapply framed_bind; [apply framed_get_copy|]. intros l3 H3.
  eapply framed_bind; [apply framed_get_copy|]. intros l4 H4.
  eapply framed_bind; [apply framed_get_copy|]. intros l5 H5.
  eapply framed_bind; [apply framed_get_copy|]. intros l6 H6.
  eapply framed_bind; [apply framed_getNodeGraph|]. intros ng _.
  apply framed_ret. by repeat split.
Qed.

(** The in-place shift writes only to the places it is given. *)
Lemma framed_shift_arcs (n i : nat) (lens : list nat) (ls : list loc) :
  Forall (λ l, n ≤ l) ls → framed n (shift_arcs i lens ls) (λ _, True).
Proof.
  intros Hls. revert i. induction Hls as [|l ls Hl _ IH]; intros i; cbn [shift_arcs].
  - by apply framed_ret.
  - eapply framed_bind; [apply framed_read_array|]. intros a _.
    eapply framed_bind; [apply framed_lift|]. intros a' _.
    eapply framed_bind; [by apply framed_write|]. intros _ _.
    apply IH.
Qed.

Lemma framed_concatenate_at (n : nat) (ls : list loc) :
  framed n (concatenate_at ls) (λ _, True).
Proof.
  unfold concatenate_at.
  eapply framed_bind; [apply (framed_mapM n read_array (λ _, True)), framed_read_array|].
  intros arrays _. apply framed_lift.
Qed.

Lemma framed_concatenate_float32_at (n : nat) (ls : list loc) :
  framed n (concatenate_float32_at ls) (λ _, True).
Proof.
  unfold concatenate_float32_at.
  eapply framed_bind; [apply framed_concatenate_at|].
  intros a _. by apply framed_ret.
Qed.

(** The constructor only allocates. *)
Lemma framed_GraphObject_init (n : nat) (args : init_args) :
  framed n (GraphObject_init args) (λ l, n ≤ l).
Proof.
  unfold GraphObject_init.
  eapply framed_bind; [apply framed_alloc|]. intros l1 _.
  eapply framed_bind; [apply framed_alloc|]. intros l2 _.
  eapply framed_bind; [apply framed_alloc|]. intros l3 _.
  eapply framed_bind; [apply framed_lift|]. intros sw _.
  eapply framed_bind; [apply framed_alloc|]. intros l4 _.
  eapply framed_bind; [apply framed_lift|]. intros d1 _.
  eapply framed_bind; [apply framed_lift|]. intros d2 _.
  eapply framed_bind; [apply framed_lift|]. intros d3 _.
  eapply (framed_bind _ _ _ (λ _, True)).
  { destruct (arg_set_mask args).
    - by apply framed_ret.
    - eapply framed_bind; [apply framed_lift|]. intros ? _. by apply framed_ret. }
  intros sm _.
  eapply framed_bind; [apply framed_alloc|]. intros l5 _.
  eapply framed_bind; [apply framed_alloc|]. intros l6 _.
  destruct (negb _); [apply framed_raise|].
  destruct (negb _); [apply framed_raise|].
  eapply (framed_bind _ _ _ (λ _, True)).
  { destruct (arg_ArcNode args); [by apply framed_ret|apply framed_lift]. }
  intros an _.
  eapply framed_bind; [apply framed_lift|]. intros adj _.
  apply framed_alloc.
Qed.

Lemma framed_merge (n : nat) (glist : list pyobj) (pb mode : string) :
  framed n (merge glist pb mode) (λ l, n ≤ l).
Proof.
  unfold merge. destruct (negb _); [apply framed_raise|].
  eapply framed_bind; [apply (framed_mapM n get_data (data_fresh n)), framed_get_data|].
  intros data Hdata. destruct data as [|d data]; [apply framed_raise|].
  eapply framed_bind.
  { apply framed_shift_arcs. apply Forall_fmap.
    eapply Forall_impl; [exact Hdata|]. by intros ? (? & ? & ?). }
  intros _ _.
  do 5 (eapply framed_bind; [apply framed_concatenate_at|]; intros ? _).
  eapply framed_bind; [apply framed_concatenate_float32_at|]. intros ? _.
  apply framed_GraphObject_init.
Qed.

Lemma framed_lookup {A : Type} (m : M A) (Q : A → Prop) (σ : state) (l : loc) (c : cell) :
  framed (length (heap σ)) m Q →
  heap σ !! l = Some c → heap (m σ).2 !! l = Some c.
Proof.
  intros Hm Hl. destruct (Hm σ (Nat.le_refl _)) as (Ht & _ & _).
  rewrite firstn_all in Ht.
  rewrite <- (take_drop (length (heap σ)) (heap (m σ).2)), Ht.
  by apply lookup_app_l_Some.
Qed.

Lemma contents_preserved (h h' : list cell) (l : loc) (c : graph_contents) :
  (∀ l c, h !! l = Some c → h' !! l = Some c) →
  contents h l = Some c → contents h' l = Some c.
Proof.
  intros Hext. unfold contents, graph_at.
  destruct (h !! l) as [[a|g]|] eqn:Hg; try done. rewrite (Hext _ _ Hg). cbn.
  assert (∀ p a, array_at h p = Some a → array_at h' p = Some a) as Harr.
  { intros p a. unfold array_at. destruct (h !! p) as [[a'|g']|] eqn:Hp; try done.
    by rewrite (Hext _ _ Hp). }
  repeat (match goal with
          | |- context [array_at h ?p] =>
              let Hq := fresh "Hq" in
              destruct (array_at h p) as [?|] eqn:Hq; [|done];
              rewrite (Harr _ _ Hq); cbn
          end).
  done.
Qed.

(** C10. [merge] leaves every cell of the store that existed before the
    call as it was, whatever the list holds and whether or not the call
    succeeds: the in-place shift of the endpoint indices lands in the
    getters' copies. So every input graph reads the same before and after:
    nodes, arcs, targets, masks, weights and the derived matrices. *)
Theorem merge_leaves_inputs_unchanged
    (glist : list pyobj) (problem_based aggregation_mode : string) (σ : state) :
  let σ' := (merge glist problem_based aggregation_mode σ).2 in
  (∀ l c, heap σ !! l = Some c → heap σ' !! l = Some c)
  ∧ (∀ l g, contents (heap σ) l = Some g → contents (heap σ') l = Some g).
Proof.
  cbn zeta.
  assert (∀ l c, heap σ !! l = Some c →
            heap (merge glist problem_based aggregation_mode σ).2 !! l = Some c) as H.
  { intros l c. eapply framed_lookup, framed_merge. }
  split; [done|]. intros l g. by apply contents_preserved.
Qed.

(* ===================================================================== *)
(** * The constructor *)
(* ===================================================================== *)

(** The constructor returns what [init_contents] computes, in seven new
    cells at the end of the store, and raises what it raises. *)
Lemma GraphObject_init_run (args : init_args) (σ : state) :
  match init_contents args with
  | Ok (c, dims) =>
      GraphObject_init args σ
      = (Ok (length (heap σ) + 6),
         mkState (heap σ ++ init_cells (length (heap σ)) c dims) (disk σ))
  | Raise e => (GraphObject_init args σ).1 = Raise e
  end.
Proof.
  unfold init_contents, GraphObject_init, bind, alloc, lift, ret, raise.
  cbn [heap disk].
  destruct (mul_ones _ _) as [sw|e]; [|done]. cbn [rbind].
  destruct (shape1 (arg_nodes args)) as [d1|e]; [|done]. cbn [rbind].
  destruct (shape1 (arg_arcs args)) as [d2|e]; [|done]. cbn [rbind].
  destruct (shape1 (arg_targets args)) as [d3|e]; [|done]. cbn [rbind].
  destruct (arg_set_mask args) as [m|].
  - cbn [rbind heap disk].
    destruct (negb (bool_decide _)); [done|].
    destruct (negb (recognized _)); [done|].
    destruct (arg_ArcNode args) as [an|]; cbn [rbind].
    + destruct (buildAdjacency _ _ _) as [adj|e]; [|done]. cbn [rbind heap disk].
      rewrite !length_app. cbn [length]. rewrite <- !app_assoc. cbn [app].
      rewrite <- !Nat.add_assoc. by cbn.
    + destruct (buildArcNode _ _ _) as [an|e]; [|done]. cbn [rbind].
      destruct (buildAdjacency _ _ _) as [adj|e]; [|done]. cbn [rbind heap disk].
      rewrite !length_app. cbn [length]. rewrite <- !app_assoc. cbn [app].
      rewrite <- !Nat.add_assoc. by cbn.
  - destruct (lenMask _ _ _) as [n|e]; [|done]. cbn [rbind heap disk].
    destruct (negb (bool_decide _)); [done|].
    destruct (negb (recognized _)); [done|].
    destruct (arg_ArcNode args) as [an|]; cbn [rbind].
    + destruct (buildAdjacency _ _ _) as [adj|e]; [|done]. cbn [rbind heap disk].
      rewrite !length_app. cbn [length]. rewrite <- !app_assoc. cbn [app].
      rewrite <- !Nat.add_assoc. by cbn.
    + destruct (buildArcNode _ _ _) as [an|e]; [|done]. cbn [rbind].
      destruct (buildAdjacency _ _ _) as [adj|e]; [|done]. cbn [rbind heap disk].
      rewrite !length_app. cbn [length]. rewrite <- !app_assoc. cbn [app].
      rewrite <- !Nat.add_assoc. by cbn.
Qed.

Lemma contents_init_cells (h : list cell) (c : graph_contents) (dims : nat * Z * nat) :
  contents (h ++ init_cells (length h) c dims) (length h + 6) = Some c.
Proof.
  unfold contents, graph_at, array_at.
  rewrite lookup_app_r by lia.
  replace (length h + 6 - length h) with 6 by lia. cbn.
  rewrite (lookup_app_r h _ (length h)) by lia.
  rewrite !(lookup_app_r h _ (length h + _)) by lia.
  replace (length h - length h) with 0 by lia.
  replace (length h + 1 - length h) with 1 by lia.
  replace (length h + 2 - length h) with 2 by lia.
  replace (length h + 3 - length h) with 3 by lia.
  replace (length h + 4 - length h) with 4 by lia.
  replace (length h + 5 - length h) with 5 by lia.
  cbn. by destruct c.
Qed.

(** A successful constructor call, as contents of the new graph. *)
Lemma GraphObject_init_Ok (args : init_args) (σ : state)
    (c : graph_contents) (dims : nat * Z * nat) :
  init_contents args = Ok (c, dims) →
  ∃ l σ', GraphObject_init args σ = (Ok l, σ')
        ∧ contents (heap σ') l = Some c.
Proof.
  intros Hc. pose proof (GraphObject_init_run args σ) as H. rewrite Hc in H.
  eexists _, _. split; [exact H|]. apply contents_init_cells.
Qed.

Lemma mul_ones_error (w : weights_arg) (n : nat) (e : exn) :
  mul_ones w n = Raise e → e = broadcast_error.
Proof.
  destruct w as [q|[v|c rows]]; cbn; [done| |].
  - unfold mul_row. case_decide; [done|].
    destruct v as [|x [|y v]], (replicate n 1%Qc) as [|o [|o' os]]; cbn; congruence.
  - repeat case_decide; congruence.
Qed.

Lemma shape1_matrix (a : ndarray) : is_matrix a → ∃ c, shape1 a = Ok c.
Proof. destruct a; [done|]. by eexists. Qed.

Lemma shape0_map_array (f : Qc → Qc) (a : ndarray) :
  shape0 (map_array f a) = shape0 a.
Proof. destruct a; cbn; by rewrite length_fmap. Qed.

Lemma shape0_np_ones (n : nat) : shape0 (np_ones n) = n.
Proof. cbn. apply length_replicate. Qed.

Lemma setAggregation_unrecognized (self : loc) (mode : string) (σ : state) :
  recognized mode = false →
  setAggregation self mode σ = (Raise unknown_mode, σ).
Proof. intros H. unfold setAggregation. by rewrite H. Qed.

(** C9. [setAggregation] with an unrecognized mode raises the validation
    error and leaves the whole store as it was: the graph's aggregation
    mode, ArcNode and Adjacency are what they were before the call. *)
Theorem setAggregation_unrecognized_atomic (self : loc) (mode : string) (σ : state) :
  recognized mode = false →
  setAggregation self mode σ = (Raise unknown_mode, σ).
Proof. apply setAggregation_unrecognized. Qed.

Lemma setAggregation_unrecognized_atomic_witness :
  setAggregation 0 "bogus" (mkState [] []) = (Raise unknown_mode, mkState [] []).
Proof. apply (setAggregation_unrecognized_atomic 0 "bogus" (mkState [] [])). reflexivity. Defined.

(** C7. Validation errors. With matrix arguments for nodes, arcs and
    targets: (1) when the output mask is not as long as the set mask, the
    constructor raises a ValueError, and it is the mask-length error whenever
    the sample weights fit the targets; (2) when the aggregation mode is not
    recognized, the constructor raises a ValueError, and it is the
    unknown-mode error whenever the weights fit and the mask lengths agree;
    (3) [setAggregation] with an unrecognized mode raises the unknown-mode
    error and changes nothing. In no case a graph is returned. *)
Theorem validation_errors :
  (∀ args σ n om,
     is_matrix (arg_nodes args) → is_matrix (arg_arcs args) →
     is_matrix (arg_targets args) →
     set_mask_length args = Ok n →
     arg_output_mask args = Some om →
     n ≠ shape0 om →
     ∃ msg, (GraphObject_init args σ).1 = Raise (ValueError msg)
          ∧ (∀ sw, mul_ones (arg_sample_weights args) (shape0 (arg_targets args)) = Ok sw
                   → ValueError msg = mask_mismatch))
  ∧ (∀ args σ n,
       is_matrix (arg_nodes args) → is_matrix (arg_arcs args) →
       is_matrix (arg_targets args) →
       set_mask_length args = Ok n →
       recognized (arg_aggregation_mode args) = false →
       ∃ msg, (GraphObject_init args σ).1 = Raise (ValueError msg)
            ∧ (∀ sw, mul_ones (arg_sample_weights args) (shape0 (arg_targets args)) = Ok sw
                     → (∀ om, arg_output_mask args = Some om → shape0 om = n)
                     → ValueError msg = unknown_mode))
  ∧ (∀ self mode σ,
       recognized mode = false →
       setAggregation self mode σ = (Raise unknown_mode, σ)).
Proof.
  split; [|split].
  - intros args σ n om Hn Ha Ht Hlen Hom Hne.
    pose proof (GraphObject_init_run args σ) as Hrun.
    unfold init_contents in Hrun. unfold astype_float in Hrun.
    rewrite shape0_map_array in Hrun.
    destruct (mul_ones _ _) as [sw|e] eqn:Hsw.
    + cbn [rbind] in Hrun.
      destruct (shape1_matrix _ Hn) as [c1 H1], (shape1_matrix _ Ha) as [c2 H2],
        (shape1_matrix _ Ht) as [c3 H3].
      rewrite H1, H2, H3 in Hrun. cbn [rbind] in Hrun.
      unfold set_mask_length in Hlen. rewrite Hom in Hrun.
      destruct (arg_set_mask args) as [sm|].
      * injection Hlen as <-. cbn [rbind] in Hrun.
        unfold astype_bool in Hrun. rewrite !shape0_map_array in Hrun.
        rewrite bool_decide_eq_false_2 in Hrun by done. cbn [negb] in Hrun.
        eexists. split; [exact Hrun|done].
      * rewrite Hlen in Hrun. cbn [rbind] in Hrun.
        unfold astype_bool in Hrun. rewrite shape0_map_array, shape0_np_ones in Hrun.
        rewrite bool_decide_eq_false_2 in Hrun by done. cbn [negb] in Hrun.
        eexists. split; [exact Hrun|done].
    + cbn [rbind] in Hrun. rewrite (mul_ones_error _ _ _ Hsw) in Hrun.
      eexists. split; [exact Hrun|]. intros sw' [=].
  - intros args σ n Hn Ha Ht Hlen Hmode.
    pose proof (GraphObject_init_run args σ) as Hrun.
    unfold init_contents in Hrun. unfold astype_float in Hrun.
    rewrite shape0_map_array in Hrun.
    destruct (mul_ones _ _) as [sw|e] eqn:Hsw.
    + cbn [rbind] in Hrun.
      destruct (shape1_matrix _ Hn) as [c1 H1], (shape1_matrix _ Ha) as [c2 H2],
        (shape1_matrix _ Ht) as [c3 H3].
      rewrite H1, H2, H3 in Hrun. cbn [rbind] in Hrun.
      rewrite Hmode in Hrun. cbn [negb] in Hrun.
      assert (∃ sm, match arg_set_mask args with
                    | None => try! n ← lenMask (arg_nodes args) (arg_arcs args)
                                         (arg_problem_based args); Ok (np_ones n)
                    | Some m => Ok (astype_bool m)
                    end = Ok sm ∧ shape0 sm = n) as (sm & Hsm & Hsmn).
      { unfold set_mask_length in Hlen. destruct (arg_set_mask args) as [m|].
        - injection Hlen as <-. eexists. split; [done|].
          unfold astype_bool. apply shape0_map_array.
        - rewrite Hlen. eexists. split; [done|]. apply shape0_np_ones. }
      rewrite Hsm in Hrun. cbn [rbind] in Hrun.
      destruct (negb (bool_decide _)) eqn:Hb.
      * eexists. split; [exact Hrun|]. intros sw' _ Hom. exfalso.
        apply negb_true_iff, bool_decide_eq_false in Hb. apply Hb.
        destruct (arg_output_mask args) as [om|].
        -- unfold astype_bool. rewrite shape0_map_array. by rewrite (Hom om).
        -- by rewrite shape0_np_ones.
      * eexists. split; [exact Hrun|done].
    + cbn [rbind] in Hrun. rewrite (mul_ones_error _ _ _ Hsw) in Hrun.
      eexists. split; [exact Hrun|]. intros sw' [=].
  - apply setAggregation_unrecognized.
Qed.

(* ===================================================================== *)
(** * Running computations on a store with a known extension *)
(* ===================================================================== *)

Lemma bind_run {A B : Type} (m : M A) (k : A → M B) (σ σ' : state) (a : A) :
  m σ = (Ok a, σ') → bind m k σ = k a σ'.
Proof. unfold bind. by intros ->. Qed.

Lemma read_graph_run (h : list cell) (d : list (string * directory))
    (l : loc) (g : GraphObject) :
  h !! l = Some (CGraph g) →
  read_graph l (mkState h d) = (Ok g, mkState h d).
Proof. intros H. unfold read_graph. cbn. by rewrite H. Qed.

Lemma read_array_run (h : list cell) (d : list (string * directory))
    (l : loc) (a : ndarray) :
  h !! l = Some (CArray a) →
  read_array l (mkState h d) = (Ok a, mkState h d).
Proof. intros H. unfold read_array. cbn. by rewrite H. Qed.

Lemma bind_lift {A B : Type} (r : result A) (k : A → M B) (σ : state) (a : A) :
  r = Ok a → bind (lift r) k σ = k a σ.
Proof. by intros ->. Qed.

Lemma read_graph_old (h L : list cell) (d : list (string * directory))
    (l : loc) (g : GraphObject) :
  h !! l = Some (CGraph g) →
  read_graph l (mkState (h ++ L) d) = (Ok g, mkState (h ++ L) d).
Proof. intros H. unfold read_graph. cbn. by rewrite (lookup_app_l_Some _ _ _ _ H). Qed.

Lemma read_array_old (h L : list cell) (d : list (string * directory))
    (l : loc) (a : ndarray) :
  h !! l = Some (CArray a) →
  read_array l (mkState (h ++ L) d) = (Ok a, mkState (h ++ L) d).
Proof. intros H. unfold read_array. cbn. by rewrite (lookup_app_l_Some _ _ _ _ H). Qed.

Lemma read_array_new (h L : list cell) (d : list (string * directory))
    (k : nat) (a : ndarray) :
  L !! k = Some (CArray a) →
  read_array (length h + k) (mkState (h ++ L) d) = (Ok a, mkState (h ++ L) d).
Proof.
  intros H. unfold read_array. cbn. rewrite lookup_app_r by lia.
  replace (length h + k - length h) with k by lia. by rewrite H.
Qed.

Lemma write_new (h L : list cell) (d : list (string * directory)) (k : nat) (c : cell) :
  write (length h + k) c (mkState (h ++ L) d) = (Ok tt, mkState (h ++ <[k:=c]> L) d).
Proof. unfold write. cbn. by rewrite insert_app_r. Qed.

Lemma get_copy_run (attr : GraphObject → loc) (self : loc) (h L : list cell)
    (d : list (string * directory)) (g : GraphObject) (a : ndarray) :
  h !! self = Some (CGraph g) →
  h !! attr g = Some (CArray a) →
  get_copy attr self (mkState (h ++ L) d)
  = (Ok (length h + length L), mkState (h ++ (L ++ [CArray a])) d).
Proof.
  intros Hg Ha. unfold get_copy.
  rewrite (bind_run _ _ _ _ _ (read_graph_old h L d self g Hg)).
  rewrite (bind_run _ _ _ _ _ (read_array_old h L d _ a Ha)).
  unfold alloc. cbn. by rewrite length_app, app_assoc.
Qed.

(** What [contents] found in the store. *)
Lemma contents_inv (h : list cell) (l : loc) (G : graph_contents) :
  contents h l = Some G →
  ∃ g, h !! l = Some (CGraph g)
     ∧ h !! nodes g = Some (CArray (c_nodes G))
     ∧ h !! arcs g = Some (CArray (c_arcs G))
     ∧ h !! targets g = Some (CArray (c_targets G))
     ∧ h !! set_mask g = Some (CArray (c_set_mask G))
     ∧ h !! output_mask g = Some (CArray (c_output_mask G))
     ∧ h !! sample_weights g = Some (CArray (c_sample_weights G))
     ∧ aggregation_mode g = c_aggregation_mode G
     ∧ ArcNode g = c_ArcNode G ∧ Adjacency g = c_Adjacency G
     ∧ NodeGraph g = c_NodeGraph G.
Proof.
  unfold contents, graph_at, array_at.
  destruct (h !! l) as [[|g]|]; try done. cbn.
  repeat (match goal with
          | |- context [h !! ?p] =>
              destruct (h !! p) as [[?|?]|] eqn:?; try done; cbn
          end).
  intros [= <-]. exists g. by repeat split.
Qed.

Lemma getNodeGraph_run (h L : list cell) (d : list (string * directory))
    (self : loc) (g : GraphObject) :
  h !! self = Some (CGraph g) →
  getNodeGraph self (mkState (h ++ L) d) = (Ok (NodeGraph g), mkState (h ++ L) d).
Proof.
  intros Hg. unfold getNodeGraph.
  by rewrite (bind_run _ _ _ _ _ (read_graph_old h L d self g Hg)).
Qed.

Lemma get_data_run (h L : list cell) (d : list (string * directory))
    (i : loc) (G : graph_contents) :
  contents h i = Some G →
  get_data (PGraph i) (mkState (h ++ L) d)
  = (Ok (mkData (length h + length L) (shape0 (c_nodes G))
                (length h + (length L + 1)) (length h + (length L + 2))
                (length h + (length L + 3)) (length h + (length L + 4))
                (length h + (length L + 5)) (c_NodeGraph G)),
     mkState (h ++ (L ++ copies G)) d).
Proof.
  intros (g & Hg & Hn & Ha & Ht & Hsm & Hom & Hsw & _ & _ & _ & Hng)%contents_inv.
  cbn [get_data]. unfold getNodes, getArcs, getTargets, getSetMask,
    getOutputMask, getSampleWeights.
  rewrite (bind_run _ _ _ _ _ (get_copy_run nodes i h L d g _ Hg Hn)).
  rewrite (bind_run _ _ _ _ _ (read_graph_old h _ d i g Hg)).
  rewrite (bind_run _ _ _ _ _ (read_array_old h _ d _ _ Hn)).
  rewrite (bind_run _ _ _ _ _ (get_copy_run arcs i h _ d g _ Hg Ha)).
  rewrite (bind_run _ _ _ _ _ (get_copy_run targets i h _ d g _ Hg Ht)).
  rewrite (bind_run _ _ _ _ _ (get_copy_run set_mask i h _ d g _ Hg Hsm)).
  rewrite (bind_run _ _ _ _ _ (get_copy_run output_mask i h _ d g _ Hg Hom)).
  rewrite (bind_run _ _ _ _ _ (get_copy_run sample_weights i h _ d g _ Hg Hsw)).
  rewrite (bind_run _ _ _ _ _ (getNodeGraph_run h _ d i g Hg)).
  unfold ret. rewrite Hng. rewrite !length_app. cbn [length].
  rewrite <- !app_assoc. cbn [app]. unfold copies.
  rewrite <- !(Nat.add_assoc (length L)). by cbn [Nat.add].
Qed.

(* ===================================================================== *)
(** * Array facts used by merge *)
(* ===================================================================== *)

Lemma astype_float_id (a : ndarray) : astype_float a = a.
Proof.
  destruct a as [v|c rows]; cbn.
  - by rewrite list_fmap_id.
  - f_equal. rewrite <- (list_fmap_id rows) at 2.
    apply list_fmap_ext. intros i r _. by rewrite list_fmap_id.
Qed.

Lemma zip_with_mul_ones (v : list Qc) :
  zip_with Qcmult v (replicate (length v) 1%Qc) = v.
Proof.
  induction v as [|x v IH]; [done|]. cbn. by rewrite IH, Qcmult_1_r.
Qed.

Lemma mul_row_ones (v : list Qc) (n : nat) :
  length v = n → mul_row v (replicate n 1%Qc) = Ok v.
Proof.
  intros <-. unfold mul_row. rewrite length_replicate.
  rewrite decide_True by done. by rewrite zip_with_mul_ones.
Qed.

Lemma is_bool_array_app (v w : list Qc) :
  is_bool_array (Arr1 v) → is_bool_array (Arr1 w) → is_bool_array (Arr1 (v ++ w)).
Proof.
  unfold is_bool_array. cbn. intros [= Hv] [= Hw].
  by rewrite fmap_app, Hv, Hw.
Qed.

Lemma shift_row_0 (r : list Qc) : shift_row (Qc_of_nat 0) r = r.
Proof.
  unfold shift_row. change (Qc_of_nat 0) with (Qc_of_Z 0). rewrite Z2Qc_inj_0.
  rewrite (list_fmap_ext _ id (take 2 r)).
  - by rewrite list_fmap_id, take_drop.
  - intros i x _. apply Qcplus_0_l.
Qed.

Lemma nth_shift_row (k : Qc) (r : list Qc) (j : nat) :
  j < 2 → 2 ≤ length r → nth j (shift_row k r) 0%Qc = (k + nth j r 0%Qc)%Qc.
Proof.
  intros Hj Hr. destruct r as [|x [|y r]]; cbn in Hr; try lia.
  destruct j as [|[|j]]; [done..|lia].
Qed.

Lemma integral_shift (n : nat) (x : Qc) :
  integral x →
  integral (Qc_of_nat n + x)%Qc
  ∧ Qc_trunc (Qc_of_nat n + x)%Qc = (Z.of_nat n + Qc_trunc x)%Z.
Proof.
  intros Hx. unfold integral in Hx.
  remember (Qc_trunc x) as z eqn:Hz. clear Hz. subst x.
  unfold Qc_of_nat. rewrite <- Z2Qc_inj_add.
  split; [apply integral_of_Z|apply trunc_of_Z].
Qed.

Lemma endpoints_valid_shift (n1 n2 : nat) (r : list Qc) :
  2 ≤ length r → endpoints_valid n2 r →
  endpoints_valid (n1 + n2) (shift_row (Qc_of_nat n1) r).
Proof.
  intros Hr (H0 & H1 & Hs & Hd). unfold endpoints_valid.
  rewrite !nth_shift_row by (done || lia).
  destruct (integral_shift n1 _ H0) as [? ->], (integral_shift n1 _ H1) as [? ->].
  repeat split; try done; lia.
Qed.



Lemma endpoints_valid_mono (n1 n2 : nat) (r : list Qc) :
  endpoints_valid n1 r → endpoints_valid (n1 + n2) r.
Proof. intros (? & ? & ? & ?). repeat split; try done; lia. Qed.

(** [buildAdjacency] in closed form. *)
Lemma buildAdjacency_eq (c : nat) (rows : list (list Qc)) (nodes : ndarray) (an : coo) :
  2 ≤ c → rows ≠ [] →
  length (coo_data an) = length rows →
  Forall (endpoints_valid (shape0 nodes)) rows →
  buildAdjacency (Arr2 c rows) nodes an
  = Ok (Coo (shape0 nodes, shape0 nodes)
            ((λ r : list Qc, Qc_trunc (nth 0 r 0%Qc)) <$> rows)
            ((λ r : list Qc, Qc_trunc (nth 1 r 0%Qc)) <$> rows)
            (coo_data an)).
Proof.
  intros Hc Hne Hlen Hvalid. unfold buildAdjacency.
  rewrite bool_decide_eq_true_2 by done.
  unfold coo_matrix. apply coo_check_ok; cbn [coo_row coo_col coo_data coo_shape fst snd].
  - by rewrite length_fmap.
  - by rewrite length_fmap.
  - apply Forall_fmap. eapply Forall_impl; [exact Hvalid|].
    by intros r (_ & _ & ? & _).
  - apply Forall_fmap. eapply Forall_impl; [exact Hvalid|].
    by intros r (_ & _ & _ & ?).
Qed.

Lemma column_1_rows (c : nat) (rows : list (list Qc)) :
  2 ≤ c → column 1 (Arr2 c rows) = Ok ((λ r : list Qc, nth 1 r 0%Qc) <$> rows).
Proof. intros Hc. cbn. by rewrite decide_True by lia. Qed.

(** The explicit form of a well-formed graph. *)
Lemma well_formed_inv (G : graph_contents) :
  well_formed G →
  ∃ cn n ca a ct t sm om sw,
    (c_nodes G = Arr2 cn n ∧ c_arcs G = Arr2 ca a ∧ c_targets G = Arr2 ct t
     ∧ c_set_mask G = Arr1 sm ∧ c_output_mask G = Arr1 om
     ∧ c_sample_weights G = Arr1 sw)
    ∧ 2 ≤ ca ∧ a ≠ [] ∧ Forall (λ r, length r = ca) a
    ∧ Forall (endpoints_valid (length n)) a
    ∧ is_bool_array (Arr1 sm) ∧ is_bool_array (Arr1 om)
    ∧ length sm = length om ∧ length sw = length t.
Proof.
  intros [Hn Ha (c & Hc & Hc2) Hshaped Hne Hend Ht [Hsm1 Hsm2] [Hom1 Hom2] Hm [Hsw1 Hsw2]].
  destruct G as [[|cn n] [|ca a] [|ct t] [sm|] [om|] [sw|] mode an adj ng];
    cbn in *; try done.
  injection Hc as <-.
  exists cn, n, ca, a, ct, t, sm, om, sw. by repeat split.
Qed.

Lemma mapM_run_nil {A B : Type} (f : A → M B) (σ : state) :
  mapM f [] σ = (Ok [], σ).
Proof. done. Qed.

Lemma mapM_run_cons {A B : Type} (f : A → M B) (x : A) (l : list A)
    (σ σ1 σ2 : state) (y : B) (ys : list B) :
  f x σ = (Ok y, σ1) → mapM f l σ1 = (Ok ys, σ2) →
  mapM f (x :: l) σ = (Ok (y :: ys), σ2).
Proof.
  intros Hx Hl. cbn [mapM].
  rewrite (bind_run _ _ _ _ _ Hx), (bind_run _ _ _ _ _ Hl). done.
Qed.

(* ===================================================================== *)
(** * merge of two graphs *)
(* ===================================================================== *)

(** The run of [merge] on two well-formed graphs of equal label widths:
    the result, field by field. *)
Lemma merge_two_run (σ : state) (i1 i2 : loc) (G1 G2 : graph_contents)
    (problem_based aggregation_mode : string) :
  contents (heap σ) i1 = Some G1 →
  contents (heap σ) i2 = Some G2 →
  well_formed G1 → well_formed G2 → compatible G1 G2 →
  recognized aggregation_mode = true →
  ∃ l σ' G,
    merge [PGraph i1; PGraph i2] problem_based aggregation_mode σ = (Ok l, σ')
    ∧ contents (heap σ') l = Some G
    ∧ shape0 (c_nodes G) = shape0 (c_nodes G1) + shape0 (c_nodes G2)
    ∧ rows_of (c_nodes G) = rows_of (c_nodes G1) ++ rows_of (c_nodes G2)
    ∧ rows_of (c_arcs G)
      = rows_of (c_arcs G1)
        ++ (shift_row (Qc_of_nat (shape0 (c_nodes G1))) <$> rows_of (c_arcs G2))
    ∧ rows_of (c_targets G) = rows_of (c_targets G1) ++ rows_of (c_targets G2)
    ∧ c_set_mask G
      = Arr1 (elements_of (c_set_mask G1) ++ elements_of (c_set_mask G2))
    ∧ c_output_mask G
      = Arr1 (elements_of (c_output_mask G1) ++ elements_of (c_output_mask G2))
    ∧ c_sample_weights G
      = Arr1 (float32 <$> (elements_of (c_sample_weights G1)
                           ++ elements_of (c_sample_weights G2)))
    ∧ c_NodeGraph G = block_diag [c_NodeGraph G1; c_NodeGraph G2]
    ∧ c_aggregation_mode G = aggregation_mode.
Proof.
  intros H1 H2 W1 W2 (Cn & Ca & Ct) Hmode.
  destruct σ as [h d]. cbn [heap] in H1, H2.
  pose proof (get_data_run h [] d i1 G1 H1) as D1.
  pose proof (get_data_run h (copies G1) d i2 G2 H2) as D2.
  destruct (well_formed_inv G1 W1)
    as (cn & n1 & ca & a1 & ct & t1 & sm1 & om1 & sw1
        & (En1 & Ea1 & Et1 & Esm1 & Eom1 & Esw1)
        & Hca & Hne1 & Hsh1 & Hend1 & Hb1 & Hbo1 & Hm1 & Hw1).
  destruct (well_formed_inv G2 W2)
    as (cn' & n2 & ca' & a2 & ct' & t2 & sm2 & om2 & sw2
        & (En2 & Ea2 & Et2 & Esm2 & Eom2 & Esw2)
        & _ & Hne2 & Hsh2 & Hend2 & Hb2 & Hbo2 & Hm2 & Hw2).
  rewrite En1, En2 in Cn. rewrite Ea1, Ea2 in Ca. rewrite Et1, Et2 in Ct.
  cbn in Cn, Ca, Ct. injection Cn as <-. injection Ca as <-. injection Ct as <-.
  unfold copies in D1, D2.
  rewrite En1, Ea1, Et1, Esm1, Eom1, Esw1 in D1, D2.
  rewrite En2, Ea2, Et2, Esm2, Eom2, Esw2 in D2.
  rewrite En1, En2, Ea1, Ea2, Et1, Et2, Esm1, Esm2, Eom1, Eom2, Esw1, Esw2.
  cbn [app length Nat.add shape0 rows_of elements_of] in D1, D2 |- *.
  rewrite app_nil_r in D1.
  (* what the constructor computes from the concatenations *)
  set (arcs' := Arr2 ca (a1 ++ (shift_row (Qc_of_nat (length n1)) <$> a2))).
  set (args := {|
    arg_nodes := Arr2 cn (n1 ++ n2); arg_arcs := arcs'; arg_targets := Arr2 ct (t1 ++ t2);
    arg_problem_based := problem_based;
    arg_set_mask := Some (Arr1 (sm1 ++ sm2));
    arg_output_mask := Some (Arr1 (om1 ++ om2));
    arg_sample_weights := WArray (Arr1 (float32 <$> (sw1 ++ sw2)));
    arg_NodeGraph := Some (MSparse (block_diag [c_NodeGraph G1; c_NodeGraph G2]));
    arg_ArcNode := None;
    arg_aggregation_mode := aggregation_mode |}).
  assert (Forall (endpoints_valid (length n1 + length n2))
            (a1 ++ (shift_row (Qc_of_nat (length n1)) <$> a2))) as Hend.
  { apply Forall_app. split.
    - eapply Forall_impl; [exact Hend1|]. intros r. apply endpoints_valid_mono.
    - apply Forall_fmap. rewrite Forall_forall in Hsh2, Hend2. apply Forall_forall.
      intros r Hr. cbv [compose]. apply endpoints_valid_shift; [|by apply Hend2].
      rewrite (Hsh2 r Hr). done. }
  assert (∃ an adj, init_contents args
            = Ok (mkContents (Arr2 cn (n1 ++ n2)) arcs' (Arr2 ct (t1 ++ t2))
                    (Arr1 (sm1 ++ sm2)) (Arr1 (om1 ++ om2))
                    (Arr1 (float32 <$> (sw1 ++ sw2)))
                    aggregation_mode an adj
                    (block_diag [c_NodeGraph G1; c_NodeGraph G2]),
                  (cn, (Z.of_nat ca - 2)%Z, ct))) as (an & adj & Hinit).
  { unfold init_contents, args. cbn [arg_nodes arg_arcs arg_targets arg_problem_based
      arg_set_mask arg_output_mask arg_sample_weights arg_NodeGraph arg_ArcNode
      arg_aggregation_mode].
    rewrite !astype_float_id. cbn [shape0 shape1 mul_ones].
    rewrite mul_row_ones by (rewrite length_fmap, !length_app; lia). cbn [rbind].
    rewrite (is_bool_array_app _ _ Hb1 Hb2), (is_bool_array_app _ _ Hbo1 Hbo2).
    cbn [shape0]. rewrite bool_decide_eq_true_2 by (rewrite !length_app; lia).
    rewrite Hmode. cbn [negb coo_of_arg].
    unfold arcs'.
    erewrite buildArcNode_eq; [|by apply column_1_rows| |].
    - cbn [rbind]. erewrite buildAdjacency_eq; [by eexists _, _|done| | |].
      + intros [? _]%app_eq_nil. done.
      + cbn [coo_data]. by rewrite length_fmap, length_fmap.
      + cbn [shape0]. by rewrite length_app.
    - unfold indices_below. cbn [shape0]. rewrite length_app.
      apply Forall_fmap. eapply Forall_impl; [exact Hend|].
      by intros r (_ & _ & _ & ?).
    - intros _ H. apply fmap_nil_inv in H. apply app_eq_nil in H as [? _]. done. }
  set (G := mkContents _ _ _ _ _ _ _ _ _ _) in Hinit.
  set (L := [CArray (Arr2 cn n1); CArray (Arr2 ca a1);
        CArray (Arr2 ct t1); CArray (Arr1 sm1); CArray (Arr1 om1);
        CArray (Arr1 sw1); CArray (Arr2 cn n2);
        CArray (Arr2 ca (shift_row (Qc_of_nat (length n1)) <$> a2));
        CArray (Arr2 ct t2); CArray (Arr1 sm2); CArray (Arr1 om2);
        CArray (Arr1 sw2)]).
  exists (length (h ++ L) + 6),
    (mkState ((h ++ L) ++ init_cells (length (h ++ L)) G (cn, (Z.of_nat ca - 2)%Z, ct)) d),
    G.
  split; [|split; [apply contents_init_cells|]].
  2: { subst G arcs'. cbn [c_nodes c_arcs c_targets c_set_mask c_output_mask
         c_sample_weights shape0 rows_of]. by rewrite length_app. }
  (* the tuples of get_data *)
  unfold merge. cbn [forallb is_graph_or_str andb negb].
  rewrite (bind_run _ _ _ _ _
             (mapM_run_cons _ _ _ _ _ _ _ _ D1
                (mapM_run_cons _ _ _ _ _ _ _ _ D2 (mapM_run_nil _ _)))).
  cbn [fmap list_fmap d_nodes d_nodes_len d_arcs d_targets d_set_mask
         d_output_mask d_sample_weights d_nodegraph].
  (* the in-place shift *)
  assert (shift_arcs 0 [length n1; length n2] [length h + 1; length h + 7]
            (mkState (h ++ [CArray (Arr2 cn n1); CArray (Arr2 ca a1);
               CArray (Arr2 ct t1); CArray (Arr1 sm1); CArray (Arr1 om1);
               CArray (Arr1 sw1); CArray (Arr2 cn n2); CArray (Arr2 ca a2);
               CArray (Arr2 ct t2); CArray (Arr1 sm2); CArray (Arr1 om2);
               CArray (Arr1 sw2)]) d)
          = (Ok tt, mkState (h ++ L) d)) as Hshift.
  { cbn [shift_arcs].
    etrans; [eapply bind_run; by apply read_array_new|]. cbn beta.
    cbn [take sum_list sum_list_with iadd_first_two].
    etrans; [eapply bind_run; reflexivity|]. cbn beta.
    etrans; [eapply bind_run; apply write_new|]. cbn beta.
    cbn [insert list_insert].
    etrans; [eapply bind_run; by apply read_array_new|]. cbn beta.
    cbn [take sum_list sum_list_with iadd_first_two].
    etrans; [eapply bind_run; reflexivity|]. cbn beta.
    etrans; [eapply bind_run; apply write_new|]. cbn beta.
    cbn [insert list_insert ret]. subst L.
    rewrite Nat.add_0_r.
    rewrite (list_fmap_ext (shift_row (Qc_of_nat 0)) (λ r, r) a1)
      by (intros; apply shift_row_0).
    by rewrite list_fmap_id. }
  rewrite (bind_run _ _ _ _ _ Hshift).
  (* the concatenations *)
  unfold concatenate_float32_at, concatenate_at.
  do 5 (erewrite bind_run; cycle 1;
        [ etrans; [eapply bind_run;
                   eapply mapM_run_cons; [by apply read_array_new|];
                   eapply mapM_run_cons; [by apply read_array_new|];
                   apply mapM_run_nil|];
          cbn beta; cbn [lift np_concatenate concat_from concat2 rbind];
          rewrite ?decide_True by done; cbn [rbind]; reflexivity |]).
  erewrite bind_run; cycle 1.
  { etrans; [eapply bind_run; etrans;
               [eapply bind_run;
                eapply mapM_run_cons; [by apply read_array_new|];
                eapply mapM_run_cons; [by apply read_array_new|];
                apply mapM_run_nil|];
             cbn beta; cbn [lift np_concatenate concat_from concat2 rbind];
             reflexivity|].
    cbn beta. cbn [ret map_array]. reflexivity. }
  fold arcs'. fold args. fold L.
  pose proof (GraphObject_init_run args (mkState (h ++ L) d)) as Hrun.
  by rewrite Hinit in Hrun.
Qed.


Lemma graph_example_well_formed : well_formed graph_example.
Proof.
  split; cbn; try done.
  - exists 3. by split; [|lia].
  - by repeat constructor.
  - repeat constructor; cbn; try apply integral_of_Z;
      rewrite trunc_of_Z; lia.
Qed.

Lemma heavy_example_well_formed : well_formed heavy_example.
Proof.
  split; cbn; try done.
  - exists 3. by split; [|lia].
  - by repeat constructor.
  - repeat constructor; cbn; try apply integral_of_Z;
      rewrite trunc_of_Z; lia.
Qed.

Lemma heavy_example_in_range :
  Forall in_float32_range (elements_of (c_sample_weights heavy_example)).
Proof.
  cbn. repeat (constructor;
    [unfold in_float32_range; split; apply (bool_decide_unpack _); by vm_compute|]).
  constructor.
Qed.




(** The constructor builds the example graph from the raw arrays. *)
Lemma init_contents_example :
  init_contents (mkArgs nodes_example arcs_example targets_example "n"
                   None None (WScalar 1%Qc) None None "sum")
  = Ok (graph_example, (1, 1%Z, 1)).
Proof. apply (bool_decide_unpack _). by vm_compute. Qed.

Lemma validation_errors_witness :
  (∃ msg, (GraphObject_init
             (mkArgs nodes_example arcs_example targets_example "n"
                (Some ones_example) (Some (Arr1 [1%Qc])) (WScalar 1%Qc) None None "sum")
             (mkState [] [])).1 = Raise (ValueError msg)
        ∧ (∀ sw, mul_ones (WScalar 1%Qc) (shape0 targets_example) = Ok sw
                 → ValueError msg = mask_mismatch))
  ∧ (∃ msg, (GraphObject_init
               (mkArgs nodes_example arcs_example targets_example "n"
                  None None (WScalar 1%Qc) None None "bogus")
               (mkState [] [])).1 = Raise (ValueError msg)
          ∧ (∀ sw, mul_ones (WScalar 1%Qc) (shape0 targets_example) = Ok sw
                   → (∀ om, None = Some om → shape0 om = 3)
                   → ValueError msg = unknown_mode))
  ∧ setAggregation 6 "bogus" store_example = (Raise unknown_mode, store_example).
Proof.
  destruct validation_errors as (Hmask & Hmode & Hset).
  split; [|split].
  - apply (Hmask (mkArgs nodes_example arcs_example targets_example "n"
                    (Some ones_example) (Some (Arr1 [1%Qc])) (WScalar 1%Qc) None None "sum")
             (mkState [] []) 3 (Arr1 [1%Qc])); done.
  - apply (Hmode (mkArgs nodes_example arcs_example targets_example "n"
                    None None (WScalar 1%Qc) None None "bogus")
             (mkState [] []) 3); done.
  - apply (Hset 6 "bogus" store_example). reflexivity.
Defined.

(* ===================================================================== *)
(** * NodeGraph *)
(* ===================================================================== *)

Lemma dense_column_entries (w : Qc) (k n : nat) :
  w ≠ 0%Qc →
  mjoin (imap (λ i r, nonzero_of_row (k + i) r) (replicate n [w]))
  = (λ i, (Z.of_nat i, 0%Z, w)) <$> seq k n.
Proof.
  intros Hw. revert k. induction n as [|n IH]; intros k; [done|].
  cbn [replicate seq]. rewrite imap_cons, fmap_cons. cbn [mjoin list_join].
  rewrite Nat.add_0_r.
  assert (nonzero_of_row k [w] = [(Z.of_nat k, 0%Z, w)]) as ->.
  { unfold nonzero_of_row. cbn. unfold truthy.
    by rewrite bool_decide_eq_false_2. }
  cbn [app]. f_equal. rewrite <- IH. f_equal. apply imap_ext.
  intros i x _. cbv [compose]. by rewrite Nat.add_succ_r.
Qed.

(** [buildNodeGraph] for a graph-based problem, in closed form. *)
Lemma buildNodeGraph_g (nodes : ndarray) :
  shape0 nodes ≠ 0 →
  buildNodeGraph nodes "g"
  = coo_of_entries (shape0 nodes, 1)
      ((λ i, (Z.of_nat i, 0%Z, (1 / Qc_of_nat (shape0 nodes))%Qc)) <$> seq 0 (shape0 nodes)).
Proof.
  intros HN. unfold buildNodeGraph. rewrite decide_True by done.
  unfold coo_matrix_dense. rewrite length_replicate.
  rewrite Qcmult_1_l.
  by rewrite (dense_column_entries _ 0) by by apply Qc_inv_ne_0, Qc_of_nat_ne_0.
Qed.

Lemma entries_coo_of_entries (shape : nat * nat) (es : list (Z * Z * Qc)) :
  entries (coo_of_entries shape es) = es.
Proof.
  unfold entries, coo_of_entries. cbn [coo_row coo_col coo_data].
  induction es as [|[[r c] v] es IH]; [done|]. cbn. by rewrite IH.
Qed.

Lemma filter_all {A : Type} (P : A → Prop) `{!∀ x, Decision (P x)} (l : list A) :
  Forall P l → filter P l = l.
Proof.
  induction 1 as [|x l Hx _ IH]; [done|]. by rewrite filter_cons_True, IH.
Qed.

Lemma float32_1 : float32 1 = 1%Qc.
Proof. apply (bool_decide_unpack _). by vm_compute. Qed.

(** [buildNodeGraph_float32] for a graph-based problem, in closed form:
    up to 2^24 nodes their number is a float32 number, and the weight is
    the float32 number nearest to one over it. *)
Lemma buildNodeGraph_float32_g (nodes : ndarray) :
  shape0 nodes ≠ 0 → (Z.of_nat (shape0 nodes) ≤ 2 ^ 24)%Z →
  buildNodeGraph_float32 nodes "g"
  = coo_of_entries (shape0 nodes, 1)
      ((λ i, (Z.of_nat i, 0%Z, pooling_weight (shape0 nodes))) <$> seq 0 (shape0 nodes)).
Proof.
  intros HN Hb. unfold buildNodeGraph_float32. rewrite decide_True by done.
  cbn [map_array]. rewrite fmap_replicate. cbn [fmap list_fmap].
  rewrite Qcmult_1_l, float32_1, float32_nat, !float32_idemp by done.
  fold (pooling_weight (shape0 nodes)).
  unfold coo_matrix_dense. rewrite length_replicate.
  rewrite (dense_column_entries _ 0); [done|].
  apply float32_quotient_close; [done|lia].
Qed.

Lemma pools_buildNodeGraph_float32 (nodes : ndarray) :
  shape0 nodes ≠ 0 → (Z.of_nat (shape0 nodes) ≤ 2 ^ 24)%Z →
  pools (buildNodeGraph_float32 nodes "g") [shape0 nodes].
Proof.
  intros HN Hb. rewrite buildNodeGraph_float32_g by done.
  set (N := shape0 nodes).
  split; [|split].
  - cbn. by rewrite Nat.add_0_r.
  - unfold coo_valid_cols, coo_of_entries. cbn [coo_row coo_col coo_data coo_shape snd].
    rewrite !length_fmap. repeat split; [done..|].
    rewrite <- list_fmap_compose. apply Forall_fmap, Forall_forall.
    intros i _. cbn. lia.
  - intros [|k] n Hk; [|done]. injection Hk as <-.
    unfold col_entries. rewrite entries_coo_of_entries.
    by rewrite filter_all by by apply Forall_fmap, Forall_forall.
Qed.

(** The entries of a block-diagonal matrix, block by block. *)
Lemma entries_block_diag_cons (r0 c0 : nat) (m : coo) (ms : list coo) :
  length (coo_row m) = length (coo_data m) →
  length (coo_col m) = length (coo_data m) →
  entries (block_diag_from r0 c0 (m :: ms))
  = (shift_entry r0 c0 <$> entries m)
    ++ entries (block_diag_from (r0 + (coo_shape m).1) (c0 + (coo_shape m).2) ms).
Proof.
  intros Hr Hc. unfold entries. cbn [block_diag_from coo_row coo_col coo_data].
  rewrite !zip_with_app; rewrite ?length_fmap; try congruence.
  - f_equal. rewrite <- (list_fmap_id (coo_data m)) at 1.
    rewrite <- !prod_map_zip. apply list_fmap_ext. by intros i [[r c] v] _.
  - rewrite !length_zip_with, !length_fmap. lia.
Qed.

Lemma filter_shift_entry (r0 c0 : nat) (c : Z) (es : list (Z * Z * Qc)) :
  filter (λ e, e.1.2 = (c + Z.of_nat c0)%Z) (shift_entry r0 c0 <$> es)
  = shift_entry r0 c0 <$> filter (λ e, e.1.2 = c) es.
Proof.
  induction es as [|e es IH]; [done|].
  rewrite fmap_cons, !filter_cons. cbn [shift_entry fst snd].
  destruct (decide (e.1.2 + Z.of_nat c0 = c + Z.of_nat c0)%Z),
           (decide (e.1.2 = c)); try lia; rewrite IH; done.
Qed.

Lemma sum_list_app (l k : list nat) : sum_list (l ++ k) = sum_list l + sum_list k.
Proof. apply sum_list_with_app. Qed.

(** Pooling matrices along the diagonal pool the sub-graphs of all of
    them, in order. *)
Lemma pools_block_diag_from (r0 c0 : nat) (ms : list coo) (sizess : list (list nat)) :
  Forall2 pools ms sizess →
  let b := block_diag_from r0 c0 ms in
  coo_shape b = (r0 + sum_list (concat sizess), c0 + length (concat sizess))
  ∧ length (coo_row b) = length (coo_data b)
  ∧ length (coo_col b) = length (coo_data b)
  ∧ Forall (λ c, (Z.of_nat c0 ≤ c < Z.of_nat (c0 + length (concat sizess)))%Z) (coo_col b)
  ∧ ∀ k n, concat sizess !! k = Some n →
      col_entries b (Z.of_nat (c0 + k))
      = (λ i, (Z.of_nat (r0 + sum_list (take k (concat sizess)) + i),
               Z.of_nat (c0 + k), pooling_weight n)) <$> seq 0 n.
Proof.
  intros H. revert r0 c0. induction H as [|m sizes ms sizess Hm _ IH]; intros r0 c0.
  - cbn. rewrite !Nat.add_0_r. by repeat split.
  - destruct Hm as (Hshape & (Hr & Hc & Hcols) & Hpool).
    specialize (IH (r0 + (coo_shape m).1) (c0 + (coo_shape m).2)).
    cbn zeta in IH. destruct IH as (IHs & IHr & IHc & IHcols & IHpool).
    cbn zeta. split; [|split; [|split; [|split]]].
    + cbn [block_diag_from coo_shape concat].
      rewrite IHs, Hshape, sum_list_app, length_app. cbn [fst snd]. f_equal; lia.
    + cbn [block_diag_from coo_row coo_data].
      rewrite !length_app, length_fmap. lia.
    + cbn [block_diag_from coo_col coo_data].
      rewrite !length_app, length_fmap. lia.
    + cbn [block_diag_from coo_col concat].
      rewrite Hshape in *. cbn [fst snd] in *.
      rewrite length_app. apply Forall_app. split.
      * apply Forall_fmap. eapply Forall_impl; [exact Hcols|].
        intros c Hc'. cbv [compose]. cbv beta in Hc'. lia.
      * eapply Forall_impl; [exact IHcols|]. intros c ?. cbv beta in *. lia.
    + intros k n Hk. unfold col_entries.
      rewrite entries_block_diag_cons by done.
      rewrite Hshape in *. cbn [fst snd] in *. rewrite filter_app.
      cbn [concat] in Hk |- *.
      destruct (decide (k < length sizes)) as [Hlt|Hge].
      * rewrite lookup_app_l in Hk by done.
        pose proof (Hpool k n Hk) as Hcol. unfold col_entries in Hcol.
        rewrite (filter_none _ (entries (block_diag_from _ _ ms))).
        -- rewrite app_nil_r.
           replace (Z.of_nat (c0 + k)) with (Z.of_nat k + Z.of_nat c0)%Z by lia.
           rewrite filter_shift_entry, Hcol, <- list_fmap_compose.
           rewrite take_app_le by lia.
           apply list_fmap_ext. intros i x _. cbv [compose shift_entry]. cbn [fst snd].
           f_equal; f_equal; lia.
        -- apply Forall_forall. intros [[r c] v] He. cbn.
           unfold entries in He. apply elem_of_zip_l, elem_of_zip_r in He.
           rewrite Forall_forall in IHcols. specialize (IHcols c He).
           cbv beta in IHcols. lia.
      * rewrite lookup_app_r in Hk by lia.
        pose proof (IHpool _ n Hk) as Hcol. unfold col_entries in Hcol.
        rewrite (filter_none _ (shift_entry r0 c0 <$> entries m)).
        -- cbn [app].
           replace (c0 + length sizes + (k - length sizes)) with (c0 + k) in Hcol by lia.
           rewrite Hcol. rewrite take_app_ge by lia. rewrite sum_list_app.
           apply list_fmap_ext. intros i x _. cbv beta. f_equal; f_equal; lia.
        -- apply Forall_fmap, Forall_forall. intros [[r c] v] He. cbn.
           unfold entries in He. apply elem_of_zip_l, elem_of_zip_r in He.
           rewrite Forall_forall in Hcols. specialize (Hcols c He).
           cbv beta in Hcols. lia.
Qed.

Lemma pools_block_diag (ms : list coo) (sizess : list (list nat)) :
  Forall2 pools ms sizess → pools (block_diag ms) (concat sizess).
Proof.
  intros H. destruct (pools_block_diag_from 0 0 ms sizess H)
    as (Hs & Hr & Hc & Hcols & Hpool).
  split; [done|]. split; [|exact Hpool].
  repeat split; [done..|]. unfold block_diag. by rewrite Hs.
Qed.

(** The column of a sub-graph in a pooling matrix: its rows are the nodes
    of the sub-graph, each once; its weights are equal and not zero; their
    sum is the node count times the weight, which is 1 within [2^-24]. *)
Lemma pools_column (m : coo) (sizes : list nat) (k n : nat) :
  pools m sizes → sizes !! k = Some n → n ≠ 0 → (Z.of_nat n ≤ 2 ^ 63)%Z →
  length (col_entries m (Z.of_nat k)) = n
  ∧ (λ e : Z * Z * Qc, e.1.1) <$> col_entries m (Z.of_nat k)
    = Z.of_nat <$> seq (sum_list (take k sizes)) n
  ∧ Forall (λ e, e.2 = pooling_weight n) (col_entries m (Z.of_nat k))
  ∧ pooling_weight n ≠ 0%Qc
  ∧ col_sum m (Z.of_nat k) = (Qc_of_nat n * pooling_weight n)%Qc
  ∧ (Q2Qc (16777215 # 16777216) ≤ col_sum m (Z.of_nat k)
     ∧ col_sum m (Z.of_nat k) ≤ Q2Qc (16777217 # 16777216))%Qc.
Proof.
  intros (_ & _ & Hpool) Hk Hn Hb. pose proof (Hpool k n Hk) as Hcol.
  destruct (float32_quotient_close n Hn Hb) as (Hne & Hlo & Hhi).
  fold (pooling_weight n) in Hne, Hlo, Hhi.
  assert (Forall (λ e : Z * Z * Qc, e.2 = pooling_weight n) (col_entries m (Z.of_nat k)))
    as Hval by (rewrite Hcol; by apply Forall_fmap, Forall_forall).
  assert (col_sum m (Z.of_nat k) = (Qc_of_nat n * pooling_weight n)%Qc) as Hsum.
  { unfold col_sum. rewrite (sumQc_constant (pooling_weight n)).
    - by rewrite length_fmap, Hcol, length_fmap, length_seq.
    - by apply Forall_fmap. }
  split; [by rewrite Hcol, length_fmap, length_seq|]. split.
  { rewrite Hcol, <- list_fmap_compose.
    replace (seq (sum_list (take k sizes)) n)
      with (Nat.add (sum_list (take k sizes)) <$> seq 0 n)
      by (by rewrite fmap_add_seq, Nat.add_0_r).
    by rewrite <- list_fmap_compose. }
  split; [done|]. split; [done|]. split; [done|].
  pose proof (Qc_of_nat_ne_0 n Hn) as Hn0.
  assert (0 ≤ Qc_of_nat n)%Qc as Hpos.
  { unfold Qc_of_nat. rewrite <- Z2Qc_inj_0.
    apply (proj1 (Z2Qc_inj_le 0 (Z.of_nat n))). lia. }
  rewrite Hsum. split.
  - replace (Q2Qc (16777215 # 16777216))
      with (Qc_of_nat n * (1 / Qc_of_nat n * Q2Qc (16777215 # 16777216)))%Qc
      by (by field).
    by apply Qcmult_le_mono_nonneg_l.
  - replace (Q2Qc (16777217 # 16777216))
      with (Qc_of_nat n * (1 / Qc_of_nat n * Q2Qc (16777217 # 16777216)))%Qc
      by (by field).
    by apply Qcmult_le_mono_nonneg_l.
Qed.
(** C8, as the code has it. In a graph-based graph the NodeGraph matrix has
    one column per sub-graph, and each column stores one entry for each
    node of its sub-graph, in the row of that node; the entry is the
    float32 number nearest to one over the node count of the sub-graph. So
    the entries of a column are as many as the nodes of the sub-graph, and
    they add up to the node count times that weight, which is 1 within
    [2^-24], and not to the node count. This holds for the matrix that
    [buildNodeGraph] builds for a single graph (of up to 2^24 nodes, whose
    number is a float32 number), is kept by the block-diagonal composition
    of [merge], holds for the graph that [merge] returns for two such
    graphs, and gives the columns and their sums. *)
Theorem nodegraph_columns :
  (∀ nodes, shape0 nodes ≠ 0 → (Z.of_nat (shape0 nodes) ≤ 2 ^ 24)%Z →
     pools (buildNodeGraph_float32 nodes "g") [shape0 nodes])
  ∧ (∀ ms sizess, Forall2 pools ms sizess → pools (block_diag ms) (concat sizess))
  ∧ (∀ σ i1 i2 G1 G2 sizes1 sizes2 pb mode,
       contents (heap σ) i1 = Some G1 → contents (heap σ) i2 = Some G2 →
       well_formed G1 → well_formed G2 → compatible G1 G2 →
       recognized mode = true →
       pools (c_NodeGraph G1) sizes1 → pools (c_NodeGraph G2) sizes2 →
       ∃ l σ' G, merge [PGraph i1; PGraph i2] pb mode σ = (Ok l, σ')
               ∧ contents (heap σ') l = Some G
               ∧ pools (c_NodeGraph G) (sizes1 ++ sizes2))
  ∧ (∀ m sizes k n,
       pools m sizes → sizes !! k = Some n → n ≠ 0 → (Z.of_nat n ≤ 2 ^ 63)%Z →
       length (col_entries m (Z.of_nat k)) = n
       ∧ (λ e : Z * Z * Qc, e.1.1) <$> col_entries m (Z.of_nat k)
         = Z.of_nat <$> seq (sum_list (take k sizes)) n
       ∧ Forall (λ e, e.2 = float32 (1 / Qc_of_nat n)%Qc) (col_entries m (Z.of_nat k))
       ∧ float32 (1 / Qc_of_nat n)%Qc ≠ 0%Qc
       ∧ col_sum m (Z.of_nat k) = (Qc_of_nat n * float32 (1 / Qc_of_nat n))%Qc
       ∧ (Q2Qc (16777215 # 16777216) ≤ col_sum m (Z.of_nat k)
          ∧ col_sum m (Z.of_nat k) ≤ Q2Qc (16777217 # 16777216))%Qc).
Proof.
  split; [exact pools_buildNodeGraph_float32|]. split; [exact pools_block_diag|]. split.
  - intros σ i1 i2 G1 G2 sizes1 sizes2 pb mode H1 H2 W1 W2 HC Hmode P1 P2.
    destruct (merge_two_run σ i1 i2 G1 G2 pb mode H1 H2 W1 W2 HC Hmode)
      as (l & σ' & G & Hrun & HG & _ & _ & _ & _ & _ & _ & _ & Hng & _).
    exists l, σ', G. split; [done|]. split; [done|]. rewrite Hng.
    replace (sizes1 ++ sizes2) with (concat [sizes1; sizes2])
      by (cbn; by rewrite app_nil_r).
    apply pools_block_diag. constructor; [done|]. constructor; [done|]. constructor.
  - intros m sizes k n Hm Hk Hn Hb. by apply (pools_column m sizes k n).
Qed.

Lemma pooled_float32_example_well_formed : well_formed pooled_float32_example.
Proof.
  split; cbn; try done.
  - exists 3. by split; [|lia].
  - by repeat constructor.
  - repeat constructor; cbn; try apply integral_of_Z;
      rewrite trunc_of_Z; lia.
Qed.

Lemma nodegraph_columns_witness :
  pools (buildNodeGraph_float32 nodes_example "g") [shape0 nodes_example]
  ∧ (length (col_entries (buildNodeGraph_float32 nodes_example "g") (Z.of_nat 0)) = 3
     ∧ (λ e : Z * Z * Qc, e.1.1)
         <$> col_entries (buildNodeGraph_float32 nodes_example "g") (Z.of_nat 0)
       = Z.of_nat <$> seq (sum_list (take 0 [shape0 nodes_example])) 3
     ∧ Forall (λ e, e.2 = float32 (1 / Qc_of_nat 3)%Qc)
              (col_entries (buildNodeGraph_float32 nodes_example "g") (Z.of_nat 0))
     ∧ float32 (1 / Qc_of_nat 3)%Qc ≠ 0%Qc
     ∧ col_sum (buildNodeGraph_float32 nodes_example "g") (Z.of_nat 0)
       = (Qc_of_nat 3 * float32 (1 / Qc_of_nat 3))%Qc
     ∧ (Q2Qc (16777215 # 16777216)
        ≤ col_sum (buildNodeGraph_float32 nodes_example "g") (Z.of_nat 0)
        ∧ col_sum (buildNodeGraph_float32 nodes_example "g") (Z.of_nat 0)
          ≤ Q2Qc (16777217 # 16777216))%Qc)
  ∧ (∃ l σ' G,
       merge [PGraph 6; PGraph 13] "g" "sum" store_pooled_float32 = (Ok l, σ')
       ∧ contents (heap σ') l = Some G
       ∧ pools (c_NodeGraph G) ([3] ++ [3])
       ∧ (λ e : Z * Z * Qc, e.1.1) <$> col_entries (c_NodeGraph G) (Z.of_nat 1)
         = [3; 4; 5]%Z).
Proof.
  destruct nodegraph_columns as (Hsingle & _ & Hmerge & Hcols).
  assert (pools (buildNodeGraph_float32 nodes_example "g") [shape0 nodes_example]) as Hp.
  { apply (Hsingle nodes_example); cbn; lia. }
  split; [exact Hp|]. split.
  - apply (Hcols (buildNodeGraph_float32 nodes_example "g") [shape0 nodes_example] 0 3 Hp).
    + reflexivity.
    + lia.
    + lia.
  - destruct (Hmerge store_pooled_float32 6 13 pooled_float32_example pooled_float32_example [3] [3] "g" "sum")
      as (l & σ' & G & Hrun & HG & HP).
    + reflexivity.
    + reflexivity.
    + exact pooled_float32_example_well_formed.
    + exact pooled_float32_example_well_formed.
    + by repeat split.
    + reflexivity.
    + exact Hp.
    + exact Hp.
    + exists l, σ', G. split; [exact Hrun|]. split; [exact HG|]. split; [exact HP|].
      destruct (Hcols (c_NodeGraph G) ([3] ++ [3]) 1 3 HP) as (_ & Hrows & _).
      * reflexivity.
      * lia.
      * lia.
      * exact Hrows.
Defined.

(** C8 as stated fails: the three nodes of the worked example map to
    sub-graph 0, and column 0 of its NodeGraph stores three times
    11184811/33554432, the float32 number nearest to 1/3, in the rows 0, 1
    and 2; its sum is 33554433/33554432 and not 3. *)
Lemma nodegraph_column_sum_counterexample :
  buildNodeGraph_float32 nodes_example "g"
  = Coo (3, 1) [0; 1; 2]%Z [0; 0; 0]%Z (replicate 3 (Q2Qc (11184811 # 33554432)))
  ∧ length (col_entries (buildNodeGraph_float32 nodes_example "g") 0%Z) = 3
  ∧ col_sum (buildNodeGraph_float32 nodes_example "g") 0%Z = Q2Qc (33554433 # 33554432)
  ∧ col_sum (buildNodeGraph_float32 nodes_example "g") 0%Z ≠ Qc_of_nat 3.
Proof.
  assert (buildNodeGraph_float32 nodes_example "g"
          = Coo (3, 1) [0; 1; 2]%Z [0; 0; 0]%Z
                (replicate 3 (Q2Qc (11184811 # 33554432)))) as E.
  { apply (bool_decide_unpack _). by vm_compute. }
  split; [exact E|]. rewrite E.
  split; [reflexivity|]. split; apply (bool_decide_unpack _); by vm_compute.
Qed.

(* ===================================================================== *)
(** * GraphTensor *)
(* ===================================================================== *)

#[local] Instance index_le_total : Total index_le.
Proof. intros [a b] [c d]. unfold index_le. cbn. lia. Qed.

#[local] Instance entry_le_total : Total entry_le.
Proof. intros e f. apply index_le_total. Qed.

Lemma tf_sparse_reorder_reordered (idx : list (Z * Z)) (vals : list Qc)
    (shape : nat * nat) (m : coo) :
  length idx = length vals → zip idx vals = entries m → shape = coo_shape m →
  reordered m (tf_sparse_reorder (mkSparseTensor idx vals shape)).
Proof.
  intros Hlen Hzip ->. unfold tf_sparse_reorder, reordered.
  cbn [indices values dense_shape].
  split; [|split; [|split]].
  - eapply Sorted_fmap; [|apply (Sorted_merge_sort entry_le)]. by intros e f.
  - by rewrite !length_fmap.
  - rewrite zip_fst_snd, merge_sort_Permutation. by rewrite Hzip.
  - done.
Qed.

(** A matrix that passed scipy's checks and stores an entry, or has a zero
    dimension, converts, and the tensor holds its entries in row-major index
    order. *)
Lemma COO2SparseTensor_reordered (m : coo) :
  convertible m →
  ∃ t, COO2SparseTensor m = Ok t ∧ reordered m t.
Proof.
  intros [(_ & Hr & Hc & Hrow & Hcol)%coo_check_inv Hne].
  unfold COO2SparseTensor. case_bool_decide as Hshape; cbn [negb].
  - destruct Hshape as [H1 H2]. specialize (Hne H1 H2).
    assert (length (zip (coo_row m) (coo_col m)) = length (coo_data m)) as Hlen
      by (rewrite length_zip_with; lia).
    unfold tf_SparseTensor, tf_indices.
    assert (zip (zip (coo_row m) (coo_col m)) (coo_data m) = entries m) as Hent by done.
    destruct (zip (coo_row m) (coo_col m)) as [|i idx] eqn:Hzip.
    { destruct (coo_data m); [done|discriminate Hlen]. }
    cbn [rbind]. rewrite decide_True by done.
    eexists. split; [done|]. by apply tf_sparse_reorder_reordered.
  - assert (coo_data m = []) as Hdata.
    { apply length_zero_iff_nil.
      destruct (decide ((coo_shape m).1 = 0)) as [H0|H0].
      - rewrite <- Hr. destruct (coo_row m) as [|r rows]; [done|].
        apply Forall_cons in Hrow as [? _]. lia.
      - rewrite <- Hc. destruct (coo_col m) as [|c cols]; [done|].
        apply Forall_cons in Hcol as [? _].
        assert ((coo_shape m).2 = 0) by (destruct (decide ((coo_shape m).2 = 0)); tauto).
        lia. }
    unfold tf_SparseTensor, tf_indices. cbn [rbind].
    rewrite Hdata. cbn [length]. rewrite decide_True by done.
    eexists. split; [done|].
    apply tf_sparse_reorder_reordered; [done| |done].
    unfold entries. rewrite Hdata. by destruct (zip (coo_row m) (coo_col m)).
Qed.


(** A matrix of nonzero dimensions without a stored entry does not convert:
    the empty list of indices has rank 1. *)
Lemma COO2SparseTensor_no_entries :
  COO2SparseTensor (Coo (2, 2) [] [] [])
  = Raise (ValueError "Shape (0,) must have rank 2").
Proof. reflexivity. Qed.

Lemma example_checks :
  convertible (c_Adjacency graph_example)
  ∧ convertible (c_ArcNode graph_example)
  ∧ convertible (c_NodeGraph graph_example).
Proof. unfold convertible. by repeat split. Qed.



(* ===================================================================== *)
(** * Persistence *)
(* ===================================================================== *)

(** The binary codec gives the weighted example back as it was. *)
Lemma save_load_example :
  contents (heap store_weighted) 6 = Some weighted_example
  ∧ contents_after (save 6 "graph";; load "graph" "n" "sum") store_weighted
    = Some weighted_example.
Proof. split; [reflexivity|]. apply (bool_decide_unpack _). by vm_compute. Qed.

(** C5 fails for the text codec. The sample weights 2, 3, 4 are written one
    per line and read back, with [ndmin=2], as a 3 by 1 column; the
    constructor's product with [np.ones(3)] broadcasts it to a 3 by 3
    matrix. The format is exact on these numbers. *)
Lemma savetxt_load_txt_sample_weights :
  c_sample_weights weighted_example = Arr1 [Qc_of_Z 2; Qc_of_Z 3; Qc_of_Z 4]
  ∧ c_sample_weights
      <$> contents_after (savetxt 6 "graph" (λ x, x);; load_txt "graph" "n" "sum")
            store_weighted
    = Some (Arr2 3 [[Qc_of_Z 2; Qc_of_Z 2; Qc_of_Z 2];
                    [Qc_of_Z 3; Qc_of_Z 3; Qc_of_Z 3];
                    [Qc_of_Z 4; Qc_of_Z 4; Qc_of_Z 4]]).
Proof. split; [reflexivity|]. apply (bool_decide_unpack _). by vm_compute. Qed.

Lemma prefix_refl (s : string) : String.prefix s s = true.
Proof.
  induction s as [|a s IH]; [done|]. cbn.
  by destruct (Ascii.ascii_dec a a).
Qed.

Lemma folder_path_Ok (path : string) :
  path ≠ "" → ∃ p, folder_path path = Ok p ∧ folder_path p = Ok p.
Proof.
  intros Hne. unfold folder_path.
  destruct (last_char path) as [c|] eqn:Hc.
  - destruct (Ascii.eqb c "/") eqn:Hs.
    + exists path. by rewrite Hc, Hs.
    + exists (path +:+ "/"). split; [done|].
      assert (last_char (path +:+ "/") = Some "/"%char) as ->.
      { clear. induction path as [|a [|b s] IH]; [done..|].
        cbn [String.app last_char] in *. exact IH. }
      done.
  - destruct path as [|a s]; [done|]. exfalso. clear Hne.
    revert a Hc. induction s as [|b s IH]; intros a Hc; [done|].
    cbn [last_char] in Hc. by eapply IH.
Qed.

Lemma reset_folder_run (h : list cell) (d : list (string * directory)) (p : string) :
  reset_folder p (mkState h d)
  = (Ok tt, mkState h ((p, []) :: filter (λ e, String.prefix p e.1 = false) d)).
Proof. done. Qed.

Lemma filter_prefix_other (p : string) (d : list (string * directory)) :
  Forall (λ e, e.1 ≠ p) (filter (λ e : string * directory, String.prefix p e.1 = false) d).
Proof.
  apply Forall_forall. intros e [He _]%list_elem_of_filter Heq.
  rewrite Heq, prefix_refl in He. done.
Qed.

Lemma write_file_head (h : list cell) (p : string) (fs : directory)
    (rest : list (string * directory)) (name : string) (f : file) :
  Forall (λ e, e.1 ≠ p) rest →
  write_file p name f (mkState h ((p, fs) :: rest))
  = (Ok tt, mkState h ((p, fs ++ [(name, f)]) :: rest)).
Proof.
  intros Hrest. unfold write_file, bind, get_disk, lookup_dir. cbn [disk list_find fst].
  rewrite decide_True by done. cbn [fmap option_fmap option_map snd].
  unfold set_disk. cbn [heap]. rewrite fmap_cons. cbn [fst snd].
  rewrite decide_True by done. do 3 f_equal.
  rewrite <- (list_fmap_id rest) at 2. apply list_fmap_ext.
  intros i e He. rewrite Forall_forall in Hrest.
  rewrite decide_False; [done|]. apply Hrest. by eapply list_elem_of_lookup_2.
Qed.

Lemma write_optional (h : list cell) (p : string) (fs : directory)
    (rest : list (string * directory)) (b : bool) (name : string) (f : file) :
  Forall (λ e, e.1 ≠ p) rest →
  (if b then write_file p name f else ret tt) (mkState h ((p, fs) :: rest))
  = (Ok tt, mkState h ((p, fs ++ optional_file b name f) :: rest)).
Proof.
  intros Hrest. destruct b; cbn [optional_file].
  - by apply write_file_head.
  - by rewrite app_nil_r.
Qed.

Lemma listdir_head (h : list cell) (p : string) (fs : directory)
    (rest : list (string * directory)) :
  listdir p (mkState h ((p, fs) :: rest)) = (Ok fs, mkState h ((p, fs) :: rest)).
Proof.
  unfold listdir, bind, get_disk, lookup_dir. cbn [disk list_find fst].
  by rewrite decide_True by done.
Qed.

(** What [save] leaves on the disk. *)
Lemma save_with_run (put : ndarray → file) (ext path p : string) (h : list cell)
    (d : list (string * directory)) (g : loc) (G : graph_contents) :
  contents h g = Some G →
  is_vector (c_set_mask G) → is_vector (c_output_mask G) →
  (nodegraph_saved G = true →
     length (coo_row (c_NodeGraph G)) = length (coo_data (c_NodeGraph G))
     ∧ length (coo_col (c_NodeGraph G)) = length (coo_data (c_NodeGraph G))) →
  folder_path path = Ok p →
  save_with put ext path g (mkState h d)
  = (Ok tt, mkState h ((p, saved_directory put ext G)
                       :: filter (λ e, String.prefix p e.1 = false) d)).
Proof.
  intros (go & Hg & Hn & Ha & Ht & Hsm & Hom & Hsw & _ & _ & _ & Hng)%contents_inv
         Vsm Vom Hstack Hp.
  pose proof (filter_prefix_other p d) as Hrest.
  set (rest := filter _ d) in *.
  unfold save_with.
  rewrite (bind_lift _ _ _ _ Hp).
  rewrite (bind_run _ _ _ _ _ (reset_folder_run h d p)). fold rest.
  rewrite (bind_run _ _ _ _ _ (read_graph_run h _ g go Hg)).
  rewrite (bind_run _ _ _ _ _ (read_array_run h _ _ _ Ha)).
  rewrite (bind_run _ _ _ _ _ (write_file_head h p _ rest _ _ Hrest)).
  rewrite (bind_run _ _ _ _ _ (read_array_run h _ _ _ Hn)).
  rewrite (bind_run _ _ _ _ _ (write_file_head h p _ rest _ _ Hrest)).
  rewrite (bind_run _ _ _ _ _ (read_array_run h _ _ _ Ht)).
  rewrite (bind_run _ _ _ _ _ (write_file_head h p _ rest _ _ Hrest)).
  rewrite (bind_run _ _ _ _ _ (read_array_run h _ _ _ Hsm)).
  destruct (c_set_mask G) as [sm|] eqn:Esm; [|done].
  destruct (c_output_mask G) as [om|] eqn:Eom; [|done].
  rewrite (bind_lift (py_all (Arr1 sm)) _ _ _ eq_refl).
  rewrite (bind_run _ _ _ _ _ (write_optional h p _ rest _ _ _ Hrest)).
  rewrite (bind_run _ _ _ _ _ (read_array_run h _ _ _ Hom)).
  rewrite (bind_lift (py_all (Arr1 om)) _ _ _ eq_refl).
  rewrite (bind_run _ _ _ _ _ (write_optional h p _ rest _ _ _ Hrest)).
  rewrite (bind_run _ _ _ _ _ (read_array_run h _ _ _ Hsw)).
  rewrite (bind_run _ _ _ _ _ (write_optional h p _ rest _ _ _ Hrest)).
  rewrite Hng. fold (nodegraph_saved G) in *.
  unfold saved_directory. rewrite Esm, Eom. cbn [elements_of app].
  rewrite <- !app_assoc. cbn [app].
  change (bool_decide _ && bool_decide _) with (nodegraph_saved G).
  destruct (nodegraph_saved G) eqn:Hs; cbn [optional_file].
  - destruct (Hstack eq_refl) as [Hr Hc].
    assert (stack_coo (c_NodeGraph G) = Ok (stacked (c_NodeGraph G))) as Hst.
    { unfold stack_coo. by rewrite bool_decide_eq_true_2. }
    rewrite (bind_lift _ _ _ _ Hst).
    rewrite (write_file_head h p _ rest _ _ Hrest).
    cbn [app]. by rewrite <- !app_assoc.
  - cbn [ret]. by rewrite !app_nil_r.
Qed.

Lemma max_index_above (l : list Z) :
  Forall (λ r, (0 ≤ r)%Z) l →
  Forall (λ r, (0 ≤ r < Z.of_nat (Z.to_nat (max_index l + 1)))%Z) l.
Proof.
  intros H. assert (Forall (λ r, (0 ≤ r ≤ max_index l)%Z) l) as Hmax.
  { induction H as [|r l Hr _ IH]; [done|].
    unfold max_index. cbn [foldr]. fold (max_index l). constructor.
    - lia.
    - eapply Forall_impl; [exact IH|]. intros x ?. cbv beta in *. lia. }
  eapply Forall_impl; [exact Hmax|]. intros r Hr. cbv beta in *. lia.
Qed.

Lemma fmap_trunc_of_Z (l : list Z) : Qc_trunc <$> (Qc_of_Z <$> l) = l.
Proof.
  rewrite <- list_fmap_compose. rewrite <- (list_fmap_id l) at 2.
  apply list_fmap_ext. intros i z _. apply trunc_of_Z.
Qed.

(** A storable matrix comes back from its stacked form. *)
Lemma coo_of_stacked_storable (m : coo) :
  storable m → coo_of_stacked (stacked m) = Ok (reloaded m).
Proof.
  intros (Hr & Hc & Hrow & Hcol & Hne). unfold coo_of_stacked, stacked.
  rewrite !fmap_trunc_of_Z. unfold coo_matrix_infer.
  destruct (coo_row m) as [|r rows] eqn:Er.
  { destruct (coo_data m); [done|]. cbn in Hr. lia. }
  destruct (coo_col m) as [|c cols] eqn:Ec.
  { destruct (coo_data m); [done|]. cbn in Hc. lia. }
  unfold reloaded. rewrite Er, Ec.
  apply coo_check_ok; cbn [coo_row coo_col coo_data coo_shape fst snd]; try done.
  - by apply max_index_above.
  - by apply max_index_above.
Qed.

(** What [load] does with a directory written by [save]. *)
Lemma load_run (path p problem_based aggregation_mode : string) (h : list cell)
    (rest : list (string * directory)) (G : graph_contents) :
  folder_path path = Ok p →
  (nodegraph_saved G = true → storable (c_NodeGraph G)) →
  load path problem_based aggregation_mode
    (mkState h ((p, saved_directory np_save ".npy" G) :: rest))
  = GraphObject_init (loaded_args G problem_based aggregation_mode)
      (mkState h ((p, saved_directory np_save ".npy" G) :: rest)).
Proof.
  intros Hp Hng. unfold load, load_with.
  rewrite (bind_lift _ _ _ _ Hp).
  rewrite (bind_run _ _ _ _ _ (listdir_head h p _ rest)).
  unfold saved_directory, loaded_args.
  destruct (negb (forallb truthy (elements_of (c_set_mask G)))),
           (negb (forallb truthy (elements_of (c_output_mask G)))),
           (any_ne_one (c_sample_weights G));
    cbn [optional_file app];
    (destruct (nodegraph_saved G) eqn:Hs;
     [ specialize (Hng eq_refl); apply coo_of_stacked_storable in Hng;
       cbn [optional_file app];
       (erewrite bind_lift; [|reflexivity]); cbv zeta;
       match goal with
       | |- context [dict_get "NodeGraph" ?ps] =>
           change (dict_get "NodeGraph" ps) with (Some (stacked (c_NodeGraph G)))
       end;
       cbv beta iota; rewrite Hng; reflexivity
     | cbn [optional_file app]; reflexivity ]).
Qed.

Lemma bool_all_ones (v : list Qc) :
  is_bool_array (Arr1 v) → forallb truthy v = true → v = replicate (length v) 1%Qc.
Proof.
  unfold is_bool_array. cbn. intros [= Hb] Hall.
  induction v as [|x v IH]; [done|].
  cbn in Hb, Hall. apply andb_true_iff in Hall as [Hx Hv].
  injection Hb as Hbx Hbv. rewrite Hx in Hbx. cbn in Hbx. subst x.
  cbn. f_equal. by apply IH.
Qed.

Lemma all_one (v : list Qc) :
  any_ne_one (Arr1 v) = false → v = replicate (length v) 1%Qc.
Proof.
  cbn. induction v as [|x v IH]; [done|]. cbn.
  intros [Hx Hv]%orb_false_iff. apply negb_false_iff, bool_decide_eq_true in Hx.
  subst x. f_equal. by apply IH.
Qed.

Lemma fmap_mult_ones (n : nat) :
  Qcmult 1%Qc <$> replicate n 1%Qc = replicate n 1%Qc.
Proof. rewrite fmap_replicate. by rewrite Qcmult_1_l. Qed.

(** The constructor, on the arguments that [load] assembles from a saved
    well-formed graph, rebuilds the six arrays of the graph. *)
Lemma init_contents_loaded (G : graph_contents) (pb mode : string) :
  well_formed G →
  recognized mode = true →
  lenMask (c_nodes G) (c_arcs G) pb = Ok (shape0 (c_set_mask G)) →
  ∃ G' dims,
    init_contents (loaded_args G pb mode) = Ok (G', dims)
    ∧ c_nodes G' = c_nodes G ∧ c_arcs G' = c_arcs G ∧ c_targets G' = c_targets G
    ∧ c_set_mask G' = c_set_mask G ∧ c_output_mask G' = c_output_mask G
    ∧ c_sample_weights G' = c_sample_weights G
    ∧ c_aggregation_mode G' = mode.
Proof.
  intros W Hmode Hlen.
  destruct (well_formed_inv G W)
    as (cn & n & ca & a & ct & t & sm & om & sw
        & (En & Ea & Et & Esm & Eom & Esw)
        & Hca & Hne & Hsh & Hend & Hb & Hbo & Hm & Hw).
  unfold init_contents, loaded_args.
  cbn [arg_nodes arg_arcs arg_targets arg_problem_based arg_set_mask
       arg_output_mask arg_sample_weights arg_NodeGraph arg_ArcNode
       arg_aggregation_mode].
  rewrite Hlen. rewrite En, Ea, Et, Esm, Eom, Esw. rewrite !astype_float_id.
  cbn [shape0 shape1 elements_of].
  assert (mul_ones (if any_ne_one (Arr1 sw) then WArray (Arr1 sw) else WScalar 1%Qc)
            (length t) = Ok (Arr1 sw)) as ->.
  { destruct (any_ne_one (Arr1 sw)) eqn:Hany; cbn [mul_ones].
    - by rewrite mul_row_ones.
    - rewrite fmap_mult_ones, <- Hw. by rewrite <- all_one. }
  cbn [rbind].
  assert (forallb truthy sm = true → np_ones (length sm) = Arr1 sm) as Hsm1.
  { intros ?. unfold np_ones. by rewrite <- bool_all_ones. }
  assert (forallb truthy om = true → np_ones (length sm) = Arr1 om) as Hom1.
  { intros ?. unfold np_ones. rewrite Hm. by rewrite <- bool_all_ones. }
  unfold is_bool_array in Hb, Hbo.
  assert (∃ an adj,
            (try! arcnode ← buildArcNode (Arr2 ca a) (Arr2 cn n) mode;
             try! adjacency ← buildAdjacency (Arr2 ca a) (Arr2 cn n) arcnode;
             Ok (arcnode, adjacency)) = Ok (an, adj)) as (an & adj & Hbuild).
  { erewrite buildArcNode_eq; [|by apply column_1_rows| |].
    - cbn [rbind]. erewrite buildAdjacency_eq; [|done|done| |done].
      + cbn [rbind]. by eexists _, _.
      + cbn [coo_data]. by rewrite !length_fmap.
    - unfold indices_below. cbn [shape0]. apply Forall_fmap.
      eapply Forall_impl; [exact Hend|]. by intros r (_ & _ & _ & ?).
    - intros _ H. by apply fmap_nil_inv in H. }
  destruct (forallb truthy sm) eqn:E1, (forallb truthy om) eqn:E2;
    cbn [negb rbind];
    rewrite ?Hb, ?Hbo, ?(Hsm1 eq_refl); cbn [shape0];
    rewrite ?(Hom1 eq_refl); cbn [shape0];
    rewrite bool_decide_eq_true_2 by done; rewrite Hmode; cbn [negb rbind].
  all: destruct (buildArcNode (Arr2 ca a) (Arr2 cn n) mode) as [an'|]; [|done].
  all: cbn [rbind] in Hbuild |- *.
  all: destruct (buildAdjacency (Arr2 ca a) (Arr2 cn n) an') as [adj'|]; [|done].
  all: cbn [rbind]. all: eexists _, _. all: split; [reflexivity|]. all: by repeat split.
Qed.

(** The binary codec: [save] followed by [load], with the problem type the
    graph was built for, gives back a graph with the same nodes, arcs,
    targets, masks and sample weights, also when the masks and weights
    were default and left out of the directory. *)
Lemma save_load_roundtrip (h : list cell) (d : list (string * directory))
    (path pb mode : string) (g : loc) (G : graph_contents) :
  contents h g = Some G →
  well_formed G →
  path ≠ "" →
  recognized mode = true →
  lenMask (c_nodes G) (c_arcs G) pb = Ok (shape0 (c_set_mask G)) →
  (nodegraph_saved G = true → storable (c_NodeGraph G)) →
  ∃ G',
    contents_after (save g path;; load path pb mode) (mkState h d) = Some G'
    ∧ c_nodes G' = c_nodes G ∧ c_arcs G' = c_arcs G ∧ c_targets G' = c_targets G
    ∧ c_set_mask G' = c_set_mask G ∧ c_output_mask G' = c_output_mask G
    ∧ c_sample_weights G' = c_sample_weights G
    ∧ c_aggregation_mode G' = mode.
Proof.
  intros HG W Hpath Hmode Hlen Hng.
  destruct (folder_path_Ok path Hpath) as (p & Hp & _).
  destruct (init_contents_loaded G pb mode W Hmode Hlen) as (G' & dims & Hinit & Hfields).
  exists G'. split; [|exact Hfields].
  unfold contents_after, save, save_graph.
  assert (save_with np_save ".npy" path g (mkState h d)
          = (Ok tt, mkState h ((p, saved_directory np_save ".npy" G)
                               :: filter (λ e, String.prefix p e.1 = false) d))) as Hsave.
  { apply save_with_run; [done|apply W|apply W| |done].
    intros Hs. destruct (Hng Hs) as (? & ? & _). done. }
  rewrite (bind_run _ _ _ _ _ Hsave).
  rewrite (load_run path p pb mode h _ G Hp Hng).
  pose proof (GraphObject_init_run (loaded_args G pb mode)
                (mkState h ((p, saved_directory np_save ".npy" G)
                            :: filter (λ e, String.prefix p e.1 = false) d))) as Hrun.
  rewrite Hinit in Hrun. rewrite Hrun. cbn [heap]. apply contents_init_cells.
Qed.

(* ===================================================================== *)
(** * The incidence matrix: when it is built, and the 'sum' mode *)
(* ===================================================================== *)

Lemma coo_check_raises (m : coo) (e : exn) :
  coo_check m = Raise e → ∃ msg, e = ValueError msg.
Proof.
  unfold coo_check. repeat case_bool_decide; cbn [negb]; intros [= <-]; by eexists.
Qed.

(** X1. [buildArcNode] returns a matrix exactly when the arcs have a
    destination column whose indices all name a node and, under
    'normalized', there is at least one arc. With a destination column,
    'normalized' over no arc at all raises ZeroDivisionError, and an index
    that names no node raises a ValueError. *)
Theorem buildArcNode_returns_iff (arcs nodes : ndarray) (mode : string) :
  ((∃ m, buildArcNode arcs nodes mode = Ok m)
   ↔ ∃ col, column 1 arcs = Ok col ∧ indices_below (shape0 nodes) col
            ∧ (mode = "normalized" → col ≠ []))
  ∧ (column 1 arcs = Ok [] →
     buildArcNode arcs nodes "normalized"
     = Raise (ZeroDivisionError "division by zero"))
  ∧ (∀ col, column 1 arcs = Ok col → col ≠ [] →
       ¬ indices_below (shape0 nodes) col →
       ∃ msg, buildArcNode arcs nodes mode = Raise (ValueError msg)).
Proof.
  split; [split|split].
  - intros [m Hm]. by eapply buildArcNode_Ok_inv.
  - intros (col & H1 & H2 & H3). eexists. by apply buildArcNode_eq.
  - intros Hcol. unfold buildArcNode. by rewrite Hcol.
  - intros col Hcol Hne Hout.
    destruct (buildArcNode arcs nodes mode) as [m|e] eqn:Hb.
    + apply buildArcNode_Ok_inv in Hb as (col' & Hcol' & Hin & _).
      rewrite Hcol in Hcol'. by injection Hcol' as <-.
    + unfold buildArcNode in Hb. rewrite Hcol in Hb. cbn [rbind] in Hb.
      rewrite (buildArcNode_values mode col (λ _, Hne)) in Hb. cbn [rbind] in Hb.
      apply coo_check_raises in Hb as [msg ->]. by exists msg.
Qed.

Lemma arc_weight_sum (mode : string) (col : list Qc) (d : Qc) :
  mode ≠ "normalized" → mode ≠ "average" → arc_weight mode col d = 1%Qc.
Proof. intros H1 H2. unfold arc_weight. by rewrite !decide_False. Qed.

Lemma Qc_mult_1_r (x : Qc) : (x * 1 = x)%Qc.
Proof. ring. Qed.

(** X2. Under 'sum', and under every mode string that is neither
    'normalized' nor 'average' (the method itself does not check the mode),
    every stored incidence weight is 1, and column j of the matrix adds up
    to the number of arcs that end in node j. *)
Theorem sum_weights (arcs nodes : ndarray) (mode : string) (col : list Qc) :
  column 1 arcs = Ok col →
  indices_below (shape0 nodes) col →
  mode ≠ "normalized" → mode ≠ "average" →
  ∃ m, buildArcNode arcs nodes mode = Ok m
     ∧ buildArcNode arcs nodes "sum" = Ok m
     ∧ Forall (λ w, w = 1%Qc) (coo_data m)
     ∧ ∀ j, col_sum m j = Qc_of_nat (in_degree arcs j).
Proof.
  intros Hcol Hbelow Hn Ha.
  assert (arc_weight mode col <$> col = arc_weight "sum" col <$> col) as Hw.
  { apply list_fmap_ext. intros i d _. by rewrite !arc_weight_sum. }
  eexists. split; [by apply buildArcNode_eq|]. split.
  { rewrite (buildArcNode_eq _ _ "sum" col) by done. by rewrite Hw. }
  cbn [coo_data]. split.
  - apply Forall_fmap, Forall_forall. intros d _. by apply arc_weight_sum.
  - intros j. rewrite col_sum_arange. unfold in_degree.
    rewrite (destinations_column _ _ Hcol).
    rewrite (sumQc_constant 1%Qc).
    + rewrite length_fmap. apply Qc_mult_1_r.
    + apply Forall_fmap, Forall_forall. intros d _. by apply arc_weight_sum.
Qed.

Lemma sum_weights_witness :
  ∃ m, buildArcNode arcs_example nodes_example "sum" = Ok m
     ∧ buildArcNode arcs_example nodes_example "sum" = Ok m
     ∧ Forall (λ w, w = 1%Qc) (coo_data m)
     ∧ ∀ j, col_sum m j = Qc_of_nat (in_degree arcs_example j).
Proof.
  apply (sum_weights arcs_example nodes_example "sum"
           [Qc_of_Z 1; Qc_of_Z 2; Qc_of_Z 2]).
  - reflexivity.
  - apply example_below.
  - discriminate.
  - discriminate.
Defined.

(* ===================================================================== *)
(** * The adjacency matrix *)
(* ===================================================================== *)

Lemma zip3_fmap {A : Type} (f g : A → Z) (h : A → Qc) (l : list A) :
  zip (zip (f <$> l) (g <$> l)) (h <$> l) = (λ x, (f x, g x, h x)) <$> l.
Proof. induction l as [|x l IH]; [done|]. cbn. by rewrite IH. Qed.

Lemma filter_fmap_values {A : Type} (e : A → Z * Z * Qc) (P : Z * Z * Qc → Prop)
    `{!∀ x, Decision (P x)} (l : list A) :
  snd <$> filter P (e <$> l) = (λ x, (e x).2) <$> filter (λ x, P (e x)) l.
Proof.
  induction l as [|x l IH]; [done|].
  rewrite fmap_cons, !filter_cons. case_decide.
  - rewrite !fmap_cons. by rewrite IH.
  - done.
Qed.

Lemma filter_destination (g : Qc → Qc) (j : Z) (rows : list (list Qc)) :
  g <$> filter (λ d, Qc_trunc d = j) ((λ r : list Qc, nth 1 r 0%Qc) <$> rows)
  = (λ r : list Qc, g (nth 1 r 0%Qc)) <$> filter (λ r, arc_destination r = j) rows.
Proof.
  unfold arc_destination. induction rows as [|r rows IH]; [done|].
  rewrite fmap_cons, !filter_cons.
  case_decide; rewrite ?fmap_cons, IH; done.
Qed.

(** [buildArcNode] followed by [buildAdjacency], in closed form. *)
Lemma build_matrices (c : nat) (rows : list (list Qc)) (nodes : ndarray)
    (mode : string) :
  2 ≤ c → rows ≠ [] → Forall (endpoints_valid (shape0 nodes)) rows →
  let col := (λ r : list Qc, nth 1 r 0%Qc) <$> rows in
  let an := Coo (length rows, shape0 nodes) (np_arange (length col))
                (Qc_trunc <$> col) (arc_weight mode col <$> col) in
  buildArcNode (Arr2 c rows) nodes mode = Ok an
  ∧ buildAdjacency (Arr2 c rows) nodes an
    = Ok (Coo (shape0 nodes, shape0 nodes) (arc_source <$> rows)
              (arc_destination <$> rows) (coo_data an)).
Proof.
  intros Hc Hne Hvalid col an. split.
  - apply (buildArcNode_eq (Arr2 c rows)).
    + by apply column_1_rows.
    + unfold indices_below, col. apply Forall_fmap.
      eapply Forall_impl; [exact Hvalid|]. intros r (_ & _ & _ & H). exact H.
    + intros _. unfold col. by destruct rows.
  - apply buildAdjacency_eq; [done..| |done].
    unfold an, col. cbn [coo_data]. by rewrite !length_fmap.
Qed.

(** X3. The adjacency matrix of a graph has one row and one column per
    node, and stores, for every arc in order, the arc's incidence weight at
    (source, destination); so each of its columns adds up to what the same
    column of the ArcNode matrix adds up to. *)
Theorem adjacency_of_arcs (c : nat) (rows : list (list Qc)) (nodes : ndarray)
    (mode : string) :
  2 ≤ c → rows ≠ [] → Forall (endpoints_valid (shape0 nodes)) rows →
  ∃ an adj,
    buildArcNode (Arr2 c rows) nodes mode = Ok an
    ∧ buildAdjacency (Arr2 c rows) nodes an = Ok adj
    ∧ coo_shape adj = (shape0 nodes, shape0 nodes)
    ∧ (∀ i r, rows !! i = Some r →
         ∃ w, entries an !! i = Some (Z.of_nat i, arc_destination r, w)
            ∧ entries adj !! i = Some (arc_source r, arc_destination r, w))
    ∧ ∀ j, col_sum adj j = col_sum an j.
Proof.
  intros Hc Hne Hvalid.
  destruct (build_matrices c rows nodes mode Hc Hne Hvalid) as [Han Hadj].
  eexists _, _. split; [exact Han|]. split; [exact Hadj|]. split; [done|].
  set (col := (λ r : list Qc, nth 1 r 0%Qc) <$> rows).
  split.
  - intros i r Hr. exists (arc_weight mode col (nth 1 r 0%Qc)).
    unfold entries. cbn [coo_row coo_col coo_data]. unfold col, np_arange.
    rewrite length_fmap, <- !list_fmap_compose. split.
    + rewrite !lookup_zip_with, !list_lookup_fmap, Hr. cbn.
      rewrite lookup_seq_lt by (by eapply lookup_lt_Some). done.
    + rewrite !lookup_zip_with, !list_lookup_fmap, Hr. done.
  - intros j. rewrite col_sum_arange.
    unfold col_sum, col_entries, entries. cbn [coo_row coo_col coo_data].
    unfold col. rewrite <- !list_fmap_compose.
    rewrite (zip3_fmap arc_source arc_destination).
    rewrite (filter_fmap_values
               (λ r, (arc_source r, arc_destination r,
                      (arc_weight mode ((λ r : list Qc, nth 1 r 0%Qc) <$> rows)
                         ∘ (λ r : list Qc, nth 1 r 0%Qc)) r))).
    cbn [fst snd]. cbv [compose]. by rewrite filter_destination.
Qed.

Lemma adjacency_of_arcs_witness :
  ∃ an adj,
    buildArcNode (Arr2 3 (rows_of arcs_example)) nodes_example "average" = Ok an
    ∧ buildAdjacency (Arr2 3 (rows_of arcs_example)) nodes_example an = Ok adj
    ∧ coo_shape adj = (shape0 nodes_example, shape0 nodes_example)
    ∧ (∀ i r, rows_of arcs_example !! i = Some r →
         ∃ w, entries an !! i = Some (Z.of_nat i, arc_destination r, w)
            ∧ entries adj !! i = Some (arc_source r, arc_destination r, w))
    ∧ ∀ j, col_sum adj j = col_sum an j.
Proof.
  apply (adjacency_of_arcs 3 (rows_of arcs_example) nodes_example "average").
  - lia.
  - discriminate.
  - apply (wf_endpoints graph_example graph_example_well_formed).
Defined.

(** X4. Under 'sum', the entry (s, d) of the adjacency matrix is the number
    of arcs from node s to node d: parallel arcs are stored one by one and
    add up. *)
Theorem adjacency_counts_arcs (c : nat) (rows : list (list Qc)) (nodes : ndarray) :
  2 ≤ c → rows ≠ [] → Forall (endpoints_valid (shape0 nodes)) rows →
  ∃ an adj,
    buildArcNode (Arr2 c rows) nodes "sum" = Ok an
    ∧ buildAdjacency (Arr2 c rows) nodes an = Ok adj
    ∧ ∀ s d, coo_get adj s d = Qc_of_nat (arcs_between (Arr2 c rows) s d).
Proof.
  intros Hc Hne Hvalid.
  destruct (build_matrices c rows nodes "sum" Hc Hne Hvalid) as [Han Hadj].
  eexists _, _. split; [exact Han|]. split; [exact Hadj|].
  intros s d. unfold coo_get, entries, arcs_between.
  cbn [coo_row coo_col coo_data rows_of].
  rewrite <- list_fmap_compose, (zip3_fmap arc_source arc_destination).
  rewrite (filter_fmap_values
             (λ r, (arc_source r, arc_destination r,
                    (arc_weight "sum" ((λ r : list Qc, nth 1 r 0%Qc) <$> rows)
                       ∘ (λ r : list Qc, nth 1 r 0%Qc)) r))).
  cbn [fst snd].
  rewrite (sumQc_constant 1%Qc).
  - rewrite length_fmap. apply Qc_mult_1_r.
  - apply Forall_fmap, Forall_forall. intros r _. cbv [compose]. by apply arc_weight_sum.
Qed.

Lemma adjacency_counts_arcs_witness :
  ∃ an adj,
    buildArcNode (Arr2 3 (rows_of arcs_example)) nodes_example "sum" = Ok an
    ∧ buildAdjacency (Arr2 3 (rows_of arcs_example)) nodes_example an = Ok adj
    ∧ ∀ s d, coo_get adj s d = Qc_of_nat (arcs_between (Arr2 3 (rows_of arcs_example)) s d).
Proof.
  apply (adjacency_counts_arcs 3 (rows_of arcs_example) nodes_example).
  - lia.
  - discriminate.
  - apply (wf_endpoints graph_example graph_example_well_formed).
Defined.

(* ===================================================================== *)
(** * The constructor: what a returned graph satisfies *)
(* ===================================================================== *)

Lemma Qc_of_bool_truthy (x : Qc) :
  Qc_of_bool (truthy (Qc_of_bool (truthy x))) = Qc_of_bool (truthy x).
Proof.
  unfold truthy. destruct (bool_decide (x = 0%Qc)); cbn [negb Qc_of_bool].
  - by rewrite bool_decide_eq_true_2.
  - by rewrite bool_decide_eq_false_2 by apply Qc_one_ne_0.
Qed.

Lemma astype_bool_idemp (a : ndarray) : is_bool_array (astype_bool a).
Proof.
  unfold is_bool_array, astype_bool. destruct a as [v|c rows]; cbn; f_equal.
  - rewrite <- list_fmap_compose. apply list_fmap_ext. intros i x _.
    apply Qc_of_bool_truthy.
  - rewrite <- list_fmap_compose. apply list_fmap_ext. intros i r _. cbn.
    rewrite <- list_fmap_compose. apply list_fmap_ext. intros j x _.
    apply Qc_of_bool_truthy.
Qed.

Lemma np_ones_bool (n : nat) : is_bool_array (np_ones n).
Proof.
  unfold is_bool_array, np_ones, astype_bool. cbn. f_equal.
  by rewrite fmap_replicate.
Qed.

Lemma mask_of_bool (n : nat) (m : option ndarray) : is_bool_array (mask_of n m).
Proof. destruct m; [apply astype_bool_idemp|apply np_ones_bool]. Qed.

(** What [buildAdjacency] accepted. *)
Lemma buildAdjacency_inv (arcs nodes : ndarray) (an adj : coo) :
  buildAdjacency arcs nodes an = Ok adj →
  ∃ c rows,
    arcs = Arr2 c rows ∧ 2 ≤ c ∧ rows ≠ []
    ∧ adj = Coo (shape0 nodes, shape0 nodes) (arc_source <$> rows)
                (arc_destination <$> rows) (coo_data an)
    ∧ length (coo_data an) = length rows
    ∧ Forall (endpoints_in_range (shape0 nodes)) rows.
Proof.
  unfold buildAdjacency. destruct arcs as [v|c rows]; [done|].
  case_bool_decide as Hc; [|done]. destruct Hc as [Hc Hne].
  unfold coo_matrix. intros (-> & Hr & _ & Hrow & Hcol)%coo_check_inv.
  cbn [coo_row coo_col coo_data coo_shape fst snd] in *.
  exists c, rows. split; [done|]. split; [done|]. split; [done|].
  split; [done|]. rewrite length_fmap in Hr. split; [done|].
  rewrite Forall_fmap in Hrow, Hcol.
  apply Forall_forall. intros r Hin. rewrite Forall_forall in Hrow, Hcol.
  split; [by apply Hrow|by apply Hcol].
Qed.

(** What the constructor went through when it returns. *)
Lemma init_contents_inv (args : init_args) (G : graph_contents)
    (dims : nat * Z * nat) :
  init_contents args = Ok (G, dims) →
  ∃ n,
    set_mask_length args = Ok n
    ∧ c_nodes G = arg_nodes args ∧ c_arcs G = arg_arcs args
    ∧ c_targets G = arg_targets args
    ∧ is_matrix (arg_nodes args) ∧ is_matrix (arg_arcs args)
    ∧ is_matrix (arg_targets args)
    ∧ mul_ones (arg_sample_weights args) (shape0 (arg_targets args))
      = Ok (c_sample_weights G)
    ∧ c_set_mask G = mask_of n (arg_set_mask args)
    ∧ c_output_mask G = mask_of n (arg_output_mask args)
    ∧ shape0 (c_set_mask G) = shape0 (c_output_mask G)
    ∧ c_aggregation_mode G = arg_aggregation_mode args
    ∧ recognized (arg_aggregation_mode args) = true
    ∧ (match arg_ArcNode args with
       | None => buildArcNode (arg_arcs args) (arg_nodes args) (arg_aggregation_mode args)
       | Some m => Ok (coo_of_arg m)
       end) = Ok (c_ArcNode G)
    ∧ buildAdjacency (arg_arcs args) (arg_nodes args) (c_ArcNode G)
      = Ok (c_Adjacency G)
    ∧ c_NodeGraph G
      = match arg_NodeGraph args with
        | None => buildNodeGraph (arg_nodes args) (arg_problem_based args)
        | Some m => coo_of_arg m
        end.
Proof.
  unfold init_contents, set_mask_length. rewrite !astype_float_id.
  destruct (mul_ones _ _) as [sw|e] eqn:Hsw; [|done]. cbn [rbind].
  destruct (shape1 (arg_nodes args)) as [d1|e] eqn:H1; [|done]. cbn [rbind].
  destruct (shape1 (arg_arcs args)) as [d2|e] eqn:H2; [|done]. cbn [rbind].
  destruct (shape1 (arg_targets args)) as [d3|e] eqn:H3; [|done]. cbn [rbind].
  assert (is_matrix (arg_nodes args)) as M1 by (by destruct (arg_nodes args)).
  assert (is_matrix (arg_arcs args)) as M2 by (by destruct (arg_arcs args)).
  assert (is_matrix (arg_targets args)) as M3 by (by destruct (arg_targets args)).
  assert (∀ m : ndarray, shape0 (astype_bool m) = shape0 m) as Hsb
    by (intros m; apply shape0_map_array).
  destruct (arg_set_mask args) as [m|] eqn:Hm.
  - cbn [rbind]. case_bool_decide as Hlen; [|done]. cbn [negb].
    destruct (recognized _) eqn:Hrec; [|done]. cbn [negb].
    destruct (match arg_ArcNode args with None => _ | Some _ => _ end)
      as [an|e] eqn:Han; [|done]. cbn [rbind].
    destruct (buildAdjacency _ _ _) as [adj|e] eqn:Hadj; [|done]. cbn [rbind].
    intros [= <- _]. exists (shape0 m).
    cbn [c_nodes c_arcs c_targets c_set_mask c_output_mask c_sample_weights c_aggregation_mode c_ArcNode c_Adjacency c_NodeGraph mask_of].
    repeat (split; [done|]).
    split.
    { destruct (arg_output_mask args) as [om|]; cbn [mask_of]; [done|].
      by rewrite Hsb. }
    split; [exact Hlen|].
    by repeat (split; [done|]).
  - destruct (lenMask _ _ _) as [n|e] eqn:Hn; [|done]. cbn [rbind].
    case_bool_decide as Hlen; [|done]. cbn [negb].
    destruct (recognized _) eqn:Hrec; [|done]. cbn [negb].
    destruct (match arg_ArcNode args with None => _ | Some _ => _ end)
      as [an|e] eqn:Han; [|done]. cbn [rbind].
    destruct (buildAdjacency _ _ _) as [adj|e] eqn:Hadj; [|done]. cbn [rbind].
    intros [= <- _]. exists n.
    cbn [c_nodes c_arcs c_targets c_set_mask c_output_mask c_sample_weights c_aggregation_mode c_ArcNode c_Adjacency c_NodeGraph mask_of].
    repeat (split; [done|]).
    split.
    { destruct (arg_output_mask args) as [om|]; cbn [mask_of]; [done|].
      by rewrite ?shape0_np_ones, ?length_replicate. }
    split; [exact Hlen|].
    by repeat (split; [done|]).
Qed.

(** The constructor at work on a store: a returned graph is what
    [init_contents] computed, and the store has grown at its end. *)
Lemma GraphObject_init_inv (args : init_args) (σ σ' : state) (l : loc) :
  GraphObject_init args σ = (Ok l, σ') →
  ∃ G dims,
    init_contents args = Ok (G, dims)
    ∧ contents (heap σ') l = Some G
    ∧ l = length (heap σ) + 6
    ∧ heap σ' = heap σ ++ init_cells (length (heap σ)) G dims
    ∧ disk σ' = disk σ.
Proof.
  intros Hrun. pose proof (GraphObject_init_run args σ) as H.
  destruct (init_contents args) as [[G dims]|e].
  - rewrite Hrun in H. injection H as -> ->. exists G, dims. cbn [heap disk].
    split; [done|]. split; [apply contents_init_cells|]. done.
  - rewrite Hrun in H. done.
Qed.

Lemma GraphObject_init_example :
  GraphObject_init args_example (mkState [] [])
  = (Ok 6, mkState (init_cells 0 graph_example (1, 1%Z, 1)) []).
Proof.
  pose proof (GraphObject_init_run args_example (mkState [] [])) as H.
  unfold args_example in *. by rewrite init_contents_example in H.
Qed.

(** X5. Whenever the constructor returns a graph: the store has only grown
    (every cell that existed is as it was); nodes, arcs and targets are
    matrices; there is at least one arc, the arcs have their two endpoint
    columns, and both endpoint indices of every arc name a node; the two
    masks are boolean and of one length; the aggregation mode is a
    recognized one; and the adjacency matrix is N by N with the ArcNode
    matrix's values, one per arc. *)
Theorem constructed_graph (args : init_args) (σ σ' : state) (l : loc) :
  GraphObject_init args σ = (Ok l, σ') →
  ∃ G,
    contents (heap σ') l = Some G
    ∧ (∀ l' c, heap σ !! l' = Some c → heap σ' !! l' = Some c)
    ∧ is_matrix (c_nodes G) ∧ is_matrix (c_arcs G) ∧ is_matrix (c_targets G)
    ∧ (∃ c, shape1 (c_arcs G) = Ok c ∧ 2 ≤ c)
    ∧ rows_of (c_arcs G) ≠ []
    ∧ Forall (endpoints_in_range (shape0 (c_nodes G))) (rows_of (c_arcs G))
    ∧ is_bool_array (c_set_mask G) ∧ is_bool_array (c_output_mask G)
    ∧ shape0 (c_set_mask G) = shape0 (c_output_mask G)
    ∧ recognized (c_aggregation_mode G) = true
    ∧ coo_shape (c_Adjacency G) = (shape0 (c_nodes G), shape0 (c_nodes G))
    ∧ coo_data (c_Adjacency G) = coo_data (c_ArcNode G)
    ∧ length (coo_data (c_ArcNode G)) = shape0 (c_arcs G).
Proof.
  intros (G & dims & Hinit & Hc & _ & Hheap & _)%GraphObject_init_inv.
  exists G. split; [done|]. split.
  { intros l' c Hl. rewrite Hheap. by apply lookup_app_l_Some. }
  apply init_contents_inv in Hinit
    as (n & _ & En & Ea & Et & M1 & M2 & M3 & _ & Esm & Eom & Hlen & Emode
        & Hrec & _ & Hadj & _).
  apply buildAdjacency_inv in Hadj
    as (c & rows & Earcs & Hc2 & Hne & Eadj & Hdata & Hrange).
  rewrite En, Ea, Et, Esm, Eom, Emode, Eadj, Earcs in *.
  cbn [rows_of shape1 shape0 coo_shape coo_data].
  repeat (split; [done|]).
  split; [by exists c|].
  repeat (split; [done|]).
  split; [apply mask_of_bool|]. split; [apply mask_of_bool|].
  by repeat (split; [done|]).
Qed.

Lemma constructed_graph_witness :
  ∃ G,
    contents (init_cells 0 graph_example (1, 1%Z, 1)) 6 = Some G
    ∧ (∀ l' c, [] !! l' = Some c
               → init_cells 0 graph_example (1, 1%Z, 1) !! l' = Some c)
    ∧ is_matrix (c_nodes G) ∧ is_matrix (c_arcs G) ∧ is_matrix (c_targets G)
    ∧ (∃ c, shape1 (c_arcs G) = Ok c ∧ 2 ≤ c)
    ∧ rows_of (c_arcs G) ≠ []
    ∧ Forall (endpoints_in_range (shape0 (c_nodes G))) (rows_of (c_arcs G))
    ∧ is_bool_array (c_set_mask G) ∧ is_bool_array (c_output_mask G)
    ∧ shape0 (c_set_mask G) = shape0 (c_output_mask G)
    ∧ recognized (c_aggregation_mode G) = true
    ∧ coo_shape (c_Adjacency G) = (shape0 (c_nodes G), shape0 (c_nodes G))
    ∧ coo_data (c_Adjacency G) = coo_data (c_ArcNode G)
    ∧ length (coo_data (c_ArcNode G)) = shape0 (c_arcs G).
Proof.
  apply (constructed_graph args_example (mkState [] [])
           (mkState (init_cells 0 graph_example (1, 1%Z, 1)) []) 6).
  apply GraphObject_init_example.
Defined.

(* ===================================================================== *)
(** * The constructor: defaults and the problem type *)
(* ===================================================================== *)

Lemma endpoints_valid_in_range (n : nat) (r : list Qc) :
  endpoints_valid n r → endpoints_in_range n r.
Proof. by intros (_ & _ & ? & ?). Qed.

(** [buildArcNode] followed by [buildAdjacency] on arcs in range. *)
Lemma build_in_range (c : nat) (rows : list (list Qc)) (nodes : ndarray)
    (mode : string) :
  2 ≤ c → rows ≠ [] → Forall (endpoints_in_range (shape0 nodes)) rows →
  let col := (λ r : list Qc, nth 1 r 0%Qc) <$> rows in
  let an := Coo (length rows, shape0 nodes) (np_arange (length col))
                (Qc_trunc <$> col) (arc_weight mode col <$> col) in
  buildArcNode (Arr2 c rows) nodes mode = Ok an
  ∧ buildAdjacency (Arr2 c rows) nodes an
    = Ok (Coo (shape0 nodes, shape0 nodes) (arc_source <$> rows)
              (arc_destination <$> rows) (coo_data an)).
Proof.
  intros Hc Hne Hvalid col an. split.
  - apply (buildArcNode_eq (Arr2 c rows)).
    + by apply column_1_rows.
    + unfold indices_below, col. apply Forall_fmap.
      eapply Forall_impl; [exact Hvalid|]. intros r [_ H]. exact H.
    + intros _. unfold col. by destruct rows.
  - unfold buildAdjacency. rewrite bool_decide_eq_true_2 by done.
    unfold coo_matrix. subst an col. apply coo_check_ok;
      cbn [coo_row coo_col coo_data coo_shape fst snd].
    + by rewrite !length_fmap.
    + by rewrite !length_fmap.
    + apply Forall_fmap. eapply Forall_impl; [exact Hvalid|]. by intros r [H _].
    + apply Forall_fmap. eapply Forall_impl; [exact Hvalid|]. by intros r [_ H].
Qed.

(** The constructor on arguments that pass its checks, without an
    [ArcNode] argument. *)
Lemma init_contents_given (args : init_args) (c : nat) (rows : list (list Qc))
    (sw : ndarray) (n : nat) :
  is_matrix (arg_nodes args) → arg_arcs args = Arr2 c rows →
  2 ≤ c → rows ≠ [] →
  Forall (endpoints_in_range (shape0 (arg_nodes args))) rows →
  is_matrix (arg_targets args) →
  mul_ones (arg_sample_weights args) (shape0 (arg_targets args)) = Ok sw →
  set_mask_length args = Ok n →
  shape0 (mask_of n (arg_output_mask args)) = n →
  recognized (arg_aggregation_mode args) = true →
  arg_ArcNode args = None →
  ∃ an adj dims,
    buildArcNode (arg_arcs args) (arg_nodes args) (arg_aggregation_mode args) = Ok an
    ∧ buildAdjacency (arg_arcs args) (arg_nodes args) an = Ok adj
    ∧ init_contents args
      = Ok (mkContents (arg_nodes args) (arg_arcs args) (arg_targets args)
              (mask_of n (arg_set_mask args)) (mask_of n (arg_output_mask args))
              sw (arg_aggregation_mode args) an adj
              (match arg_NodeGraph args with
               | None => buildNodeGraph (arg_nodes args) (arg_problem_based args)
               | Some m => coo_of_arg m
               end),
            dims).
Proof.
  intros M1 Ea Hc Hne Hrange M3 Hsw Hn Hom Hrec Han.
  destruct (build_in_range c rows (arg_nodes args) (arg_aggregation_mode args)
              Hc Hne Hrange) as [Hb1 Hb2].
  rewrite <- Ea in Hb1, Hb2.
  destruct (shape1_matrix _ M1) as [d1 S1], (shape1_matrix _ M3) as [d3 S3].
  eexists _, _, (d1, (Z.of_nat c - 2)%Z, d3).
  split; [exact Hb1|]. split; [exact Hb2|].
  unfold init_contents. rewrite !astype_float_id, Hsw, S1, S3, Han.
  rewrite Hb1. cbn [rbind]. rewrite Hb2.
  rewrite Ea at 1. cbn [shape1 rbind].
  unfold set_mask_length in Hn.
  assert (shape0 (mask_of n (arg_set_mask args)) = n) as Hsm.
  { destruct (arg_set_mask args) as [m|]; cbn [mask_of].
    - injection Hn as <-. apply shape0_map_array.
    - apply shape0_np_ones. }
  destruct (arg_set_mask args) as [m|]; cbn [mask_of] in *.
  - cbn [rbind]. injection Hn as Hn.
    assert (match arg_output_mask args with
            | Some m0 => astype_bool m0
            | None => np_ones (shape0 (astype_bool m))
            end = mask_of n (arg_output_mask args)) as ->.
    { destruct (arg_output_mask args); cbn [mask_of]; [done|]. by rewrite Hsm. }
    rewrite Hsm, Hom, bool_decide_eq_true_2 by done. by rewrite Hrec.
  - rewrite Hn. cbn [rbind].
    assert (match arg_output_mask args with
            | Some m0 => astype_bool m0
            | None => np_ones (shape0 (np_ones n))
            end = mask_of n (arg_output_mask args)) as ->.
    { destruct (arg_output_mask args); cbn [mask_of]; [done|]. by rewrite Hsm. }
    rewrite Hsm, Hom, bool_decide_eq_true_2 by done. by rewrite Hrec.
Qed.

Lemma example_in_range :
  Forall (endpoints_in_range (shape0 nodes_example)) (rows_of arcs_example).
Proof.
  eapply Forall_impl; [apply (wf_endpoints graph_example graph_example_well_formed)|].
  apply endpoints_valid_in_range.
Qed.

(** X6. With the masks and the weights left to their defaults (a scalar
    weight w), the constructor stores all-true masks with one entry per arc
    for an arc-based problem and one per node for a node- or graph-based
    one, and one sample weight w per target row. *)
Theorem default_masks_and_weights (args : init_args) (σ : state) (c : nat)
    (rows : list (list Qc)) (w : Qc) :
  is_matrix (arg_nodes args) → arg_arcs args = Arr2 c rows →
  2 ≤ c → rows ≠ [] →
  Forall (endpoints_in_range (shape0 (arg_nodes args))) rows →
  is_matrix (arg_targets args) →
  arg_set_mask args = None → arg_output_mask args = None →
  arg_sample_weights args = WScalar w →
  arg_ArcNode args = None →
  arg_problem_based args ∈ ["n"; "a"; "g"] →
  recognized (arg_aggregation_mode args) = true →
  ∃ l σ' G,
    GraphObject_init args σ = (Ok l, σ')
    ∧ contents (heap σ') l = Some G
    ∧ c_set_mask G
      = np_ones (if decide (arg_problem_based args = "a")
                 then length rows else shape0 (arg_nodes args))
    ∧ c_output_mask G = c_set_mask G
    ∧ c_sample_weights G = Arr1 (replicate (shape0 (arg_targets args)) w).
Proof.
  intros M1 Ea Hc Hne Hrange M3 Hsm Hom Hsw Han Hpb Hrec.
  set (n := if decide (arg_problem_based args = "a")
            then length rows else shape0 (arg_nodes args)).
  assert (set_mask_length args = Ok n) as Hn.
  { assert (arg_problem_based args = "n" ∨ arg_problem_based args = "a"
            ∨ arg_problem_based args = "g") as Hcases by set_solver.
    unfold set_mask_length, lenMask, n. rewrite Hsm, Ea. cbn [shape0].
    destruct Hcases as [E|[E|E]]; rewrite E; reflexivity. }
  destruct (init_contents_given args c rows
              (Arr1 (replicate (shape0 (arg_targets args)) w)) n)
    as (an & adj & dims & _ & _ & Hinit); try done.
  { rewrite Hsw. cbn [mul_ones]. rewrite fmap_replicate. by rewrite Qc_mult_1_r. }
  { rewrite Hom. apply shape0_np_ones. }
  destruct (GraphObject_init_Ok args σ _ _ Hinit) as (l & σ' & Hrun & Hcont).
  eexists l, σ', _. split; [exact Hrun|]. split; [exact Hcont|].
  cbn [c_set_mask c_output_mask c_sample_weights]. by rewrite Hsm, Hom.
Qed.

Lemma default_masks_and_weights_witness :
  ∃ l σ' G,
    GraphObject_init args_example (mkState [] []) = (Ok l, σ')
    ∧ contents (heap σ') l = Some G
    ∧ c_set_mask G
      = np_ones (if decide (arg_problem_based args_example = "a")
                 then length (rows_of arcs_example)
                 else shape0 (arg_nodes args_example))
    ∧ c_output_mask G = c_set_mask G
    ∧ c_sample_weights G = Arr1 (replicate (shape0 (arg_targets args_example)) 1%Qc).
Proof.
  apply (default_masks_and_weights args_example (mkState [] []) 3
           (rows_of arcs_example) 1%Qc).
  - exact I.
  - reflexivity.
  - lia.
  - discriminate.
  - apply example_in_range.
  - exact I.
  - reflexivity.
  - reflexivity.
  - reflexivity.
  - reflexivity.
  - set_solver.
  - reflexivity.
Defined.

(** X7. The constructor never validates [problem_based]. It is read to
    choose the default length of the set mask and to build the NodeGraph
    matrix: when both are passed, every problem type gives the same result;
    when the set mask is passed, every problem type other than 'g' gives the
    result of 'n'; and when the set mask is left out, a problem type other
    than 'n', 'a' and 'g' raises KeyError (on arguments that got that far:
    matrices, and sample weights that fit the targets). *)
Theorem problem_based_unchecked :
  (∀ args pb σ m ng,
     arg_set_mask args = Some m → arg_NodeGraph args = Some ng →
     GraphObject_init (with_problem_based pb args) σ = GraphObject_init args σ)
  ∧ (∀ args pb σ m,
       arg_set_mask args = Some m → pb ≠ "g" →
       GraphObject_init (with_problem_based pb args) σ
       = GraphObject_init (with_problem_based "n" args) σ)
  ∧ (∀ args σ sw,
       is_matrix (arg_nodes args) → is_matrix (arg_arcs args) →
       is_matrix (arg_targets args) →
       mul_ones (arg_sample_weights args) (shape0 (arg_targets args)) = Ok sw →
       arg_set_mask args = None →
       arg_problem_based args ∉ ["n"; "a"; "g"] →
       (GraphObject_init args σ).1 = Raise (KeyError (arg_problem_based args))).
Proof.
  split; [|split].
  - intros args pb σ m ng Hm Hng. unfold GraphObject_init, with_problem_based.
    cbn [arg_nodes arg_arcs arg_targets arg_problem_based arg_set_mask
         arg_output_mask arg_sample_weights arg_NodeGraph arg_ArcNode
         arg_aggregation_mode].
    by rewrite Hm, Hng.
  - intros args pb σ m Hm Hpb. unfold GraphObject_init, with_problem_based.
    cbn [arg_nodes arg_arcs arg_targets arg_problem_based arg_set_mask
         arg_output_mask arg_sample_weights arg_NodeGraph arg_ArcNode
         arg_aggregation_mode].
    rewrite Hm. unfold buildNodeGraph.
    rewrite (decide_False (P := pb = "g")) by done.
    by rewrite (decide_False (P := "n" = "g")) by done.
  - intros args σ sw M1 M2 M3 Hsw Hm Hpb.
    pose proof (GraphObject_init_run args σ) as H.
    assert (init_contents args = Raise (KeyError (arg_problem_based args))) as Hi.
    { unfold init_contents. rewrite !astype_float_id, Hsw. cbn [rbind].
      destruct (shape1_matrix _ M1) as [d1 ->], (shape1_matrix _ M2) as [d2 ->],
        (shape1_matrix _ M3) as [d3 ->]. cbn [rbind].
      rewrite Hm. unfold lenMask.
      rewrite !decide_False; [done|set_solver..]. }
    by rewrite Hi in H.
Qed.

(* ===================================================================== *)
(** * setAggregation on a recognized mode *)
(* ===================================================================== *)

Lemma setattr_run (h : list cell) (d : list (string * directory)) (self : loc)
    (g : GraphObject) (f : GraphObject → GraphObject) :
  h !! self = Some (CGraph g) →
  setattr self f (mkState h d) = (Ok tt, mkState (<[self := CGraph (f g)]> h) d).
Proof.
  intros Hg. unfold setattr.
  by rewrite (bind_run _ _ _ _ _ (read_graph_run h d self g Hg)).
Qed.

Lemma lookup_array_insert_graph (h : list cell) (self l : loc)
    (g g' : GraphObject) (a : ndarray) :
  h !! self = Some (CGraph g) → h !! l = Some (CArray a) →
  <[self := CGraph g']> h !! l = Some (CArray a).
Proof.
  intros Hg Ha. rewrite list_lookup_insert_ne; [done|].
  intros ->. rewrite Hg in Ha. done.
Qed.

(** X8. [setAggregation] with a recognized mode, on a stored graph whose
    arcs are in range, stores the new mode, the ArcNode matrix that
    [buildArcNode] builds for it and the adjacency matrix built from that
    one: the matrices the constructor builds for that mode. Only the object
    is updated: every other cell of the store, hence each array of the
    graph, and the NodeGraph matrix are as before. *)
Theorem setAggregation_rebuilds (h : list cell) (d : list (string * directory))
    (self : loc) (G : graph_contents) (mode : string) (c : nat)
    (rows : list (list Qc)) :
  contents h self = Some G →
  c_arcs G = Arr2 c rows → 2 ≤ c → rows ≠ [] →
  Forall (endpoints_in_range (shape0 (c_nodes G))) rows →
  recognized mode = true →
  ∃ an adj h',
    buildArcNode (c_arcs G) (c_nodes G) mode = Ok an
    ∧ buildAdjacency (c_arcs G) (c_nodes G) an = Ok adj
    ∧ setAggregation self mode (mkState h d) = (Ok tt, mkState h' d)
    ∧ contents h' self
      = Some (mkContents (c_nodes G) (c_arcs G) (c_targets G) (c_set_mask G)
                (c_output_mask G) (c_sample_weights G) mode an adj (c_NodeGraph G))
    ∧ length h' = length h
    ∧ ∀ l, l ≠ self → h' !! l = h !! l.
Proof.
  intros (g & Hg & Hn & Ha & Ht & Hsm & Hom & Hsw & Emode & Ean & Eadj & Eng)%contents_inv
         Ea Hc Hne Hrange Hrec.
  destruct (build_in_range c rows (c_nodes G) mode Hc Hne Hrange) as [Hb1 Hb2].
  rewrite <- Ea in Hb1, Hb2.
  set (an := Coo (length rows, shape0 (c_nodes G)) _ _ _) in Hb1, Hb2.
  set (adj := Coo (shape0 (c_nodes G), shape0 (c_nodes G)) _ _ _) in Hb2.
  set (g1 := set_aggregation_mode mode g).
  set (g2 := set_ArcNode an g1).
  set (g3 := set_Adjacency adj g2).
  assert (self < length h) as Hlt by (by eapply lookup_lt_Some).
  exists an, adj, (<[self := CGraph g3]> h).
  split; [exact Hb1|]. split; [exact Hb2|].
  split; [|split; [|split]].
  - unfold setAggregation. rewrite Hrec. cbn [negb].
    rewrite (bind_run _ _ _ _ _ (setattr_run h d self g _ Hg)).
    fold g1. set (h1 := <[self := CGraph g1]> h).
    assert (h1 !! self = Some (CGraph g1)) as Hg1
      by (by apply list_lookup_insert_eq).
    assert (self_buildArcNode self (mkState h1 d) = (Ok an, mkState h1 d)) as R1.
    { unfold self_buildArcNode.
      rewrite (bind_run _ _ _ _ _ (read_graph_run h1 d self g1 Hg1)).
      erewrite bind_run
        by (apply read_array_run; by eapply lookup_array_insert_graph).
      erewrite bind_run
        by (apply read_array_run; by eapply lookup_array_insert_graph).
      unfold lift. by rewrite <- Hb1. }
    rewrite (bind_run _ _ _ _ _ R1).
    rewrite (bind_run _ _ _ _ _ (setattr_run h1 d self g1 _ Hg1)).
    fold g2. unfold h1. rewrite list_insert_insert_eq.
    set (h2 := <[self := CGraph g2]> h).
    assert (h2 !! self = Some (CGraph g2)) as Hg2
      by (by apply list_lookup_insert_eq).
    assert (self_buildAdjacency self (mkState h2 d) = (Ok adj, mkState h2 d)) as R2.
    { unfold self_buildAdjacency.
      rewrite (bind_run _ _ _ _ _ (read_graph_run h2 d self g2 Hg2)).
      erewrite bind_run
        by (apply read_array_run; by eapply lookup_array_insert_graph).
      erewrite bind_run
        by (apply read_array_run; by eapply lookup_array_insert_graph).
      unfold lift. by rewrite <- Hb2. }
    rewrite (bind_run _ _ _ _ _ R2).
    rewrite (setattr_run h2 d self g2 _ Hg2).
    fold g3. unfold h2. by rewrite list_insert_insert_eq.
  - unfold contents, graph_at, array_at.
    rewrite list_lookup_insert_eq by done. cbn.
    rewrite !(lookup_array_insert_graph h self _ g g3 _ Hg) by eassumption.
    cbn. by rewrite Eng.
  - apply length_insert.
  - intros l Hl. by apply list_lookup_insert_ne.
Qed.

Lemma setAggregation_rebuilds_witness :
  ∃ an adj h',
    buildArcNode (c_arcs graph_example) (c_nodes graph_example) "average" = Ok an
    ∧ buildAdjacency (c_arcs graph_example) (c_nodes graph_example) an = Ok adj
    ∧ setAggregation 6 "average" (mkState (heap store_example) [])
      = (Ok tt, mkState h' [])
    ∧ contents h' 6
      = Some (mkContents (c_nodes graph_example) (c_arcs graph_example)
                (c_targets graph_example) (c_set_mask graph_example)
                (c_output_mask graph_example) (c_sample_weights graph_example)
                "average" an adj (c_NodeGraph graph_example))
    ∧ length h' = length (heap store_example)
    ∧ ∀ l, l ≠ 6 → h' !! l = heap store_example !! l.
Proof.
  apply (setAggregation_rebuilds (heap store_example) [] 6 graph_example
           "average" 3 (rows_of arcs_example)).
  - reflexivity.
  - reflexivity.
  - lia.
  - discriminate.
  - apply example_in_range.
  - reflexivity.
Defined.

(* ===================================================================== *)
(** * copy *)
(* ===================================================================== *)

(** The constructor on the arrays of a well-formed graph, passed as they
    are. *)
Lemma init_contents_same (G : graph_contents) (pb mode : string) (ng : coo) :
  well_formed G → recognized mode = true →
  ∃ an adj dims,
    buildArcNode (c_arcs G) (c_nodes G) mode = Ok an
    ∧ buildAdjacency (c_arcs G) (c_nodes G) an = Ok adj
    ∧ init_contents {|
        arg_nodes := c_nodes G; arg_arcs := c_arcs G; arg_targets := c_targets G;
        arg_problem_based := pb;
        arg_set_mask := Some (c_set_mask G);
        arg_output_mask := Some (c_output_mask G);
        arg_sample_weights := WArray (c_sample_weights G);
        arg_NodeGraph := Some (MSparse ng); arg_ArcNode := None;
        arg_aggregation_mode := mode |}
      = Ok (mkContents (c_nodes G) (c_arcs G) (c_targets G) (c_set_mask G)
              (c_output_mask G) (c_sample_weights G) mode an adj ng, dims).
Proof.
  intros W Hrec.
  destruct (well_formed_inv G W)
    as (cn & n & ca & a & ct & t & sm & om & sw
        & (En & Ea & Et & Esm & Eom & Esw)
        & Hca & Hne & Hsh & Hend & Hb & Hbo & Hm & Hw).
  set (args := mkArgs _ _ _ _ _ _ _ _ _ _).
  destruct (init_contents_given args ca a (c_sample_weights G) (shape0 (c_set_mask G)))
    as (an & adj & dims & H1 & H2 & H3);
    cbn [args arg_nodes arg_arcs arg_targets arg_problem_based arg_set_mask
         arg_output_mask arg_sample_weights arg_NodeGraph arg_ArcNode
         arg_aggregation_mode]; try done.
  - by rewrite En.
  - rewrite En. cbn [shape0]. eapply Forall_impl; [exact Hend|].
    apply endpoints_valid_in_range.
  - by rewrite Et.
  - rewrite Esw, Et. cbn [mul_ones shape0]. by rewrite mul_row_ones.
  - cbn [mask_of]. rewrite Eom, Esm. cbn. by rewrite length_fmap.
  - exists an, adj, dims. split; [exact H1|]. split; [exact H2|].
    rewrite H3. cbn [args arg_nodes arg_arcs arg_targets arg_problem_based
      arg_set_mask arg_output_mask arg_sample_weights arg_NodeGraph arg_ArcNode
      arg_aggregation_mode mask_of coo_of_arg].
    rewrite Esm, Eom. unfold is_bool_array in Hb, Hbo. by rewrite Hb, Hbo.
Qed.

Lemma contents_app (h L : list cell) (l : loc) (G : graph_contents) :
  contents h l = Some G → contents (h ++ L) l = Some G.
Proof.
  apply contents_preserved. intros l' c. apply lookup_app_l_Some.
Qed.

(** X9. [copy] of a well-formed graph returns a new graph in new cells of
    the store: its nodes, arcs, targets, masks, sample weights, NodeGraph
    matrix and aggregation mode are those of the original; its ArcNode and
    adjacency matrices are built anew from the arcs for that mode, so they
    are the original's when those were built that way (a custom ArcNode is
    not carried over). The original is as it was. *)
Theorem copy_graph (h : list cell) (d : list (string * directory)) (self : loc)
    (G : graph_contents) :
  contents h self = Some G →
  well_formed G →
  recognized (c_aggregation_mode G) = true →
  ∃ l h' an adj,
    buildArcNode (c_arcs G) (c_nodes G) (c_aggregation_mode G) = Ok an
    ∧ buildAdjacency (c_arcs G) (c_nodes G) an = Ok adj
    ∧ copy self (mkState h d) = (Ok l, mkState (h ++ h') d)
    ∧ length h ≤ l
    ∧ contents (h ++ h') l
      = Some (mkContents (c_nodes G) (c_arcs G) (c_targets G) (c_set_mask G)
                (c_output_mask G) (c_sample_weights G) (c_aggregation_mode G)
                an adj (c_NodeGraph G))
    ∧ contents (h ++ h') self = Some G
    ∧ (c_ArcNode G = an → c_Adjacency G = adj → contents (h ++ h') l = Some G).
Proof.
  intros HG W Hrec.
  destruct (init_contents_same G "n" (c_aggregation_mode G) (c_NodeGraph G) W Hrec)
    as (an & adj & dims & Hb1 & Hb2 & Hinit).
  pose proof HG as (g & Hg & Hn & Ha & Ht & Hsm & Hom & Hsw & Emode & Ean & Eadj & Eng)%contents_inv.
  set (L := [CArray (c_arcs G); CArray (c_nodes G); CArray (c_targets G);
             CArray (c_set_mask G); CArray (c_output_mask G);
             CArray (c_sample_weights G)]).
  set (G' := mkContents _ _ _ _ _ _ _ _ _ _) in Hinit.
  exists (length (h ++ L) + 6), (L ++ init_cells (length (h ++ L)) G' dims), an, adj.
  split; [exact Hb1|]. split; [exact Hb2|].
  assert (contents (h ++ L ++ init_cells (length (h ++ L)) G' dims)
            (length (h ++ L) + 6) = Some G') as HG'.
  { rewrite app_assoc. apply contents_init_cells. }
  split; [|split; [rewrite length_app; lia|split; [exact HG'|split]]].
  - unfold copy, getArcs, getNodes, getTargets, getSetMask, getOutputMask,
      getSampleWeights.
    replace (mkState h d) with (mkState (h ++ []) d) by (by rewrite app_nil_r).
    rewrite (bind_run _ _ _ _ _ (get_copy_run arcs self h _ d g _ Hg Ha)).
    rewrite (bind_run _ _ _ _ _ (get_copy_run nodes self h _ d g _ Hg Hn)).
    rewrite (bind_run _ _ _ _ _ (get_copy_run targets self h _ d g _ Hg Ht)).
    rewrite (bind_run _ _ _ _ _ (get_copy_run set_mask self h _ d g _ Hg Hsm)).
    rewrite (bind_run _ _ _ _ _ (get_copy_run output_mask self h _ d g _ Hg Hom)).
    rewrite (bind_run _ _ _ _ _ (get_copy_run sample_weights self h _ d g _ Hg Hsw)).
    rewrite (bind_run _ _ _ _ _ (getNodeGraph_run h _ d self g Hg)).
    rewrite (bind_run _ _ _ _ _ (read_graph_old h _ d self g Hg)).
    cbn [app length].
    rewrite (bind_run _ _ _ _ _ (read_array_new h L d 0 _ eq_refl)).
    rewrite (bind_run _ _ _ _ _ (read_array_new h L d 1 _ eq_refl)).
    rewrite (bind_run _ _ _ _ _ (read_array_new h L d 2 _ eq_refl)).
    rewrite (bind_run _ _ _ _ _ (read_array_new h L d 3 _ eq_refl)).
    rewrite (bind_run _ _ _ _ _ (read_array_new h L d 4 _ eq_refl)).
    rewrite (bind_run _ _ _ _ _ (read_array_new h L d 5 _ eq_refl)).
    rewrite Emode, Eng.
    pose proof (GraphObject_init_run
                  {| arg_nodes := c_nodes G; arg_arcs := c_arcs G;
                     arg_targets := c_targets G; arg_problem_based := "n";
                     arg_set_mask := Some (c_set_mask G);
                     arg_output_mask := Some (c_output_mask G);
                     arg_sample_weights := WArray (c_sample_weights G);
                     arg_NodeGraph := Some (MSparse (c_NodeGraph G));
                     arg_ArcNode := None;
                     arg_aggregation_mode := c_aggregation_mode G |}
                  (mkState (h ++ L) d)) as Hrun.
    rewrite Hinit in Hrun. cbn [heap disk] in Hrun. rewrite Hrun.
    by rewrite <- app_assoc.
  - by apply contents_app.
  - intros <- <-. rewrite HG'. unfold G'. by destruct G.
Qed.

Lemma copy_graph_witness :
  ∃ l h' an adj,
    buildArcNode (c_arcs graph_example) (c_nodes graph_example)
      (c_aggregation_mode graph_example) = Ok an
    ∧ buildAdjacency (c_arcs graph_example) (c_nodes graph_example) an = Ok adj
    ∧ copy 6 (mkState (heap store_example) []) = (Ok l, mkState (heap store_example ++ h') [])
    ∧ length (heap store_example) ≤ l
    ∧ contents (heap store_example ++ h') l
      = Some (mkContents (c_nodes graph_example) (c_arcs graph_example)
                (c_targets graph_example) (c_set_mask graph_example)
                (c_output_mask graph_example) (c_sample_weights graph_example)
                (c_aggregation_mode graph_example) an adj (c_NodeGraph graph_example))
    ∧ contents (heap store_example ++ h') 6 = Some graph_example
    ∧ (c_ArcNode graph_example = an → c_Adjacency graph_example = adj
       → contents (heap store_example ++ h') l = Some graph_example).
Proof.
  apply (copy_graph (heap store_example) [] 6 graph_example).
  - reflexivity.
  - apply graph_example_well_formed.
  - reflexivity.
Defined.

(* ===================================================================== *)
(** * merge: the lists it rejects *)
(* ===================================================================== *)

Lemma raises_only_bind {A B : Type} (P : exn → Prop) (m : M A) (k : A → M B) :
  raises_only P m → (∀ a, raises_only P (k a)) → raises_only P (bind m k).
Proof.
  intros Hm Hk σ e σ'. unfold bind.
  destruct (m σ) as [[a|e1] σ1] eqn:E.
  - apply Hk.
  - intros [= <- <-]. by eapply Hm.
Qed.

Lemma raises_only_ret {A : Type} (P : exn → Prop) (a : A) : raises_only P (ret a).
Proof. by intros σ e σ'. Qed.

Lemma raises_only_alloc (P : exn → Prop) (c : cell) : raises_only P (alloc c).
Proof. by intros σ e σ'. Qed.

Lemma raises_only_read_graph (l : loc) : raises_only is_AttributeError (read_graph l).
Proof.
  intros σ e σ'. unfold read_graph.
  destruct (heap σ !! l) as [[?|?]|]; intros [= <- <-]; by eexists.
Qed.

Lemma raises_only_read_array (l : loc) : raises_only is_AttributeError (read_array l).
Proof.
  intros σ e σ'. unfold read_array.
  destruct (heap σ !! l) as [[?|?]|]; intros [= <- <-]; by eexists.
Qed.

Lemma raises_only_get_copy (attr : GraphObject → loc) (self : loc) :
  raises_only is_AttributeError (get_copy attr self).
Proof.
  unfold get_copy.
  apply raises_only_bind; [apply raises_only_read_graph|]. intros g.
  apply raises_only_bind; [apply raises_only_read_array|]. intros a.
  apply raises_only_alloc.
Qed.

Lemma raises_only_get_data (x : pyobj) : raises_only is_AttributeError (get_data x).
Proof.
  destruct x as [i|s|]; cbn [get_data]; try (intros σ e σ' [= <- <-]; by eexists).
  unfold getNodes, getArcs, getTargets, getSetMask, getOutputMask,
    getSampleWeights, getNodeGraph.
  repeat (apply raises_only_bind;
          [first [apply raises_only_get_copy | apply raises_only_read_graph
                 | apply raises_only_read_array]|intros ?]).
  apply raises_only_bind; [|intros ?; apply raises_only_ret].
  apply raises_only_bind; [apply raises_only_read_graph|].
  intros ?. apply raises_only_ret.
Qed.

(** A list that holds a str makes the collection of the graphs' data
    fail. *)
Lemma mapM_get_data_str (glist : list pyobj) (s : string) (σ : state) :
  PStr s ∈ glist →
  ∃ msg σ', mapM get_data glist σ = (Raise (AttributeError msg), σ').
Proof.
  revert σ. induction glist as [|x glist IH]; intros σ Hin; [by apply elem_of_nil in Hin|].
  cbn [mapM]. unfold bind at 1.
  destruct (get_data x σ) as [[y|e] σ1] eqn:E.
  - assert (PStr s ∈ glist) as Hin'.
    { apply elem_of_cons in Hin as [<-|?]; [done|done]. }
    destruct (IH σ1 Hin') as (msg & σ' & H). unfold bind. rewrite H.
    by eexists _, _.
  - destruct (raises_only_get_data x σ e σ1 E) as [msg ->]. by eexists _, _.
Qed.

(** X10. What [merge] rejects. A list with an element that is neither a
    GraphObject nor a str raises the TypeError of the check, before anything
    is read; the empty list raises a ValueError; and a list that passes the
    check but holds a str (the check lets strings through) raises an
    AttributeError, since a str has no getters. In the first two cases the
    store is untouched. *)
Theorem merge_rejects :
  (∀ glist pb mode σ,
     forallb is_graph_or_str glist = false →
     merge glist pb mode σ
     = (Raise (TypeError "type of param <glist> must be list of str 'path-like' or GraphObjects"), σ))
  ∧ (∀ pb mode σ,
       merge [] pb mode σ
       = (Raise (ValueError "not enough values to unpack (expected 8, got 0)"), σ))
  ∧ (∀ glist pb mode σ s,
       forallb is_graph_or_str glist = true → PStr s ∈ glist →
       ∃ msg, (merge glist pb mode σ).1 = Raise (AttributeError msg)).
Proof.
  split; [|split].
  - intros glist pb mode σ H. unfold merge. by rewrite H.
  - done.
  - intros glist pb mode σ s Hall Hin. unfold merge. rewrite Hall. cbn [negb].
    destruct (mapM_get_data_str glist s σ Hin) as (msg & σ' & H).
    exists msg. unfold bind. by rewrite H.
Qed.

Lemma merge_rejects_witness :
  merge [PGraph 6; POther] "n" "sum" store_example
  = (Raise (TypeError "type of param <glist> must be list of str 'path-like' or GraphObjects"),
     store_example)
  ∧ ∃ msg, (merge [PGraph 6; PStr "graphs/g0"] "n" "sum" store_example).1
           = Raise (AttributeError msg).
Proof.
  split.
  - apply (proj1 merge_rejects). reflexivity.
  - apply (proj2 (proj2 merge_rejects) _ "n" "sum" store_example "graphs/g0").
    + reflexivity.
    + set_solver.
Defined.

(* ===================================================================== *)
(** * save and load: the exact round trip *)
(* ===================================================================== *)

Lemma well_formed_nodes (G : graph_contents) : well_formed G → shape0 (c_nodes G) ≠ 0.
Proof.
  intros W. destruct (well_formed_inv G W)
    as (cn & n & ca & a & ct & t & sm & om & sw
        & (En & Ea & Et & Esm & Eom & Esw)
        & Hca & Hne & Hsh & Hend & _).
  rewrite En. cbn [shape0]. destruct a as [|r a]; [done|].
  apply Forall_cons in Hend as [(_ & _ & H & _) _]. lia.
Qed.

Lemma max_index_seq (k n : nat) :
  max_index (Z.of_nat <$> seq k (S n)) = Z.of_nat (k + n).
Proof.
  revert k. induction n as [|n IH]; intros k.
  - cbn. lia.
  - change (seq k (S (S n))) with (k :: seq (S k) (S n)).
    rewrite fmap_cons. unfold max_index. cbn [foldr]. fold (max_index (Z.of_nat <$> seq (S k) (S n))).
    rewrite IH. lia.
Qed.

Lemma max_index_zeros {A : Type} (l : list A) : max_index ((λ _, 0%Z) <$> l) = 0%Z.
Proof.
  induction l as [|x l IH]; [done|].
  rewrite fmap_cons. unfold max_index. cbn [foldr]. fold (max_index ((λ _, 0%Z) <$> l)).
  rewrite IH. lia.
Qed.

(** The pooling matrix of a single graph is stored and read back as it
    is. *)
Lemma buildNodeGraph_g_reloaded (nodes : ndarray) :
  shape0 nodes ≠ 0 →
  storable (buildNodeGraph nodes "g")
  ∧ reloaded (buildNodeGraph nodes "g") = buildNodeGraph nodes "g".
Proof.
  intros HN. rewrite buildNodeGraph_g by done.
  destruct (shape0 nodes) as [|n] eqn:EN; [done|].
  set (w := (1 / Qc_of_nat (S n))%Qc).
  unfold storable, reloaded, coo_of_entries.
  cbn [coo_row coo_col coo_data coo_shape].
  rewrite <- !list_fmap_compose.
  split.
  - rewrite !length_fmap. repeat split; [done..| | |].
    + apply Forall_fmap, Forall_forall. intros i _. cbn. lia.
    + apply Forall_fmap, Forall_forall. intros i _. cbn. lia.
    + done.
  - f_equal. f_equal.
    + change ((λ e : Z * Z * Qc, e.1.1) ∘ (λ i : nat, (Z.of_nat i, 0%Z, w)))
        with Z.of_nat.
      rewrite max_index_seq. lia.
    + change ((λ e : Z * Z * Qc, e.1.2) ∘ (λ i : nat, (Z.of_nat i, 0%Z, w)))
        with (λ _ : nat, 0%Z).
      by rewrite max_index_zeros.
Qed.

Lemma nodegraph_saved_shape (G : graph_contents) :
  nodegraph_saved G = true → (coo_shape (c_NodeGraph G)).2 ≠ 0.
Proof.
  unfold nodegraph_saved. intros [H _]%andb_true_iff.
  apply bool_decide_eq_true in H. tauto.
Qed.

(** A graph built for [pb] has a NodeGraph matrix that [save] can write
    and [load] reads back, or rebuilds, as it is. *)
Lemma built_for_nodegraph (G : graph_contents) (pb mode : string) :
  well_formed G → built_for G pb mode →
  (nodegraph_saved G = true → storable (c_NodeGraph G))
  ∧ (if nodegraph_saved G then reloaded (c_NodeGraph G)
     else buildNodeGraph (c_nodes G) pb) = c_NodeGraph G.
Proof.
  intros W (_ & _ & _ & _ & Eng).
  pose proof (well_formed_nodes G W) as HN.
  destruct (decide (pb = "g")) as [->|Hpb].
  - destruct (buildNodeGraph_g_reloaded (c_nodes G) HN) as [Hs Hr].
    rewrite Eng. split; [done|]. by destruct (nodegraph_saved G).
  - assert (c_NodeGraph G = coo_matrix_empty) as Hempty.
    { rewrite Eng. unfold buildNodeGraph. by rewrite decide_False. }
    assert (nodegraph_saved G = false) as Hs.
    { destruct (nodegraph_saved G) eqn:Hs; [|done].
      apply nodegraph_saved_shape in Hs. by rewrite Hempty in Hs. }
    rewrite Hs. split; [done|]. by rewrite Eng.
Qed.

(** X11. [save] followed by [load], with the problem type and the mode the
    graph was built for, returns the graph exactly: nodes, arcs, targets,
    masks and sample weights (written or left out as defaults), aggregation
    mode, ArcNode and adjacency matrices (rebuilt from the arcs, they are
    never written) and the NodeGraph matrix (read back from its stacked
    file, or rebuilt when it was not written). *)
Theorem save_load_identity (h : list cell) (d : list (string * directory))
    (path pb mode : string) (g : loc) (G : graph_contents) :
  contents h g = Some G →
  well_formed G →
  recognized mode = true →
  built_for G pb mode →
  path ≠ "" →
  contents_after (save g path;; load path pb mode) (mkState h d) = Some G.
Proof.
  intros HG W Hrec HB Hpath.
  destruct (built_for_nodegraph G pb mode W HB) as [Hst Hng].
  destruct HB as (Hlen & Emode & Han & Hadj & Eng).
  destruct (folder_path_Ok path Hpath) as (p & Hp & _).
  destruct (init_contents_loaded G pb mode W Hrec Hlen)
    as (G' & dims & Hinit & En & Ea & Et & Esm & Eom & Esw & Em).
  assert (G' = G) as ->.
  { apply init_contents_inv in Hinit
      as (n & _ & _ & _ & _ & _ & _ & _ & _ & _ & _ & _ & _ & _ & Han' & Hadj' & Eng').
    cbn [loaded_args arg_nodes arg_arcs arg_targets arg_problem_based
         arg_NodeGraph arg_ArcNode arg_aggregation_mode] in Han', Hadj', Eng'.
    rewrite Han in Han'. injection Han' as Han'.
    rewrite <- Han', Hadj in Hadj'. injection Hadj' as Hadj'.
    assert (c_NodeGraph G' = c_NodeGraph G) as Eng''.
    { rewrite Eng', <- Hng. by destruct (nodegraph_saved G). }
    clear -Han' Hadj' En Ea Et Esm Eom Esw Em Emode Eng''.
    destruct G, G'. cbn in *. congruence. }
  unfold contents_after, save, save_graph.
  assert (save_with np_save ".npy" path g (mkState h d)
          = (Ok tt, mkState h ((p, saved_directory np_save ".npy" G)
                               :: filter (λ e, String.prefix p e.1 = false) d))) as Hsave.
  { apply save_with_run; [done|apply W|apply W| |done].
    intros Hs. destruct (Hst Hs) as (? & ? & _). done. }
  rewrite (bind_run _ _ _ _ _ Hsave).
  rewrite (load_run path p pb mode h _ G Hp Hst).
  pose proof (GraphObject_init_run (loaded_args G pb mode)
                (mkState h ((p, saved_directory np_save ".npy" G)
                            :: filter (λ e, String.prefix p e.1 = false) d))) as Hrun.
  rewrite Hinit in Hrun. rewrite Hrun. cbn [heap]. apply contents_init_cells.
Qed.

Lemma pooled_example_well_formed : well_formed pooled_example.
Proof.
  split; cbn; try done.
  - exists 3. by split; [|lia].
  - by repeat constructor.
  - repeat constructor; cbn; try apply integral_of_Z;
      rewrite trunc_of_Z; lia.
Qed.

Lemma pooled_example_built : built_for pooled_example "g" "sum".
Proof. by repeat split. Qed.

Lemma save_load_identity_witness :
  contents_after (save 6 "graph";; load "graph" "g" "sum")
    (mkState (heap store_pooled) []) = Some pooled_example.
Proof.
  apply (save_load_identity (heap store_pooled) [] "graph" "g" "sum" 6 pooled_example).
  - reflexivity.
  - apply pooled_example_well_formed.
  - reflexivity.
  - apply pooled_example_built.
  - discriminate.
Defined.

(* ===================================================================== *)
(** * save: what it leaves on the disk *)
(* ===================================================================== *)

Lemma lookup_dir_cons (q : string) (e : string * directory)
    (d : list (string * directory)) :
  lookup_dir q (e :: d) = if decide (e.1 = q) then Some e.2 else lookup_dir q d.
Proof.
  unfold lookup_dir. cbn [list_find]. case_decide; [done|].
  by destruct (list_find _ d) as [[i x]|].
Qed.

Lemma prefix_eq_false (p q : string) : String.prefix p q = false → p ≠ q.
Proof. intros H ->. by rewrite prefix_refl in H. Qed.

Lemma lookup_dir_filter (p q : string) (d : list (string * directory)) :
  String.prefix p q = false →
  lookup_dir q (filter (λ e, String.prefix p e.1 = false) d) = lookup_dir q d.
Proof.
  intros Hq. induction d as [|e d IH]; [done|].
  rewrite filter_cons, (lookup_dir_cons q e d). case_decide as He.
  - rewrite lookup_dir_cons. by rewrite IH.
  - rewrite IH. rewrite decide_False; [done|]. intros E. by rewrite E in He.
Qed.

Lemma filter_idemp {A : Type} (P : A → Prop) `{!∀ x, Decision (P x)} (l : list A) :
  filter P (filter P l) = filter P l.
Proof. apply filter_all. apply Forall_forall. by intros x [? _]%list_elem_of_filter. Qed.

(** X12. [save_graph] and [save_txt] (one body, two codecs) empty the
    folder they write to: afterwards it holds the files of this graph and
    nothing else, arcs, nodes and targets first, then each of set_mask,
    output_mask, sample_weights and NodeGraph that is not a default.
    Folders that are not below it are as before, the store of arrays is
    unchanged, and saving again changes nothing. *)
Theorem save_replaces_folder (put : ndarray → file) (ext path p : string)
    (h : list cell) (d : list (string * directory)) (g : loc) (G : graph_contents) :
  contents h g = Some G →
  is_vector (c_set_mask G) → is_vector (c_output_mask G) →
  length (coo_row (c_NodeGraph G)) = length (coo_data (c_NodeGraph G)) →
  length (coo_col (c_NodeGraph G)) = length (coo_data (c_NodeGraph G)) →
  folder_path path = Ok p →
  ∃ d',
    save_with put ext path g (mkState h d) = (Ok tt, mkState h d')
    ∧ lookup_dir p d' = Some (saved_directory put ext G)
    ∧ (∀ q, String.prefix p q = false → lookup_dir q d' = lookup_dir q d)
    ∧ save_with put ext path g (mkState h d') = (Ok tt, mkState h d').
Proof.
  intros HG Vsm Vom Hr Hc Hp.
  exists ((p, saved_directory put ext G) :: filter (λ e, String.prefix p e.1 = false) d).
  split; [by apply save_with_run|]. split; [|split].
  - rewrite lookup_dir_cons. by rewrite decide_True.
  - intros q Hq. rewrite lookup_dir_cons.
    rewrite decide_False by (by apply prefix_eq_false).
    by apply lookup_dir_filter.
  - rewrite (save_with_run put ext path p h _ g G) by done.
    rewrite filter_cons. cbn [fst]. rewrite prefix_refl.
    rewrite decide_False by done. by rewrite filter_idemp.
Qed.

Lemma save_replaces_folder_witness :
  ∃ d',
    save_with np_save ".npy" "graph" 6 (mkState (heap store_pooled) [("graph/", [("old.npy", FNpy (Arr1 []))])])
    = (Ok tt, mkState (heap store_pooled) d')
    ∧ lookup_dir "graph/" d' = Some (saved_directory np_save ".npy" pooled_example)
    ∧ (∀ q, String.prefix "graph/" q = false
            → lookup_dir q d' = lookup_dir q [("graph/", [("old.npy", FNpy (Arr1 []))])])
    ∧ save_with np_save ".npy" "graph" 6 (mkState (heap store_pooled) d')
      = (Ok tt, mkState (heap store_pooled) d').
Proof.
  apply (save_replaces_folder np_save ".npy" "graph" "graph/" (heap store_pooled)
           [("graph/", [("old.npy", FNpy (Arr1 []))])] 6 pooled_example).
  - reflexivity.
  - exact I.
  - exact I.
  - reflexivity.
  - reflexivity.
  - reflexivity.
Defined.

(* ===================================================================== *)
(** * load: the folders it rejects *)
(* ===================================================================== *)

Lemma forallb_eq_true {A : Type} (f : A → bool) (l : list A) :
  forallb f l = true ↔ Forall (λ x, f x = true) l.
Proof.
  induction l as [|x l IH]; cbn; [by split|].
  rewrite andb_true_iff, IH, Forall_cons. done.
Qed.

Lemma listdir_missing (p : string) (σ : state) :
  lookup_dir p (disk σ) = None →
  listdir p σ = (Raise (FileNotFoundError p), σ).
Proof. intros H. unfold listdir, bind, get_disk. by rewrite H. Qed.

Lemma load_values (files : directory) :
  all_binary files →
  ∃ vals,
    foldr (λ (i : string * file) acc, try! v ← np_load i.2; try! vs ← acc; Ok (v :: vs))
          (Ok []) files = Ok vals
    ∧ length vals = length files.
Proof.
  induction 1 as [|[name f] files [a Hf] _ (vals & IH & Hlen)].
  - by exists [].
  - exists (a :: vals). cbn [foldr snd] in *. rewrite IH, Hf. cbn. by rewrite Hlen.
Qed.

Lemma dict_get_foldl_None {A : Type} (k : string) (d : list (string * A)) (acc : option A) :
  Forall (λ kv, kv.1 ≠ k) d →
  foldl (λ acc kv, if decide (kv.1 = k) then Some kv.2 else acc) acc d = acc.
Proof.
  intros H. revert acc. induction H as [|kv d Hkv _ IH]; intros acc; [done|].
  cbn [foldl]. rewrite decide_False by done. apply IH.
Qed.

Lemma dict_get_None {A : Type} (k : string) (d : list (string * A)) :
  Forall (λ kv, kv.1 ≠ k) d → dict_get k d = None.
Proof. apply dict_get_foldl_None. Qed.

(** The keyword dictionary of [load] has the stems of the files for keys,
    the two names of the string parameters apart. *)
Lemma params_keys {A : Type} (keys : list string) (vals : list A) (k : string) :
  k ∉ keys →
  Forall (λ kv : string * A, kv.1 ≠ k)
    (filter (λ kv, kv.1 ≠ "problem_based" ∧ kv.1 ≠ "aggregation_mode") (zip keys vals)).
Proof.
  intros Hk. apply Forall_forall. intros [k' v] [_ Hin]%list_elem_of_filter.
  apply elem_of_zip_l in Hin. cbn. by intros ->.
Qed.

Lemma params_key_in {A : Type} (keys : list string) (vals : list A) (k : string) :
  length vals = length keys → k ∈ keys →
  k ≠ "problem_based" → k ≠ "aggregation_mode" →
  ∃ v, (k, v) ∈ filter (λ kv : string * A, kv.1 ≠ "problem_based" ∧ kv.1 ≠ "aggregation_mode")
                  (zip keys vals).
Proof.
  intros Hlen Hk H1 H2.
  apply list_elem_of_lookup in Hk as [i Hi].
  destruct (lookup_lt_is_Some_2 vals i) as [v Hv].
  { rewrite Hlen. by eapply lookup_lt_Some. }
  exists v. apply list_elem_of_filter. split; [done|].
  apply list_elem_of_lookup. exists i. rewrite lookup_zip_with, Hi. cbn. by rewrite Hv.
Qed.

(** X13. What [load] rejects. A folder that does not exist raises
    FileNotFoundError. In a folder of binary files without a NodeGraph file:
    a file whose name before the dot is not a parameter of the constructor
    raises the TypeError of an unexpected keyword argument; and when all
    names are parameters but the nodes, arcs or targets file is missing, the
    TypeError of a missing argument is raised. *)
Theorem load_rejects :
  (∀ path p pb mode σ,
     folder_path path = Ok p → lookup_dir p (disk σ) = None →
     load path pb mode σ = (Raise (FileNotFoundError p), σ))
  ∧ (∀ path p pb mode h rest files name,
       folder_path path = Ok p → all_binary files →
       "NodeGraph" ∉ stems files →
       name ∈ stems files → name ∉ init_keywords →
       (load path pb mode (mkState h ((p, files) :: rest))).1
       = Raise (TypeError "__init__() got an unexpected keyword argument"))
  ∧ (∀ path p pb mode h rest files name,
       folder_path path = Ok p → all_binary files →
       "NodeGraph" ∉ stems files →
       Forall (λ k, k ∈ init_keywords) (stems files) →
       name ∈ ["nodes"; "arcs"; "targets"] → name ∉ stems files →
       (load path pb mode (mkState h ((p, files) :: rest))).1
       = Raise (TypeError "__init__() missing required positional argument")).
Proof.
  split; [|split].
  - intros path p pb mode σ Hp Hd. unfold load, load_with.
    rewrite (bind_lift _ _ _ _ Hp). unfold bind at 1.
    by rewrite (listdir_missing p σ Hd).
  - intros path p pb mode h rest files name Hp Hbin Hng Hname Hkw.
    destruct (load_values files Hbin) as (vals & Hvals & Hlen).
    unfold load, load_with.
    rewrite (bind_lift _ _ _ _ Hp).
    rewrite (bind_run _ _ _ _ _ (listdir_head h p files rest)).
    rewrite (bind_lift _ _ _ _ Hvals). cbv zeta. fold (stems files).
    rewrite (dict_get_None "NodeGraph") by (by apply params_keys).
    unfold bind at 1, ret.
    destruct (params_key_in (stems files) vals name) as [v Hv].
    { unfold stems. by rewrite Hlen, length_fmap. }
    { done. }
    { intros ->. apply Hkw. set_solver. }
    { intros ->. apply Hkw. set_solver. }
    set (params := filter _ _) in *.
    assert (forallb (λ kv : string * ndarray, bool_decide (kv.1 ∈ init_keywords)) params
            = false) as ->; [|done].
    apply not_true_is_false. intros Hall. rewrite forallb_eq_true, Forall_forall in Hall.
    apply Hall, bool_decide_eq_true in Hv. done.
  - intros path p pb mode h rest files name Hp Hbin Hng Hall Hname Hmiss.
    destruct (load_values files Hbin) as (vals & Hvals & Hlen).
    unfold load, load_with.
    rewrite (bind_lift _ _ _ _ Hp).
    rewrite (bind_run _ _ _ _ _ (listdir_head h p files rest)).
    rewrite (bind_lift _ _ _ _ Hvals). cbv zeta. fold (stems files).
    rewrite (dict_get_None "NodeGraph") by (by apply params_keys).
    unfold bind at 1, ret.
    pose proof (params_keys (stems files) vals name Hmiss) as Hnone.
    apply dict_get_None in Hnone.
    set (params := filter _ _) in *.
    assert (forallb (λ kv : string * ndarray, bool_decide (kv.1 ∈ init_keywords)) params
            = true) as ->.
    { apply forallb_eq_true, Forall_forall. intros [k v] Hin.
      apply bool_decide_eq_true. unfold params in Hin.
      apply list_elem_of_filter in Hin as [_ Hin]. apply elem_of_zip_l in Hin.
      rewrite Forall_forall in Hall. by apply Hall. }
    cbn [negb]. unfold bind, lift, required.
    assert (name = "nodes" ∨ name = "arcs" ∨ name = "targets") as Hcases by set_solver.
    destruct (dict_get "nodes" params) eqn:E1; [|done].
    destruct (dict_get "arcs" params) eqn:E2; [|done].
    destruct (dict_get "targets" params) eqn:E3; [|done].
    destruct Hcases as [-> | [-> | ->]]; congruence.
Qed.

Lemma load_rejects_witness :
  load "nowhere" "n" "sum" store_example
  = (Raise (FileNotFoundError "nowhere/"), store_example)
  ∧ (load "graph" "n" "sum"
       (mkState [] [("graph/", saved_directory np_save ".npy" graph_example
                               ++ [("Adjacency.npy", FNpy (Arr1 []))])])).1
    = Raise (TypeError "__init__() got an unexpected keyword argument")
  ∧ (load "graph" "n" "sum"
       (mkState [] [("graph/", [("arcs.npy", FNpy arcs_example);
                                ("nodes.npy", FNpy nodes_example)])])).1
    = Raise (TypeError "__init__() missing required positional argument").
Proof.
  split; [|split].
  - apply (proj1 load_rejects "nowhere" "nowhere/" "n" "sum" store_example);
      reflexivity.
  - apply (proj1 (proj2 load_rejects) "graph" "graph/" "n" "sum" [] []
             (saved_directory np_save ".npy" graph_example
              ++ [("Adjacency.npy", FNpy (Arr1 []))]) "Adjacency").
    + reflexivity.
    + repeat constructor; by eexists.
    + cbn. set_solver.
    + cbn. set_solver.
    + unfold init_keywords. set_solver.
  - apply (proj2 (proj2 load_rejects) "graph" "graph/" "n" "sum" [] []
             [("arcs.npy", FNpy arcs_example); ("nodes.npy", FNpy nodes_example)]
             "targets").
    + reflexivity.
    + repeat constructor; by eexists.
    + cbn. set_solver.
    + cbn. unfold init_keywords. repeat constructor; set_solver.
    + set_solver.
    + cbn. set_solver.
Defined.

(* ===================================================================== *)
(** * savetxt and load_txt: the round trip of a graph with default masks *)
(* ===================================================================== *)

Lemma np_loadtxt_savetxt (fmt : Qc → Qc) (a : ndarray) :
  textable a → fixed_by fmt a → np_loadtxt (np_savetxt fmt a) = Ok a.
Proof.
  destruct a as [v|c rows]; [done|]. intros (Hc & Hne & Hsh) Hfix.
  unfold fixed_by in Hfix. cbn in Hfix. injection Hfix as Hfix.
  unfold np_savetxt. rewrite Hfix. unfold np_loadtxt.
  rewrite filter_all.
  - destruct rows as [|l0 ls]; [done|].
    apply Forall_cons in Hsh as [H0 Hls]. subst c.
    by rewrite bool_decide_eq_true_2.
  - eapply Forall_impl; [exact Hsh|]. intros r Hr ->. done.
Qed.

Lemma textable_stacked (m : coo) : storable m → textable (stacked m).
Proof.
  intros (Hr & Hc & _ & _ & Hne). unfold stacked, textable.
  split; [by destruct (coo_data m)|]. split; [done|].
  repeat constructor; by rewrite ?length_fmap.
Qed.

(** What [load_txt] does with a folder written by [save_txt] for a graph
    whose masks and weights are the defaults. *)
Lemma load_txt_run (fmt : Qc → Qc) (path p pb mode : string) (h : list cell)
    (rest : list (string * directory)) (G : graph_contents) :
  folder_path path = Ok p →
  forallb truthy (elements_of (c_set_mask G)) = true →
  forallb truthy (elements_of (c_output_mask G)) = true →
  any_ne_one (c_sample_weights G) = false →
  np_loadtxt (np_savetxt fmt (c_arcs G)) = Ok (c_arcs G) →
  np_loadtxt (np_savetxt fmt (c_nodes G)) = Ok (c_nodes G) →
  np_loadtxt (np_savetxt fmt (c_targets G)) = Ok (c_targets G) →
  (nodegraph_saved G = true →
     storable (c_NodeGraph G)
     ∧ np_loadtxt (np_savetxt fmt (stacked (c_NodeGraph G)))
       = Ok (stacked (c_NodeGraph G))) →
  load_txt path pb mode
    (mkState h ((p, saved_directory (np_savetxt fmt) ".txt" G) :: rest))
  = GraphObject_init (loaded_args G pb mode)
      (mkState h ((p, saved_directory (np_savetxt fmt) ".txt" G) :: rest)).
Proof.
  intros Hp Hsm Hom Hsw Ha Hn Ht Hng. unfold load_txt, load_with.
  rewrite (bind_lift _ _ _ _ Hp).
  rewrite (bind_run _ _ _ _ _ (listdir_head h p _ rest)).
  unfold saved_directory, loaded_args. rewrite Hsm, Hom, Hsw.
  cbn [negb optional_file app].
  destruct (nodegraph_saved G) eqn:Hs; cbn [optional_file app].
  - destruct (Hng eq_refl) as [Hst Hfile].
    apply coo_of_stacked_storable in Hst.
    assert (foldr (λ (i : string * file) acc,
                     try! v ← np_loadtxt i.2; try! vs ← acc; Ok (v :: vs)) (Ok [])
              [("arcs.txt", np_savetxt fmt (c_arcs G));
               ("nodes.txt", np_savetxt fmt (c_nodes G));
               ("targets.txt", np_savetxt fmt (c_targets G));
               ("NodeGraph.txt", np_savetxt fmt (stacked (c_NodeGraph G)))]
            = Ok [c_arcs G; c_nodes G; c_targets G; stacked (c_NodeGraph G)]) as Hvals.
    { cbn [foldr snd]. by rewrite Ha, Hn, Ht, Hfile. }
    rewrite (bind_lift _ _ _ _ Hvals). cbv zeta.
    match goal with
    | |- context [dict_get "NodeGraph" ?ps] =>
        change (dict_get "NodeGraph" ps) with (Some (stacked (c_NodeGraph G)))
    end.
    cbv beta iota. rewrite Hst. reflexivity.
  - assert (foldr (λ (i : string * file) acc,
                     try! v ← np_loadtxt i.2; try! vs ← acc; Ok (v :: vs)) (Ok [])
              [("arcs.txt", np_savetxt fmt (c_arcs G));
               ("nodes.txt", np_savetxt fmt (c_nodes G));
               ("targets.txt", np_savetxt fmt (c_targets G))]
            = Ok [c_arcs G; c_nodes G; c_targets G]) as Hvals.
    { cbn [foldr snd]. by rewrite Ha, Hn, Ht. }
    rewrite (bind_lift _ _ _ _ Hvals). reflexivity.
Qed.

(** X14. The text codec on a graph whose masks are all true and whose
    sample weights are all 1 (so that none of them is written): where the
    format writes the entries of nodes, arcs, targets and of the stacked
    NodeGraph exactly, [savetxt] followed by [load_txt], with the problem
    type and the mode the graph was built for, returns the graph exactly. *)
Theorem savetxt_load_txt_defaults (fmt : Qc → Qc) (h : list cell)
    (d : list (string * directory)) (path pb mode : string) (g : loc)
    (G : graph_contents) :
  contents h g = Some G →
  well_formed G →
  recognized mode = true →
  built_for G pb mode →
  path ≠ "" →
  forallb truthy (elements_of (c_set_mask G)) = true →
  forallb truthy (elements_of (c_output_mask G)) = true →
  any_ne_one (c_sample_weights G) = false →
  textable (c_nodes G) → textable (c_arcs G) → textable (c_targets G) →
  fixed_by fmt (c_nodes G) → fixed_by fmt (c_arcs G) → fixed_by fmt (c_targets G) →
  (nodegraph_saved G = true → fixed_by fmt (stacked (c_NodeGraph G))) →
  contents_after (savetxt g path fmt;; load_txt path pb mode) (mkState h d) = Some G.
Proof.
  intros HG W Hrec HB Hpath Hsm Hom Hsw Tn Ta Tt Fn Fa Ft Fng.
  destruct (built_for_nodegraph G pb mode W HB) as [Hst Hng].
  destruct HB as (Hlen & Emode & Han & Hadj & Eng).
  destruct (folder_path_Ok path Hpath) as (p & Hp & _).
  destruct (init_contents_loaded G pb mode W Hrec Hlen)
    as (G' & dims & Hinit & En & Ea & Et & Esm & Eom & Esw & Em).
  assert (G' = G) as ->.
  { apply init_contents_inv in Hinit
      as (n & _ & _ & _ & _ & _ & _ & _ & _ & _ & _ & _ & _ & _ & Han' & Hadj' & Eng').
    cbn [loaded_args arg_nodes arg_arcs arg_targets arg_problem_based
         arg_NodeGraph arg_ArcNode arg_aggregation_mode] in Han', Hadj', Eng'.
    rewrite Han in Han'. injection Han' as Han'.
    rewrite <- Han', Hadj in Hadj'. injection Hadj' as Hadj'.
    assert (c_NodeGraph G' = c_NodeGraph G) as Eng''.
    { rewrite Eng', <- Hng. by destruct (nodegraph_saved G). }
    clear -Han' Hadj' En Ea Et Esm Eom Esw Em Emode Eng''.
    destruct G, G'. cbn in *. congruence. }
  unfold contents_after, savetxt, save_txt.
  assert (save_with (np_savetxt fmt) ".txt" path g (mkState h d)
          = (Ok tt, mkState h ((p, saved_directory (np_savetxt fmt) ".txt" G)
                               :: filter (λ e, String.prefix p e.1 = false) d))) as Hsave.
  { apply save_with_run; [done|apply W|apply W| |done].
    intros Hs. destruct (Hst Hs) as (? & ? & _). done. }
  rewrite (bind_run _ _ _ _ _ Hsave).
  rewrite (load_txt_run fmt path p pb mode h _ G Hp Hsm Hom Hsw);
    try (by apply np_loadtxt_savetxt).
  - pose proof (GraphObject_init_run (loaded_args G pb mode)
                  (mkState h ((p, saved_directory (np_savetxt fmt) ".txt" G)
                              :: filter (λ e, String.prefix p e.1 = false) d))) as Hrun.
    rewrite Hinit in Hrun. rewrite Hrun. cbn [heap]. apply contents_init_cells.
  - intros Hs. split; [by apply Hst|].
    apply np_loadtxt_savetxt; [by apply textable_stacked, Hst|by apply Fng].
Qed.

Lemma savetxt_load_txt_defaults_witness :
  contents_after (savetxt 6 "graph" (λ x, x);; load_txt "graph" "g" "sum")
    (mkState (heap store_pooled) []) = Some pooled_example.
Proof.
  apply (savetxt_load_txt_defaults (λ x, x) (heap store_pooled) [] "graph" "g" "sum"
           6 pooled_example).
  - reflexivity.
  - apply pooled_example_well_formed.
  - reflexivity.
  - apply pooled_example_built.
  - discriminate.
  - reflexivity.
  - reflexivity.
  - reflexivity.
  - cbn. by repeat constructor.
  - cbn. by repeat constructor.
  - cbn. by repeat constructor.
  - apply astype_float_id.
  - apply astype_float_id.
  - apply astype_float_id.
  - intros _. apply astype_float_id.
Defined.

(* ===================================================================== *)
(** * GraphTensor: copy, and the way back to a GraphObject *)
(* ===================================================================== *)

Lemma map_array_float32_idemp (a : ndarray) :
  map_array float32 (map_array float32 a) = map_array float32 a.
Proof.
  destruct a as [v|c rows]; cbn [map_array]; f_equal;
    rewrite <- list_fmap_compose; apply list_fmap_ext; intros i x _; cbv [compose].
  - apply float32_idemp.
  - rewrite <- list_fmap_compose. apply list_fmap_ext. intros j y _. apply float32_idemp.
Qed.

(** X15. A GraphTensor that its constructor returned is copied to an equal
    one: the casts of the constructor change nothing the second time. *)
Theorem GraphTensor_copy_equal (nodes arcs targets set_mask output_mask
    sample_weights : ndarray) (Adjacency ArcNode NodeGraph : SparseTensor)
    (mode : string) (t : GraphTensor) :
  GraphTensor_init nodes arcs targets set_mask output_mask sample_weights
    Adjacency ArcNode NodeGraph mode = Ok t →
  GraphTensor_copy t = Ok t.
Proof.
  unfold GraphTensor_copy, GraphTensor_init.
  destruct (shape1 nodes) as [d1|] eqn:S1; [|done].
  destruct (shape1 arcs) as [d2|] eqn:S2; [|done].
  destruct (shape1 targets) as [d3|] eqn:S3; [|done].
  cbn [rbind]. intros [= <-].
  cbn [t_nodes t_arcs t_targets t_set_mask t_output_mask t_sample_weights
       t_Adjacency t_ArcNode t_NodeGraph t_aggregation_mode].
  rewrite !astype_float_id, map_array_float32_idemp, S1, S2, S3. cbn [rbind].
  pose proof (astype_bool_idemp set_mask) as H1.
  pose proof (astype_bool_idemp output_mask) as H2.
  unfold is_bool_array in H1, H2. by rewrite H1, H2.
Qed.

Lemma GraphTensor_init_example :
  GraphTensor_init nodes_example arcs_example targets_example
    ones_example ones_example ones_example
    (mkSparseTensor [] [] (3, 3)) (mkSparseTensor [] [] (3, 3))
    (mkSparseTensor [] [] (1, 0)) "sum"
  = Ok (mkGraphTensor 1 1%Z 1 nodes_example arcs_example targets_example
          ones_example ones_example ones_example "sum"
          (mkSparseTensor [] [] (3, 3)) (mkSparseTensor [] [] (3, 3))
          (mkSparseTensor [] [] (1, 0))).
Proof.
  unfold GraphTensor_init. cbn [shape1 nodes_example arcs_example targets_example rbind].
  rewrite !astype_float_id.
  pose proof (np_ones_bool 3) as H. unfold is_bool_array in H.
  change (np_ones 3) with ones_example in H. rewrite H.
  assert (map_array float32 ones_example = ones_example) as ->; [|done].
  apply (bool_decide_unpack _). by vm_compute.
Qed.

Lemma GraphTensor_copy_equal_witness :
  GraphTensor_copy
    (mkGraphTensor 1 1%Z 1 nodes_example arcs_example targets_example
       ones_example ones_example ones_example "sum"
       (mkSparseTensor [] [] (3, 3)) (mkSparseTensor [] [] (3, 3))
       (mkSparseTensor [] [] (1, 0)))
  = Ok (mkGraphTensor 1 1%Z 1 nodes_example arcs_example targets_example
          ones_example ones_example ones_example "sum"
          (mkSparseTensor [] [] (3, 3)) (mkSparseTensor [] [] (3, 3))
          (mkSparseTensor [] [] (1, 0))).
Proof.
  apply (GraphTensor_copy_equal nodes_example arcs_example targets_example
           ones_example ones_example ones_example
           (mkSparseTensor [] [] (3, 3)) (mkSparseTensor [] [] (3, 3))
           (mkSparseTensor [] [] (1, 0)) "sum").
  apply GraphTensor_init_example.
Defined.

(** The run of [fromGraphObject] on a stored graph whose matrices
    convert. *)
Lemma fromGraphObject_run (h : list cell) (d : list (string * directory))
    (g : loc) (G : graph_contents) (tadj tan tng : SparseTensor) (c1 c2 c3 : nat) :
  contents h g = Some G →
  shape1 (c_nodes G) = Ok c1 → shape1 (c_arcs G) = Ok c2 →
  shape1 (c_targets G) = Ok c3 →
  COO2SparseTensor (c_Adjacency G) = Ok tadj →
  COO2SparseTensor (c_ArcNode G) = Ok tan →
  COO2SparseTensor (c_NodeGraph G) = Ok tng →
  fromGraphObject g (mkState h d)
  = (Ok (mkGraphTensor c1 (Z.of_nat c2 - 2)%Z c3 (c_nodes G) (c_arcs G)
           (c_targets G) (map_array float32 (c_sample_weights G))
           (astype_bool (c_set_mask G))
           (astype_bool (c_output_mask G)) (c_aggregation_mode G) tadj tan tng),
     mkState h d).
Proof.
  intros (go & Hg & Hn & Ha & Ht & Hsm & Hom & Hsw & Em & Han & Hadj & Hng)%contents_inv
         S1 S2 S3 Eadj Ean Eng.
  unfold fromGraphObject.
  rewrite (bind_run _ _ _ _ _ (read_graph_run h d g go Hg)).
  rewrite (bind_run _ _ _ _ _ (read_array_run h d _ _ Hn)).
  rewrite (bind_run _ _ _ _ _ (read_array_run h d _ _ Ha)).
  rewrite (bind_run _ _ _ _ _ (read_array_run h d _ _ Ht)).
  rewrite (bind_run _ _ _ _ _ (read_array_run h d _ _ Hsm)).
  rewrite (bind_run _ _ _ _ _ (read_array_run h d _ _ Hom)).
  rewrite (bind_run _ _ _ _ _ (read_array_run h d _ _ Hsw)).
  rewrite Hng, Hadj, Han, Em.
  rewrite (bind_lift _ _ _ _ Eng), (bind_lift _ _ _ _ Eadj), (bind_lift _ _ _ _ Ean).
  unfold GraphTensor_init. rewrite S1, S2, S3. cbn [rbind lift].
  by rewrite !astype_float_id.
Qed.

(** X16. From a GraphObject to a GraphTensor and back. For a problem type
    other than 'g' the new graph has the nodes, arcs, targets, masks and
    aggregation mode of the original, an ArcNode and an adjacency matrix
    built anew from the arcs, and the empty NodeGraph matrix; its sample
    weights are the original's converted to float32, as the tensor holds
    them: the float32 numbers among them come back as they were, the others
    rounded (16777217 comes back as 16777216). The original is as it was.
    For 'g' the way back never returns a graph: it asks the NodeGraph
    tensor, a sparse one, for [numpy()], which only dense tensors have, and
    the store is untouched. The weights are taken within the range of
    float32, beyond which the conversion gives an infinity. *)
Theorem tensor_roundtrip (h : list cell) (d : list (string * directory))
    (g : loc) (G : graph_contents) (pb : string) :
  contents h g = Some G →
  well_formed G →
  recognized (c_aggregation_mode G) = true →
  convertible (c_Adjacency G) → convertible (c_ArcNode G) →
  convertible (c_NodeGraph G) →
  Forall in_float32_range (elements_of (c_sample_weights G)) →
  pb ≠ "g" →
  ∃ t l h' an adj,
    fromGraphObject g (mkState h d) = (Ok t, mkState h d)
    ∧ fromGraphTensor t pb (mkState h d) = (Ok l, mkState (h ++ h') d)
    ∧ buildArcNode (c_arcs G) (c_nodes G) (c_aggregation_mode G) = Ok an
    ∧ buildAdjacency (c_arcs G) (c_nodes G) an = Ok adj
    ∧ contents (h ++ h') l
      = Some (mkContents (c_nodes G) (c_arcs G) (c_targets G) (c_set_mask G)
                (c_output_mask G)
                (Arr1 (float32 <$> elements_of (c_sample_weights G)))
                (c_aggregation_mode G) an adj coo_matrix_empty)
    ∧ (Forall (λ w, float32 w = w) (elements_of (c_sample_weights G)) →
       contents (h ++ h') l
       = Some (mkContents (c_nodes G) (c_arcs G) (c_targets G) (c_set_mask G)
                 (c_output_mask G) (c_sample_weights G)
                 (c_aggregation_mode G) an adj coo_matrix_empty))
    ∧ contents (h ++ h') g = Some G
    ∧ fromGraphTensor t "g" (mkState h d)
      = (Raise (AttributeError "'SparseTensor' object has no attribute 'numpy'"),
         mkState h d).
Proof.
  intros HG W Hrec Cadj Can Cng _ Hpb.
  destruct (COO2SparseTensor_reordered _ Cadj) as (tadj & Eadj & _).
  destruct (COO2SparseTensor_reordered _ Can) as (tan & Ean & _).
  destruct (COO2SparseTensor_reordered _ Cng) as (tng & Eng & _).
  destruct (shape1_matrix _ (wf_nodes G W)) as [c1 S1].
  destruct (shape1_matrix _ (wf_arcs G W)) as [c2 S2].
  destruct (shape1_matrix _ (wf_targets G W)) as [c3 S3].
  pose proof (fromGraphObject_run h d g G tadj tan tng c1 c2 c3
                HG S1 S2 S3 Eadj Ean Eng) as Hrun.
  destruct (wf_set_mask G W) as [_ Bsm]. destruct (wf_output_mask G W) as [_ Bom].
  unfold is_bool_array in Bsm, Bom. rewrite Bsm, Bom in Hrun.
  set (t := mkGraphTensor _ _ _ _ _ _ _ _ _ _ _ _ _) in Hrun.
  (* the constructor on the arrays of the tensor *)
  destruct (well_formed_inv G W)
    as (cn & n & ca & a & ct & tg & sm & om & sw
        & (En & Ea & Et & Esm & Eom & Esw)
        & Hca & Hne & Hsh & Hend & Hb & Hbo & Hm & Hw).
  set (args := {|
    arg_nodes := c_nodes G; arg_arcs := c_arcs G; arg_targets := c_targets G;
    arg_problem_based := pb;
    arg_set_mask := Some (c_set_mask G);
    arg_output_mask := Some (c_output_mask G);
    arg_sample_weights := WArray (map_array float32 (c_sample_weights G));
    arg_NodeGraph := None; arg_ArcNode := None;
    arg_aggregation_mode := c_aggregation_mode G |}).
  destruct (init_contents_given args ca a
              (Arr1 (float32 <$> elements_of (c_sample_weights G)))
              (shape0 (c_set_mask G)))
    as (an & adj & dims & H1 & H2 & H3);
    cbn [args arg_nodes arg_arcs arg_targets arg_problem_based arg_set_mask
         arg_output_mask arg_sample_weights arg_NodeGraph arg_ArcNode
         arg_aggregation_mode]; try done.
  { by rewrite En. }
  { rewrite En. cbn [shape0]. eapply Forall_impl; [exact Hend|].
    apply endpoints_valid_in_range. }
  { by rewrite Et. }
  { rewrite Esw, Et. cbn [map_array mul_ones shape0 elements_of].
    by rewrite mul_row_ones by (by rewrite length_fmap). }
  { cbn [mask_of]. rewrite Eom, Esm. cbn. by rewrite length_fmap. }
  cbn [args arg_nodes arg_arcs arg_targets arg_problem_based
       arg_set_mask arg_output_mask arg_sample_weights arg_NodeGraph arg_ArcNode
       arg_aggregation_mode mask_of] in H3.
  rewrite Bsm, Bom in H3.
  assert (buildNodeGraph (c_nodes G) pb = coo_matrix_empty) as Hempty
    by (unfold buildNodeGraph; by rewrite decide_False).
  rewrite Hempty in H3.
  set (G' := mkContents _ _ _ _ _ _ _ _ _ _) in H3.
  exists t, (length h + 6), (init_cells (length h) G' dims), an, adj.
  split; [exact Hrun|]. split; [|split; [exact H1|split; [exact H2|split; [|split]]]].
  - unfold fromGraphTensor. rewrite decide_False by done.
    unfold bind at 1, ret.
    cbn [t t_nodes t_arcs t_targets t_set_mask t_output_mask t_sample_weights
         t_NodeGraph t_aggregation_mode].
    pose proof (GraphObject_init_run args (mkState h d)) as Hr.
    by rewrite H3 in Hr.
  - apply contents_init_cells.
  - intros Hfix. rewrite contents_init_cells. unfold G'. do 2 f_equal.
    rewrite Esw in Hfix |- *. cbn [elements_of] in *. f_equal.
    rewrite <- (list_fmap_id sw) at 2. by apply Forall_fmap_ext_1.
  - split; [by apply contents_app|reflexivity].
Qed.

(** The weights that come back for 16777217, 1, 1 are 16777216, 1, 1. *)
Lemma heavy_weights_rounded :
  float32 <$> elements_of (c_sample_weights heavy_example)
  = [Qc_of_Z 16777216; 1%Qc; 1%Qc].
Proof. apply (bool_decide_unpack _). by vm_compute. Qed.

Lemma tensor_roundtrip_witness :
  ∃ t l h' an adj,
    fromGraphObject 6 (mkState (heap store_heavy) []) = (Ok t, mkState (heap store_heavy) [])
    ∧ fromGraphTensor t "n" (mkState (heap store_heavy) [])
      = (Ok l, mkState (heap store_heavy ++ h') [])
    ∧ buildArcNode (c_arcs heavy_example) (c_nodes heavy_example)
        (c_aggregation_mode heavy_example) = Ok an
    ∧ buildAdjacency (c_arcs heavy_example) (c_nodes heavy_example) an = Ok adj
    ∧ contents (heap store_heavy ++ h') l
      = Some (mkContents (c_nodes heavy_example) (c_arcs heavy_example)
                (c_targets heavy_example) (c_set_mask heavy_example)
                (c_output_mask heavy_example)
                (Arr1 [Qc_of_Z 16777216; 1%Qc; 1%Qc])
                (c_aggregation_mode heavy_example) an adj coo_matrix_empty)
    ∧ (Forall (λ w, float32 w = w) (elements_of (c_sample_weights heavy_example)) →
       contents (heap store_heavy ++ h') l
       = Some (mkContents (c_nodes heavy_example) (c_arcs heavy_example)
                 (c_targets heavy_example) (c_set_mask heavy_example)
                 (c_output_mask heavy_example) (c_sample_weights heavy_example)
                 (c_aggregation_mode heavy_example) an adj coo_matrix_empty))
    ∧ contents (heap store_heavy ++ h') 6 = Some heavy_example
    ∧ fromGraphTensor t "g" (mkState (heap store_heavy) [])
      = (Raise (AttributeError "'SparseTensor' object has no attribute 'numpy'"),
         mkState (heap store_heavy) []).
Proof.
  rewrite <- heavy_weights_rounded.
  apply (tensor_roundtrip (heap store_heavy) [] 6 heavy_example "n").
  - reflexivity.
  - apply heavy_example_well_formed.
  - reflexivity.
  - apply example_checks.
  - apply example_checks.
  - apply example_checks.
  - apply heavy_example_in_range.
  - discriminate.
Defined.

(* ===================================================================== *)
(** * merge of any number of graphs: the run on the store *)
(* ===================================================================== *)


Lemma length_shifted_copies (off : nat) (G : graph_contents) :
  length (shifted_copies off G) = 6.
Proof. done. Qed.



Lemma mapM_read_array_nil (σ : state) : mapM read_array [] σ = (Ok [], σ).
Proof. done. Qed.


(* ===================================================================== *)
(** * merge of any number of graphs: the concatenations *)
(* ===================================================================== *)


















(* ===================================================================== *)
(** * merge of any number of graphs *)
(* ===================================================================== *)











(* ===================================================================== *)
(** * The getters *)
(* ===================================================================== *)

Lemma get_copy_fresh (attr : GraphObject → loc) (self : loc) (h : list cell)
    (d : list (string * directory)) (g : GraphObject) (a : ndarray) :
  h !! self = Some (CGraph g) → h !! attr g = Some (CArray a) →
  get_copy attr self (mkState h d) = (Ok (length h), mkState (h ++ [CArray a]) d).
Proof.
  intros Hg Ha. pose proof (get_copy_run attr self h [] d g a Hg Ha) as H.
  rewrite app_nil_r in H. cbn [length app] in H. by rewrite Nat.add_0_r in H.
Qed.

Lemma matrix_getter_run (f : GraphObject → coo) (self : loc) (h : list cell)
    (d : list (string * directory)) (g : GraphObject) :
  h !! self = Some (CGraph g) →
  (do! g ← read_graph self; ret (f g)) (mkState h d) = (Ok (f g), mkState h d).
Proof.
  intros Hg. by rewrite (bind_run _ _ _ _ _ (read_graph_run h d self g Hg)).
Qed.

(** X18. The getters of a stored graph. Each array getter returns a new
    array, in a new cell of the store, equal to the graph's; the matrix
    getters return the graph's matrices; none changes a cell that existed.
    Whatever is later written into a returned array, in place, every graph
    of the store reads as before. *)
Theorem getters_return_copies (h : list cell) (d : list (string * directory))
    (self : loc) (G : graph_contents) :
  contents h self = Some G →
  getNodes self (mkState h d) = (Ok (length h), mkState (h ++ [CArray (c_nodes G)]) d)
  ∧ getArcs self (mkState h d) = (Ok (length h), mkState (h ++ [CArray (c_arcs G)]) d)
  ∧ getTargets self (mkState h d)
    = (Ok (length h), mkState (h ++ [CArray (c_targets G)]) d)
  ∧ getSetMask self (mkState h d)
    = (Ok (length h), mkState (h ++ [CArray (c_set_mask G)]) d)
  ∧ getOutputMask self (mkState h d)
    = (Ok (length h), mkState (h ++ [CArray (c_output_mask G)]) d)
  ∧ getSampleWeights self (mkState h d)
    = (Ok (length h), mkState (h ++ [CArray (c_sample_weights G)]) d)
  ∧ getAdjacency self (mkState h d) = (Ok (c_Adjacency G), mkState h d)
  ∧ getArcNode self (mkState h d) = (Ok (c_ArcNode G), mkState h d)
  ∧ getNodeGraph self (mkState h d) = (Ok (c_NodeGraph G), mkState h d)
  ∧ ∀ a c l G', contents h l = Some G' →
      contents (<[length h := c]> (h ++ [CArray a])) l = Some G'.
Proof.
  intros (g & Hg & Hn & Ha & Ht & Hsm & Hom & Hsw & Em & Ean & Eadj & Eng)%contents_inv.
  unfold getNodes, getArcs, getTargets, getSetMask, getOutputMask,
    getSampleWeights, getAdjacency, getArcNode, getNodeGraph.
  do 6 (split; [by apply (get_copy_fresh _ self h d g)|]).
  split; [by rewrite (matrix_getter_run Adjacency self h d g Hg), Eadj|].
  split; [by rewrite (matrix_getter_run ArcNode self h d g Hg), Ean|].
  split; [by rewrite (matrix_getter_run NodeGraph self h d g Hg), Eng|].
  intros a c l G'. apply contents_preserved. intros l' c' Hl'.
  rewrite list_lookup_insert_ne.
  - by apply lookup_app_l_Some.
  - apply lookup_lt_Some in Hl'. lia.
Qed.

Lemma getters_return_copies_witness :
  getNodes 6 (mkState (heap store_example) [])
  = (Ok (length (heap store_example)),
     mkState (heap store_example ++ [CArray (c_nodes graph_example)]) [])
  ∧ getArcs 6 (mkState (heap store_example) [])
    = (Ok (length (heap store_example)),
       mkState (heap store_example ++ [CArray (c_arcs graph_example)]) [])
  ∧ getTargets 6 (mkState (heap store_example) [])
    = (Ok (length (heap store_example)),
       mkState (heap store_example ++ [CArray (c_targets graph_example)]) [])
  ∧ getSetMask 6 (mkState (heap store_example) [])
    = (Ok (length (heap store_example)),
       mkState (heap store_example ++ [CArray (c_set_mask graph_example)]) [])
  ∧ getOutputMask 6 (mkState (heap store_example) [])
    = (Ok (length (heap store_example)),
       mkState (heap store_example ++ [CArray (c_output_mask graph_example)]) [])
  ∧ getSampleWeights 6 (mkState (heap store_example) [])
    = (Ok (length (heap store_example)),
       mkState (heap store_example ++ [CArray (c_sample_weights graph_example)]) [])
  ∧ getAdjacency 6 (mkState (heap store_example) [])
    = (Ok (c_Adjacency graph_example), mkState (heap store_example) [])
  ∧ getArcNode 6 (mkState (heap store_example) [])
    = (Ok (c_ArcNode graph_example), mkState (heap store_example) [])
  ∧ getNodeGraph 6 (mkState (heap store_example) [])
    = (Ok (c_NodeGraph graph_example), mkState (heap store_example) [])
  ∧ ∀ a c l G', contents (heap store_example) l = Some G' →
      contents (<[length (heap store_example) := c]> (heap store_example ++ [CArray a])) l
      = Some G'.
Proof.
  apply (getters_return_copies (heap store_example) [] 6 graph_example).
  reflexivity.
Defined.

(* ===================================================================== *)
(** * merge and the incidence matrices: composition by blocks *)
(* ===================================================================== *)
















